(** * NextPVR::Socket (src/src/Socket.cpp): a shallow embedding

    The socket wrapper of the NextPVR client is modelled by explicit state
    passing.  A [Socket] value is the object's fields; a [world] value is
    everything outside the object that the member functions read or change:
    the operating system (an oracle that answers each system call, and the
    record of the calls made so far), [errno] and the Winsock last-error
    code, the static member [win_usage_count], the log sink and the time
    spent in [sleep_for].  Loops that the source leaves unbounded take a
    fuel argument and return [None] when it runs out. *)

From Stdlib Require Import ZArith String Ascii List Bool Lia.
Import ListNotations.
Open Scope Z_scope.

(** ** What Socket.h and the platform headers fix for one build

    Socket.h is not part of the sources at hand, and the system headers
    never are: their constants, the byte order and the build target
    ([#if defined(TARGET_WINDOWS)]) are the fields of a [build].  [EAGAIN]
    stands for the would-block code the build compares with ([EAGAIN], or
    [WSAEWOULDBLOCK] on Windows); [sendto_complete_default] is the default
    argument of [sendto]'s third parameter. *)
Record build := {
  TARGET_WINDOWS : bool;
  INVALID_SOCKET : Z;
  SOCKET_ERROR : Z;
  EAGAIN : Z;
  MAXRECV : Z;
  SOMAXCONN : Z;
  FD_SETSIZE : Z;
  INADDR_ANY : Z;
  O_NONBLOCK : Z;
  af_inet : Z;
  pf_inet : Z;
  sock_stream : Z;
  tcp : Z;
  htons : Z -> Z;
  sendto_complete_default : bool
}.

(** ** Data *)

(** [struct sockaddr_in], without its padding. *)
Record sockaddr_in := {
  sin_family : Z;
  sin_port : Z;
  sin_addr : Z
}.

(** [memset (&_sockaddr, 0, sizeof (_sockaddr))]. *)
Definition sockaddr_zero : sockaddr_in :=
  {| sin_family := 0; sin_port := 0; sin_addr := 0 |}.

(** A non-null [struct hostent]: [h_addr] is the first entry of its address
    list. *)
Record hostent := {
  h_addr : Z;
  h_addr_more : list Z
}.

(** The data members of [class Socket]. *)
Record Socket := {
  _sd : Z;
  _family : Z;
  _domain : Z;
  _type : Z;
  _protocol : Z;
  _sockaddr : sockaddr_in
}.

Definition set_sd (s : Socket) (sd : Z) : Socket :=
  {| _sd := sd; _family := _family s; _domain := _domain s; _type := _type s;
     _protocol := _protocol s; _sockaddr := _sockaddr s |}.

Definition set_sockaddr (s : Socket) (a : sockaddr_in) : Socket :=
  {| _sd := _sd s; _family := _family s; _domain := _domain s; _type := _type s;
     _protocol := _protocol s; _sockaddr := a |}.

Definition with_family (a : sockaddr_in) (f : Z) : sockaddr_in :=
  {| sin_family := f; sin_port := sin_port a; sin_addr := sin_addr a |}.

Definition with_port (a : sockaddr_in) (p : Z) : sockaddr_in :=
  {| sin_family := sin_family a; sin_port := p; sin_addr := sin_addr a |}.

Definition with_addr (a : sockaddr_in) (x : Z) : sockaddr_in :=
  {| sin_family := sin_family a; sin_port := sin_port a; sin_addr := x |}.

(** ** The operating system *)

(** The system and library calls the class makes, with the arguments that
    matter.  Buffers passed for writing are not arguments: what the call
    stores in them is part of its [reply]. *)
Inductive os_call :=
| SysSocket (family type protocol : Z)
| SysClose (sd : Z)
| SysSelect (nfds : Z) (readfds writefds exceptfds : list Z) (tv_sec tv_usec : Z)
| SysBind (sd : Z) (addr : sockaddr_in)
| SysListen (sd backlog : Z)
| SysAccept (sd : Z)
| SysSend (sd : Z) (data : list Z) (len : Z)
| SysSendto (sd : Z) (data : list Z) (size : Z) (addr : sockaddr_in)
| SysRecv (sd : Z) (len : Z)
| SysRecvfrom (sd : Z) (len : Z)
| SysConnect (sd : Z) (addr : sockaddr_in)
| SysSetsockopt (sd level option : Z) (setting : list Z) (value : Z)
| SysGethostbyname (host : string)
| SysInetAddr (cp : string)
| SysFcntlGet (sd : Z)
| SysFcntlSet (sd opts : Z)
| SysIoctlFionbio (sd mode : Z)
| SysWSAStartup (version : Z)
| SysWSACleanup.

(** What one call gives back: its return value, the values [errno] and
    [WSAGetLastError()] have after it, and what it stored through its
    pointer arguments (bytes of a receive buffer, a peer address, a host
    entry, the negotiated Winsock version). *)
Record reply := {
  r_status : Z;
  r_errno : Z;
  r_wsaerr : Z;
  r_bytes : list Z;
  r_addr : option sockaddr_in;
  r_host : option hostent;
  r_version : Z
}.

(** The operating system answers the [k]-th call of a run. *)
Definition oracle := nat -> os_call -> reply.

Inductive log_line :=
| ErrorMessage (errnum : Z) (functionname : string)
| LogError (text : string).

Record world := {
  w_tick : nat;
  w_trace : list (os_call * reply);
  w_errno : Z;
  w_wsaerr : Z;
  win_usage_count : Z;
  w_log : list log_line;
  w_slept : Z
}.

(** The state of a process that has made no call yet;
    [int Socket::win_usage_count = 0]. *)
Definition world0 : world :=
  {| w_tick := 0%nat; w_trace := []; w_errno := 0; w_wsaerr := 0;
     win_usage_count := 0; w_log := []; w_slept := 0 |}.

Definition set_usage (w : world) (n : Z) : world :=
  {| w_tick := w_tick w; w_trace := w_trace w; w_errno := w_errno w;
     w_wsaerr := w_wsaerr w; win_usage_count := n; w_log := w_log w;
     w_slept := w_slept w |}.

Definition log (l : log_line) (w : world) : world :=
  {| w_tick := w_tick w; w_trace := w_trace w; w_errno := w_errno w;
     w_wsaerr := w_wsaerr w; win_usage_count := win_usage_count w;
     w_log := l :: w_log w; w_slept := w_slept w |}.

(** [std::this_thread::sleep_for(std::chrono::milliseconds(ms))]. *)
Definition sleep_for (ms : Z) (w : world) : world :=
  {| w_tick := w_tick w; w_trace := w_trace w; w_errno := w_errno w;
     w_wsaerr := w_wsaerr w; win_usage_count := win_usage_count w;
     w_log := w_log w; w_slept := w_slept w + ms |}.

(** C's [isalpha] in the "C" locale. *)
Definition isalpha (c : ascii) : bool :=
  let n := Z.of_nat (nat_of_ascii c) in
  ((65 <=? n) && (n <=? 90)) || ((97 <=? n) && (n <=? 122)).

(** [host.c_str()[0]]: the first character, the terminator for "". *)
Definition c_str_0 (host : string) : ascii :=
  match host with
  | EmptyString => zero
  | String c _ => c
  end.

(** Conversions between [unsigned int] and [int], both 32 bits wide. *)
Definition to_uint (x : Z) : Z := x mod 2 ^ 32.

Definition to_int (x : Z) : Z := (x + 2 ^ 31) mod 2 ^ 32 - 2 ^ 31.

(** The bytes a call stores at [data + off].  Within the buffer this
    overwrites in place; a store that runs past the end of the buffer has
    no defined meaning in C++ and here extends the list. *)
Definition write_at (data : list Z) (off : Z) (bytes : list Z) : list Z :=
  firstn (Z.to_nat off) data ++ bytes
    ++ skipn (Z.to_nat off + length bytes) data.

(** Assigning a [char] array to a [std::string] ([data = buf]): the bytes
    before the first zero byte. *)
Fixpoint c_string (buf : list Z) : list Z :=
  match buf with
  | [] => []
  | b :: rest => if b =? 0 then [] else b :: c_string rest
  end.

(** [memset (buf, 0, n)] on a fresh array of [n] bytes. *)
Definition zeros (n : Z) : list Z := repeat 0 (Z.to_nat n).

(** [MAKEWORD(2, 2)]. *)
Definition MAKEWORD (lo hi : Z) : Z := Z.lor lo (Z.shiftl hi 8).

Section Model.

Variable pf : build.
Variable os : oracle.

(** One call: the oracle answers, the call and its answer are recorded
    (newest first), and the two error codes take the values the answer
    gives. *)
Definition sys (c : os_call) (w : world) : reply * world :=
  let r := os (w_tick w) c in
  (r, {| w_tick := S (w_tick w); w_trace := (c, r) :: w_trace w;
         w_errno := r_errno r; w_wsaerr := r_wsaerr r;
         win_usage_count := win_usage_count w; w_log := w_log w;
         w_slept := w_slept w |}).

(** ** Platform layer (lines 452-703) *)

Definition getLastError (w : world) : Z :=
  if TARGET_WINDOWS pf then w_wsaerr w else w_errno w.

(** [errormessage] looks the code up in a table of texts and logs one
    line; the table is left out, the line keeps the code and the caller's
    name. *)
Definition errormessage (errnum : Z) (functionname : string) (w : world) : world :=
  log (ErrorMessage errnum functionname) w.

Definition osInit (w : world) : bool * world :=
  if TARGET_WINDOWS pf then
    let w0 := set_usage w (win_usage_count w + 1) in
    let '(r, w1) := sys (SysWSAStartup (MAKEWORD 2 2)) w0 in
    if negb (r_status r =? 0) then (false, w1)
    else if negb (r_version r =? MAKEWORD 2 2) then (false, w1)
    else (true, w1)
  else (true, w).

Definition osCleanup (w : world) : world :=
  if TARGET_WINDOWS pf then
    let w0 := set_usage w (win_usage_count w - 1) in
    if win_usage_count w0 =? 0 then snd (sys SysWSACleanup w0) else w0
  else w.

(** ** Construction and life cycle (lines 20-127) *)

Definition Socket_new (family domain type protocol : Z) : Socket :=
  {| _sd := INVALID_SOCKET pf; _family := family; _domain := domain;
     _type := type; _protocol := protocol; _sockaddr := sockaddr_zero |}.

Definition Socket_default : Socket :=
  Socket_new (af_inet pf) (pf_inet pf) (sock_stream pf) (tcp pf).

Definition is_valid (s : Socket) : bool :=
  negb (_sd s =? INVALID_SOCKET pf).

Definition setHostname (host : string) (s : Socket) (w : world)
  : bool * Socket * world :=
  if isalpha (c_str_0 host) then
    let '(r, w1) := sys (SysGethostbyname host) w in
    match r_host r with
    | None =>
        (false, s, errormessage (getLastError w1) "Socket::setHostname" w1)
    | Some he =>
        (true, set_sockaddr s (with_addr (_sockaddr s) (h_addr he)), w1)
    end
  else
    let '(r, w1) := sys (SysInetAddr host) w in
    (true, set_sockaddr s (with_addr (_sockaddr s) (r_status r)), w1).

Definition read_ready (s : Socket) (w : world) : bool * Socket * world :=
  let '(r, w1) := sys (SysSelect (_sd s + 1) [_sd s] [] [] 1 0) w in
  (0 <? r_status r, s, w1).

Definition close (s : Socket) (w : world) : bool * Socket * world :=
  if is_valid s then
    let w1 := if negb (_sd s =? SOCKET_ERROR pf)
              then snd (sys (SysClose (_sd s)) w) else w in
    (true, set_sd s (INVALID_SOCKET pf), osCleanup w1)
  else (false, s, w).

Definition create (s : Socket) (w : world) : bool * Socket * world :=
  let '(s0, w0) :=
    if is_valid s then let '(_, s', w') := close s w in (s', w') else (s, w) in
  let '(ok, w1) := osInit w0 in
  if negb ok then (false, s0, w1)
  else
    let '(r, w2) := sys (SysSocket (_family s0) (_type s0) (_protocol s0)) w1 in
    let s1 := set_sd s0 (r_status r) in
    if _sd s1 =? INVALID_SOCKET pf
    then (false, s1, errormessage (getLastError w2) "Socket::create" w2)
    else (true, s1, w2).

(** The destructor. *)
Definition Socket_delete (s : Socket) (w : world) : Socket * world :=
  let '(_, s', w') := close s w in (s', w').

(** ** Server role (lines 130-193) *)

Definition bind (port : Z) (s : Socket) (w : world) : bool * Socket * world :=
  if negb (is_valid s) then (false, s, w)
  else
    let a := with_port (with_addr (with_family (_sockaddr s) (_family s))
                                  (INADDR_ANY pf)) (htons pf port) in
    let s1 := set_sockaddr s a in
    let '(r, w1) := sys (SysBind (_sd s1) (_sockaddr s1)) w in
    if r_status r =? -1
    then (false, s1, errormessage (getLastError w1) "Socket::bind" w1)
    else (true, s1, w1).

Definition listen (s : Socket) (w : world) : bool * Socket * world :=
  if negb (is_valid s) then (false, s, w)
  else
    let '(r, w1) := sys (SysListen (_sd s) (SOMAXCONN pf)) w in
    if r_status r =? -1
    then (false, s, errormessage (getLastError w1) "Socket::listen" w1)
    else (true, s, w1).

(** [accept] hands [&_sockaddr] (its constness cast away) to the system,
    which stores the peer's address there when it has one to report. *)
Definition accept (new_socket : Socket) (s : Socket) (w : world)
  : bool * Socket * Socket * world :=
  if negb (is_valid s) then (false, new_socket, s, w)
  else
    let '(r, w1) := sys (SysAccept (_sd s)) w in
    let s1 := match r_addr r with
              | Some a => set_sockaddr s a
              | None => s
              end in
    let n1 := set_sd new_socket (r_status r) in
    if _sd n1 <=? 0
    then (false, n1, s1, errormessage (getLastError w1) "Socket::accept" w1)
    else (true, n1, s1, w1).

(** ** send (lines 196-281) *)

(** [do { status = ::send(...); } while (status == SOCKET_ERROR && errno == EAGAIN);] *)
Fixpoint send_loop (fuel : nat) (sd : Z) (data : list Z) (len : Z) (w : world)
  : option (Z * world) :=
  match fuel with
  | O => None
  | S f =>
      let '(r, w1) := sys (SysSend sd data len) w in
      if (r_status r =? SOCKET_ERROR pf) && (w_errno w1 =? EAGAIN pf)
      then send_loop f sd data len w1
      else Some (r_status r, w1)
  end.

(** [Socket::send(const char* data, const unsigned int len)].  The poll is
    [select(FD_SETSIZE, &set_w, nullptr, &set_e, &tv)]: the set named
    [set_w] travels in the position of the read set. *)
Definition send (fuel : nat) (data : list Z) (len : Z) (s : Socket) (w : world)
  : option (Z * Socket * world) :=
  if negb (is_valid s) then Some (0, s, w)
  else
    let '(r, w1) :=
      sys (SysSelect (FD_SETSIZE pf) [_sd s] [] [_sd s] 0 0) w in
    if r_status r <? 0
    then Some (0, set_sd s (INVALID_SOCKET pf),
               log (LogError "Socket::send  - select failed") w1)
    else
      match send_loop fuel (_sd s) data len w1 with
      | None => None
      | Some (status, w2) =>
          if status =? SOCKET_ERROR pf
          then Some (status, set_sd s (INVALID_SOCKET pf),
                     log (LogError "Socket::send  - failed to send data")
                         (errormessage (getLastError w2) "Socket::send" w2))
          else Some (status, s, w2)
      end.

(** The loop of [Socket::send(const std::string& data)]; each turn is one
    call of the overload above, which gets [inner] fuel of its own. *)
Fixpoint send_string_loop (fuel inner : nat) (data : list Z) (s : Socket)
  (w : world) : option (Z * Socket * world) :=
  match fuel with
  | O => None
  | S f =>
      match send inner data (to_uint (Z.of_nat (length data))) s w with
      | None => None
      | Some (status, s1, w1) =>
          if (status =? SOCKET_ERROR pf) && (w_errno w1 =? EAGAIN pf)
          then send_string_loop f inner data s1 w1
          else Some (status, s1, w1)
      end
  end.

Definition send_string (fuel inner : nat) (data : list Z) (s : Socket)
  (w : world) : option (Z * Socket * world) :=
  if negb (is_valid s) then Some (0, s, w)
  else send_string_loop fuel inner data s w.

(** The [do ... while] of [sendto].  [sentbytes] is an [int]:
    [sentbytes += i] is written with its 32-bit wrap-around (an overflow
    has no defined meaning in C++). *)
Fixpoint sendto_loop (fuel : nat) (sentbytes : Z) (data : list Z) (size : Z)
  (sendcompletebuffer : bool) (s : Socket) (w : world) : option (Z * world) :=
  match fuel with
  | O => None
  | S f =>
      let '(r, w1) := sys (SysSendto (_sd s) data size (_sockaddr s)) w in
      let i := r_status r in
      if i <=? 0
      then Some (i, osCleanup
                      (errormessage (getLastError w1) "Socket::sendto" w1))
      else
        let sentbytes1 := to_int (sentbytes + i) in
        if (sentbytes1 <? to_int size) && sendcompletebuffer
        then sendto_loop f sentbytes1 data size sendcompletebuffer s w1
        else Some (i, w1)
  end.

Definition sendto (fuel : nat) (data : list Z) (size : Z)
  (sendcompletebuffer : bool) (s : Socket) (w : world)
  : option (Z * Socket * world) :=
  match sendto_loop fuel 0 data size sendcompletebuffer s w with
  | None => None
  | Some (i, w1) => Some (i, s, w1)
  end.

(** ** receive (lines 284-372) *)

(** One turn of the [while] loop of the three-argument [receive]: the loop
    test, then the body.  [Again] is a turn that goes back to the test
    ([continue], or the end of the body), [Return] one that leaves the
    function ([return status], or [break] or a failed test followed by
    [return receivedsize]). *)
Inductive turn :=
| Again (receivedsize : Z) (data : list Z) (w : world)
| Return (status : Z) (data : list Z) (w : world).

Definition receive_turn (sd buffersize minpacketsize : Z)
  (receivedsize : Z) (data : list Z) (w : world) : turn :=
  if (receivedsize <=? minpacketsize) && (receivedsize <? buffersize) then
    let '(r, w1) := sys (SysRecv sd (to_uint (buffersize - receivedsize))) w in
    let status := r_status r in
    if status =? SOCKET_ERROR pf then
      let lasterror := getLastError w1 in
      if negb (lasterror =? EAGAIN pf)
      then Return status data (errormessage lasterror "Socket::receive" w1)
      else Again receivedsize data
             (sleep_for 50 (log (LogError "Socket::read EAGAIN") w1))
    else
      let data1 := write_at data receivedsize (r_bytes r) in
      let receivedsize1 := to_uint (receivedsize + status) in
      if minpacketsize <=? receivedsize1
      then Return (to_int receivedsize1) data1 w1
      else Again receivedsize1 data1 w1
  else Return (to_int receivedsize) data w.

Fixpoint receive_loop (sd buffersize minpacketsize : Z) (fuel : nat)
  (receivedsize : Z) (data : list Z) (w : world) : option (Z * list Z * world) :=
  match fuel with
  | O => None
  | S f =>
      match receive_turn sd buffersize minpacketsize receivedsize data w with
      | Return status data1 w1 => Some (status, data1, w1)
      | Again receivedsize1 data1 w1 =>
          receive_loop sd buffersize minpacketsize f receivedsize1 data1 w1
      end
  end.

(** Where the loop stands after [n] turns: [Again] with the loop variables
    of a loop still running, or the [Return] that ended it. *)
Fixpoint receive_after (sd buffersize minpacketsize : Z) (n : nat)
  (receivedsize : Z) (data : list Z) (w : world) : turn :=
  match n with
  | O => Again receivedsize data w
  | S k =>
      match receive_turn sd buffersize minpacketsize receivedsize data w with
      | Return status data1 w1 => Return status data1 w1
      | Again receivedsize1 data1 w1 =>
          receive_after sd buffersize minpacketsize k receivedsize1 data1 w1
      end
  end.

(** [receive (char* data, buffersize, minpacketsize)]: the status and the
    contents of [data] afterwards. *)
Definition receive (fuel : nat) (data : list Z) (buffersize minpacketsize : Z)
  (s : Socket) (w : world) : option (Z * list Z * world) :=
  if negb (is_valid s) then Some (0, data, w)
  else receive_loop (_sd s) buffersize minpacketsize fuel 0 data w.

(** [receive (std::string& data, unsigned int minpacketsize)]. *)
Definition receive_string_min (fuel : nat) (data : list Z) (minpacketsize : Z)
  (s : Socket) (w : world) : option (Z * list Z * world) :=
  if negb (is_valid s) then Some (0, data, w)
  else
    let buf := zeros (to_uint (minpacketsize + 1)) in
    match receive fuel buf minpacketsize minpacketsize s w with
    | None => None
    | Some (status, buf1, w1) => Some (status, c_string buf1, w1)
    end.

(** [receive (std::string& data)]. *)
Definition receive_string (fuel : nat) (data : list Z) (s : Socket) (w : world)
  : option (Z * list Z * world) :=
  if negb (is_valid s) then Some (0, data, w)
  else
    let buf := zeros (MAXRECV pf + 1) in
    match receive fuel buf (MAXRECV pf) 0 s w with
    | None => None
    | Some (status, buf1, w1) => Some (status, c_string buf1, w1)
    end.

(** [recvfrom]: the status, the buffer and the caller's [from] afterwards. *)
Definition recvfrom (data : list Z) (buffersize : Z) (from : sockaddr_in)
  (s : Socket) (w : world) : Z * list Z * sockaddr_in * world :=
  let '(r, w1) := sys (SysRecvfrom (_sd s) buffersize) w in
  (r_status r, write_at data 0 (r_bytes r),
   match r_addr r with Some a => a | None => from end, w1).

(** ** Client role and the rest (lines 375-469, 595-617) *)

Definition connect (host : string) (port : Z) (s : Socket) (w : world)
  : bool * Socket * world :=
  if negb (is_valid s) then (false, s, w)
  else
    let s1 := set_sockaddr s
                (with_port (with_family (_sockaddr s) (_family s))
                           (htons pf port)) in
    let '(ok, s2, w1) := setHostname host s1 w in
    if negb ok
    then (false, s2, log (LogError "Socket::setHostname failed") w1)
    else
      let '(r, w2) := sys (SysConnect (_sd s2) (_sockaddr s2)) w1 in
      if r_status r =? SOCKET_ERROR pf
      then (false, s2,
            errormessage (getLastError w2) "Socket::connect"
              (log (LogError "Socket::connect") w2))
      else (true, s2, w2).

Definition reconnect (s : Socket) (w : world) : bool * Socket * world :=
  if negb (_sd s =? INVALID_SOCKET pf) then (true, s, w)
  else
    let '(ok, s1, w1) := create s w in
    if negb ok then (false, s1, w1)
    else
      let '(r, w2) := sys (SysConnect (_sd s1) (_sockaddr s1)) w1 in
      if r_status r =? SOCKET_ERROR pf
      then (false, s1, errormessage (getLastError w2) "Socket::connect" w2)
      else (true, s1, w2).

Definition SetSocketOption (level option : Z) (setting : list Z) (value : Z)
  (s : Socket) (w : world) : bool * Socket * world :=
  if _sd s =? INVALID_SOCKET pf then (false, s, w)
  else
    let '(r, w1) := sys (SysSetsockopt (_sd s) level option setting value) w in
    (negb (r_status r =? 0), s, w1).

Definition BroadcastSendTo (fuel : nat) (port : Z) (msg : list Z) (len : Z)
  (s : Socket) (w : world) : option (Z * Socket * world) :=
  let a := with_port (with_family (_sockaddr s) (_family s)) (htons pf port) in
  let '(r, w1) := sys (SysInetAddr "255.255.255.255") w in
  let s1 := set_sockaddr s (with_addr a (r_status r)) in
  sendto fuel msg (to_uint len) (sendto_complete_default pf) s1 w1.

Definition BroadcastReceiveFrom (payload : list Z) (payloadLength : Z)
  (s : Socket) (w : world) : Z * list Z * Socket * world :=
  let '(status, payload1, from, w1) :=
    recvfrom payload payloadLength (_sockaddr s) s w in
  (status, payload1, set_sockaddr s from, w1).

Definition set_non_blocking (b : bool) (s : Socket) (w : world)
  : bool * Socket * world :=
  if TARGET_WINDOWS pf then
    let iMode := if b then 1 else 0 in
    let '(r, w1) := sys (SysIoctlFionbio (_sd s) iMode) w in
    if r_status r =? -1
    then (false, s, log (LogError "Socket::set_non_blocking") w1)
    else (true, s, w1)
  else
    let '(r, w1) := sys (SysFcntlGet (_sd s)) w in
    let opts := r_status r in
    if opts <? 0 then (false, s, w1)
    else
      let opts1 := if b then Z.lor opts (O_NONBLOCK pf)
                   else Z.land opts (Z.lnot (O_NONBLOCK pf)) in
      let '(r2, w2) := sys (SysFcntlSet (_sd s) opts1) w1 in
      if r_status r2 =? -1
      then (false, s, log (LogError "Socket::set_non_blocking") w2)
      else (true, s, w2).

(** ** The public member functions as one type

    [run] is the effect of one call on the object it is called on and on
    the world; [OpAcceptedBy] is the object's part in another Socket's
    [accept], which assigns its [_sd]. *)
Inductive op :=
| OpSetHostname (host : string)
| OpReadReady
| OpClose
| OpCreate
| OpBind (port : Z)
| OpListen
| OpAccept (new_socket : Socket)
| OpAcceptedBy (listener : Socket)
| OpSendString (data : list Z)
| OpSend (data : list Z) (len : Z)
| OpSendto (data : list Z) (size : Z) (sendcompletebuffer : bool)
| OpReceiveStringMin (data : list Z) (minpacketsize : Z)
| OpReceiveString (data : list Z)
| OpReceive (data : list Z) (buffersize minpacketsize : Z)
| OpRecvfrom (data : list Z) (buffersize : Z) (from : sockaddr_in)
| OpConnect (host : string) (port : Z)
| OpReconnect
| OpIsValid
| OpSetSocketOption (level option : Z) (setting : list Z) (value : Z)
| OpBroadcastSendTo (port : Z) (msg : list Z) (len : Z)
| OpBroadcastReceiveFrom (payload : list Z) (payloadLength : Z)
| OpSetNonBlocking (b : bool)
| OpDelete.

Definition drop {A : Type} (x : A * Socket * world) : option (Socket * world) :=
  let '(_, s, w) := x in Some (s, w).

Definition drop_opt {A : Type} (x : option (A * Socket * world))
  : option (Socket * world) :=
  match x with
  | Some (_, s, w) => Some (s, w)
  | None => None
  end.

Definition keep {A : Type} (s : Socket) (x : option (A * world))
  : option (Socket * world) :=
  match x with
  | Some (_, w) => Some (s, w)
  | None => None
  end.

Definition run (fuel : nat) (o : op) (s : Socket) (w : world)
  : option (Socket * world) :=
  match o with
  | OpSetHostname host => drop (setHostname host s w)
  | OpReadReady => drop (read_ready s w)
  | OpClose => drop (close s w)
  | OpCreate => drop (create s w)
  | OpBind port => drop (bind port s w)
  | OpListen => drop (listen s w)
  | OpAccept new_socket =>
      let '(_, _, s1, w1) := accept new_socket s w in Some (s1, w1)
  | OpAcceptedBy listener =>
      let '(_, s1, _, w1) := accept s listener w in Some (s1, w1)
  | OpSendString data => drop_opt (send_string fuel fuel data s w)
  | OpSend data len => drop_opt (send fuel data len s w)
  | OpSendto data size c => drop_opt (sendto fuel data size c s w)
  | OpReceiveStringMin data m => keep s (receive_string_min fuel data m s w)
  | OpReceiveString data => keep s (receive_string fuel data s w)
  | OpReceive data b m => keep s (receive fuel data b m s w)
  | OpRecvfrom data b from =>
      let '(_, _, _, w1) := recvfrom data b from s w in Some (s, w1)
  | OpConnect host port => drop (connect host port s w)
  | OpReconnect => drop (reconnect s w)
  | OpIsValid => Some (s, w)
  | OpSetSocketOption l o' st v => drop (SetSocketOption l o' st v s w)
  | OpBroadcastSendTo port msg len => drop_opt (BroadcastSendTo fuel port msg len s w)
  | OpBroadcastReceiveFrom p l =>
      let '(_, _, s1, w1) := BroadcastReceiveFrom p l s w in Some (s1, w1)
  | OpSetNonBlocking b => drop (set_non_blocking b s w)
  | OpDelete => Some (Socket_delete s w)
  end.

End Model.

(** ** Vocabulary of the statements *)

(** The calls made between two worlds of one run, newest first. *)
Definition events_since (w w' : world) : list (os_call * reply) :=
  firstn (length (w_trace w') - length (w_trace w)) (w_trace w').

Definition calls_since (w w' : world) : list os_call :=
  map fst (events_since w w').

(** Calls that give a descriptor or the socket subsystem back to the system. *)
Definition releases (c : os_call) : bool :=
  match c with
  | SysClose _ | SysWSACleanup => true
  | _ => false
  end.

(** Calls that turn a host string into an address. *)
Definition resolves (c : os_call) : bool :=
  match c with
  | SysGethostbyname _ | SysInetAddr _ => true
  | _ => false
  end.

Definition is_recv (c : os_call) : bool :=
  match c with
  | SysRecv _ _ => true
  | _ => false
  end.

(** The read a turn of the [receive] loop makes when [rs] bytes are in. *)
Definition recv_at (sd buffersize rs : Z) : os_call :=
  SysRecv sd (to_uint (buffersize - rs)).

(** What the capacity bound says of a turn's outcome: a loop that goes on
    holds at most [buffersize] bytes; one that returns gives [SOCKET_ERROR]
    or a count of at most [buffersize] bytes, which is [buffersize] itself
    when [buffersize <= minpacketsize]. *)
Definition within_capacity (pf : build) (buffersize minpacketsize : Z)
  (t : turn) : Prop :=
  match t with
  | Again rs _ _ => 0 <= rs <= buffersize
  | Return st _ _ =>
      st = SOCKET_ERROR pf
      \/ exists rs, st = to_int rs /\ 0 <= rs <= buffersize
                    /\ (buffersize <= minpacketsize -> rs = buffersize)
  end.

(** The code [getLastError()] returns right after a call answered [r]. *)
Definition last_error (pf : build) (r : reply) : Z :=
  if TARGET_WINDOWS pf then r_wsaerr r else r_errno r.

(** A receive answered "would block", as [receive] tests it. *)
Definition would_block (pf : build) (r : reply) : bool :=
  (r_status r =? SOCKET_ERROR pf) && (last_error pf r =? EAGAIN pf).

(** A write answered "would block", as [send] tests it (through [errno]). *)
Definition send_would_block (pf : build) (r : reply) : bool :=
  (r_status r =? SOCKET_ERROR pf) && (r_errno r =? EAGAIN pf).

(** Calls of the handle's life cycle: what [create] and [close] may do. *)
Definition lifecycle (c : os_call) : bool :=
  match c with
  | SysSocket _ _ _ | SysClose _ | SysWSAStartup _ | SysWSACleanup => true
  | _ => false
  end.

(** [w'] is [w] after some more calls, all of which satisfy [P]. *)
Definition only_calls (P : os_call -> Prop) (w w' : world) : Prop :=
  exists evs, w_trace w' = evs ++ w_trace w
              /\ forall c, In c (map fst evs) -> P c.

(** The member functions that store into [_sockaddr]. *)
Definition writes_sockaddr (o : op) : bool :=
  match o with
  | OpSetHostname _ | OpConnect _ _ | OpBind _ | OpAccept _
  | OpBroadcastSendTo _ _ _ | OpBroadcastReceiveFrom _ _ => true
  | _ => false
  end.

(** ** Two builds and some operating systems to run the model on *)

(** [htons] on a little-endian host. *)
Definition htons_le (x : Z) : Z :=
  Z.lor (Z.shiftl (Z.land x 255) 8) (Z.land (Z.shiftr x 8) 255).

Definition posix_build : build :=
  {| TARGET_WINDOWS := false; INVALID_SOCKET := -1; SOCKET_ERROR := -1;
     EAGAIN := 11; MAXRECV := 1500; SOMAXCONN := 128; FD_SETSIZE := 1024;
     INADDR_ANY := 0; O_NONBLOCK := 2048; af_inet := 2; pf_inet := 2;
     sock_stream := 1; tcp := 6; htons := htons_le;
     sendto_complete_default := false |}.

Definition windows_build : build :=
  {| TARGET_WINDOWS := true; INVALID_SOCKET := 2 ^ 64 - 1; SOCKET_ERROR := -1;
     EAGAIN := 10035; MAXRECV := 1500; SOMAXCONN := 2147483647;
     FD_SETSIZE := 64; INADDR_ANY := 0; O_NONBLOCK := 0; af_inet := 2;
     pf_inet := 2; sock_stream := 1; tcp := 6; htons := htons_le;
     sendto_complete_default := false |}.

(** A call that succeeds with return value [status]. *)
Definition ok (status : Z) : reply :=
  {| r_status := status; r_errno := 0; r_wsaerr := 0; r_bytes := [];
     r_addr := None; r_host := None; r_version := MAKEWORD 2 2 |}.

(** A call that fails with -1 and error code [code] on both channels. *)
Definition failed (code : Z) : reply :=
  {| r_status := -1; r_errno := code; r_wsaerr := code; r_bytes := [];
     r_addr := None; r_host := None; r_version := MAKEWORD 2 2 |}.

(** A Winsock call that fails with -1: the code is what
    [WSAGetLastError()] returns afterwards, and [errno] is not set. *)
Definition wsa_failed (code : Z) : reply :=
  {| r_status := -1; r_errno := 0; r_wsaerr := code; r_bytes := [];
     r_addr := None; r_host := None; r_version := MAKEWORD 2 2 |}.

(** A receive that stores [bytes]. *)
Definition delivers (bytes : list Z) : reply :=
  {| r_status := Z.of_nat (length bytes); r_errno := 0; r_wsaerr := 0;
     r_bytes := bytes; r_addr := None; r_host := None;
     r_version := MAKEWORD 2 2 |}.

(** A name lookup that finds [addr]. *)
Definition found (addr : Z) : reply :=
  {| r_status := 0; r_errno := 0; r_wsaerr := 0; r_bytes := [];
     r_addr := None; r_host := Some {| h_addr := addr; h_addr_more := [] |};
     r_version := MAKEWORD 2 2 |}.

(** The system that answers every call the same way. *)
Definition always (r : reply) : oracle := fun _ _ => r.

(** The system that answers its first calls from a list and every later
    call with [r]. *)
Definition scripted (l : list reply) (r : reply) : oracle :=
  fun k _ => nth k l r.

(** The system whose readiness poll always reports one ready descriptor
    and that otherwise behaves as [o]. *)
Definition ready_then (o : oracle) : oracle :=
  fun k c =>
    match c with
    | SysSelect _ _ _ _ _ _ => ok 1
    | _ => o k c
    end.

(** A reply cut down to what a read of [len] bytes may give. *)
Definition clip (len : Z) (r : reply) : reply :=
  if r_status r <? 0 then r
  else delivers (firstn (Z.to_nat len) (r_bytes r)).

(** The system [o] with every read cut down to the length asked for. *)
Definition clipped (o : oracle) : oracle :=
  fun k c =>
    match c with
    | SysRecv _ len => clip len (o k c)
    | _ => o k c
    end.

(** The system [o] started when [t] calls have already been made. *)
Definition from_tick (t : nat) (o : oracle) : oracle :=
  fun k c => o (k - t)%nat c.

(** ** A stream between two peers

    What the receiving side's system does at one read: report "would
    block", or store the next piece of the stream (an empty piece is a read
    that returns 0). *)
Inductive arrival :=
| Blocked
| Chunk (bytes : list Z).

Definition arrival_reply (pf : build) (a : arrival) : reply :=
  match a with
  | Blocked =>
      {| r_status := SOCKET_ERROR pf; r_errno := EAGAIN pf;
         r_wsaerr := EAGAIN pf; r_bytes := []; r_addr := None;
         r_host := None; r_version := MAKEWORD 2 2 |}
  | Chunk bytes => delivers bytes
  end.

(** The bytes a sequence of reads delivers, in order. *)
Fixpoint arrived (sched : list arrival) : list Z :=
  match sched with
  | [] => []
  | Blocked :: rest => arrived rest
  | Chunk bytes :: rest => bytes ++ arrived rest
  end.

(** The bytes one recorded call put on the stream: a write that returned
    [n > 0] took the first [n] bytes of its buffer. *)
Definition accepted (e : os_call * reply) : list Z :=
  match fst e with
  | SysSend _ data _ => firstn (Z.to_nat (r_status (snd e))) data
  | _ => []
  end.

(** The bytes a record of calls (newest first) put on the stream, oldest
    first. *)
Definition wire (evs : list (os_call * reply)) : list Z :=
  concat (map accepted (rev evs)).

(** An open socket on descriptor 3 with the default configuration. *)
Definition open3 (pf : build) : Socket := set_sd (Socket_default pf) 3.

(** ** Vocabulary of the further properties *)

(** The member functions that test the handle before anything else. *)
Definition guarded (o : op) : bool :=
  match o with
  | OpClose | OpDelete | OpBind _ | OpListen | OpAccept _ | OpSendString _
  | OpSend _ _ | OpReceiveStringMin _ _ | OpReceiveString _
  | OpReceive _ _ _ | OpConnect _ _ | OpIsValid
  | OpSetSocketOption _ _ _ _ => true
  | _ => false
  end.

(** The member functions that reach [osInit] or [osCleanup]. *)
Definition touches_usage (o : op) : bool :=
  match o with
  | OpClose | OpDelete | OpCreate | OpReconnect | OpSendto _ _ _
  | OpBroadcastSendTo _ _ _ => true
  | _ => false
  end.

(** A system whose reads fail or store exactly the bytes they report, at
    most [len] of them. *)
Definition recv_honest (pf : build) (os : oracle) : Prop :=
  forall k sd len,
    0 <= len ->
    r_status (os k (SysRecv sd len)) = SOCKET_ERROR pf
    \/ (0 <= r_status (os k (SysRecv sd len)) <= len
        /\ Z.of_nat (length (r_bytes (os k (SysRecv sd len))))
           = r_status (os k (SysRecv sd len))).

(** What the loop of [receive] keeps true of its buffer: [rs] bytes are in,
    the buffer has its length, and from [rs] on it is as it was. *)
Definition filled (buffersize : Z) (data0 : list Z) (rs : Z) (d : list Z)
  : Prop :=
  0 <= rs <= buffersize
  /\ length d = length data0
  /\ skipn (Z.to_nat rs) d = skipn (Z.to_nat rs) data0.

(** What a turn's outcome says about the minimum asked for. *)
Definition meets_minimum (pf : build) (buffersize minpacketsize : Z)
  (t : turn) : Prop :=
  match t with
  | Again rs _ _ => 0 <= rs <= buffersize
  | Return st _ _ =>
      st = SOCKET_ERROR pf
      \/ (0 <= st <= buffersize /\ (minpacketsize <= st \/ st = buffersize))
  end.

(** * Properties *)

(** Case analysis on a test the function under study branches on. *)
Ltac case_if_in H :=
  match type of H with
  | context [if ?b then _ else _] => destruct b eqn:?
  end.

Ltac case_if :=
  match goal with
  | |- context [if ?b then _ else _] => destruct b eqn:?
  end.

(** ** Bookkeeping: the record of calls only grows *)

Lemma events_since_app (w w' : world) (evs : list (os_call * reply)) :
  w_trace w' = evs ++ w_trace w -> events_since w w' = evs.
Proof.
  intros H. unfold events_since. rewrite H, length_app.
  replace (length evs + length (w_trace w) - length (w_trace w))%nat
    with (length evs + 0)%nat by lia.
  rewrite firstn_app_2. simpl. apply app_nil_r.
Qed.

Lemma calls_since_app (w w' : world) (evs : list (os_call * reply)) :
  w_trace w' = evs ++ w_trace w -> calls_since w w' = map fst evs.
Proof.
  intros H. unfold calls_since. now rewrite (events_since_app _ _ _ H).
Qed.

Lemma events_since_refl (w : world) : events_since w w = [].
Proof. apply events_since_app. reflexivity. Qed.

Section Platform.

Variable pf : build.
Variable os : oracle.

Lemma sys_trace (c : os_call) (w : world) :
  w_trace (snd (sys os c w)) = [(c, os (w_tick w) c)] ++ w_trace w.
Proof. reflexivity. Qed.

Lemma osCleanup_usage (w : world) :
  TARGET_WINDOWS pf = true ->
  win_usage_count (osCleanup pf os w) = win_usage_count w - 1.
Proof.
  intros Hw. unfold osCleanup. rewrite Hw. simpl.
  destruct (win_usage_count w - 1 =? 0); reflexivity.
Qed.

Lemma osCleanup_trace (w : world) :
  exists evs, w_trace (osCleanup pf os w) = evs ++ w_trace w
    /\ (forall sd, ~ In (SysClose sd) (map fst evs))
    /\ (TARGET_WINDOWS pf = true -> win_usage_count w = 1 ->
        map fst evs = [SysWSACleanup]).
Proof.
  unfold osCleanup. destruct (TARGET_WINDOWS pf) eqn:Hw.
  - simpl. destruct (win_usage_count w - 1 =? 0) eqn:Hz.
    + exists [(SysWSACleanup, os (w_tick w) SysWSACleanup)]. simpl.
      split; [reflexivity|]. split; [|reflexivity].
      intros sd [H|[]]. discriminate.
    + exists []. simpl. split; [reflexivity|]. split; [tauto|].
      intros _ H1. rewrite H1 in Hz. discriminate.
  - exists []. simpl. split; [reflexivity|]. split; [tauto|]. discriminate.
Qed.

(** What a run of the [sendto] loop does to the usage counter and which
    calls it makes. *)
Lemma sendto_loop_effect (fuel : nat) :
  forall sentbytes data size c s w i w',
    TARGET_WINDOWS pf = true ->
    sendto_loop pf os fuel sentbytes data size c s w = Some (i, w') ->
    exists evs, w_trace w' = evs ++ w_trace w
      /\ (forall sd, ~ In (SysClose sd) (map fst evs))
      /\ (0 < i -> win_usage_count w' = win_usage_count w)
      /\ (i <= 0 -> win_usage_count w' = win_usage_count w - 1
                    /\ (win_usage_count w = 1 ->
                        In SysWSACleanup (map fst evs))).
Proof.
  induction fuel as [|f IH]; intros sentbytes data size c s w i w' Hw H.
  - discriminate.
  - simpl in H.
    set (r := os (w_tick w) (SysSendto (_sd s) data size (_sockaddr s))) in *.
    set (w1 := {| w_tick := S (w_tick w) |}) in *.
    destruct (r_status r <=? 0) eqn:Hi.
    + injection H as Hi' Hw'. subst i.
      destruct (osCleanup_trace
                  (errormessage (getLastError pf w1) "Socket::sendto" w1))
        as (evs & Ht & Hc & Hk).
      rewrite Hw' in Ht.
      exists (evs ++ [(SysSendto (_sd s) data size (_sockaddr s), r)]).
      split; [rewrite Ht; simpl; now rewrite <- app_assoc|].
      split.
      { intros sd Hin. rewrite map_app in Hin. apply in_app_or in Hin.
        destruct Hin as [Hin|[Hin|[]]]; [now apply (Hc sd)|discriminate]. }
      split; [intros Hpos; apply Z.leb_le in Hi; lia|].
      intros _. split.
      * rewrite <- Hw', osCleanup_usage by assumption. reflexivity.
      * intros H1. rewrite map_app, (Hk Hw H1). simpl. now left.
    + destruct ((to_int (sentbytes + r_status r) <? to_int size) && c).
      * apply IH in H; [|assumption].
        destruct H as (evs & Ht & Hc & Hpos & Hneg).
        exists (evs ++ [(SysSendto (_sd s) data size (_sockaddr s), r)]).
        split; [rewrite Ht; simpl; now rewrite <- app_assoc|].
        split.
        { intros sd Hin. rewrite map_app in Hin. apply in_app_or in Hin.
          destruct Hin as [Hin|[Hin|[]]]; [now apply (Hc sd)|discriminate]. }
        split; [exact Hpos|].
        intros Hle. destruct (Hneg Hle) as [Hu Hk]. split; [exact Hu|].
        intros H1. rewrite map_app. apply in_or_app. left. now apply Hk.
      * injection H as Hi' Hw'. subst i w'.
        exists [(SysSendto (_sd s) data size (_sockaddr s), r)].
        split; [reflexivity|]. split.
        { intros sd [Hin|[]]. discriminate. }
        split; [reflexivity|]. intros Hle. apply Z.leb_gt in Hi. lia.
Qed.

End Platform.

(** ** The usage counter (create, close, sendto) *)

Lemma sendto_returns_on_failure (pf : build) (os : oracle) (fuel : nat)
  (data : list Z) (size : Z) (c : bool) (s : Socket) (w : world) :
  let r := os (w_tick w) (SysSendto (_sd s) data size (_sockaddr s)) in
  r_status r <= 0 ->
  sendto pf os (S fuel) data size c s w
  = Some (r_status r, s,
          osCleanup pf os
            (errormessage (getLastError pf (snd (sys os (SysSendto (_sd s) data size (_sockaddr s)) w)))
               "Socket::sendto"
               (snd (sys os (SysSendto (_sd s) data size (_sockaddr s)) w)))).
Proof.
  intros r Hr. unfold sendto. simpl. fold r.
  apply Z.leb_le in Hr. rewrite Hr. reflexivity.
Qed.

(** C10.  On the build that starts the socket subsystem, a [sendto] (and so
    a [BroadcastSendTo]) that returns a non-positive result has run
    [osCleanup]: the usage counter is one lower than before, although the
    object is unchanged (its handle is as valid as it was) and no
    descriptor was closed; when the counter stood at 1, the subsystem
    teardown [WSACleanup] was called with the Socket still open. *)
Theorem sendto_failure_decrements_usage_count :
  forall (pf : build) (os : oracle) (fuel : nat) (data : list Z) (size : Z)
         (c : bool) (s : Socket) (w : world) (i : Z) (s' : Socket) (w' : world),
    TARGET_WINDOWS pf = true ->
    sendto pf os fuel data size c s w = Some (i, s', w') ->
    i <= 0 ->
    s' = s
    /\ is_valid pf s' = is_valid pf s
    /\ win_usage_count w' = win_usage_count w - 1
    /\ (forall sd, ~ In (SysClose sd) (calls_since w w'))
    /\ (win_usage_count w = 1 -> In SysWSACleanup (calls_since w w')).
Proof.
  intros pf os fuel data size c s w i s' w' Hw H Hi.
  unfold sendto in H.
  destruct (sendto_loop pf os fuel 0 data size c s w) as [[i0 w0]|] eqn:E;
    [|discriminate].
  injection H as -> -> ->.
  destruct (sendto_loop_effect pf os fuel _ _ _ _ _ _ _ _ Hw E)
    as (evs & Ht & Hc & _ & Hneg).
  destruct (Hneg Hi) as [Hu Hk].
  rewrite (calls_since_app _ _ _ Ht). auto.
Qed.

Lemma sendto_failure_decrements_usage_count_witness :
  let s := open3 windows_build in
  let w := set_usage world0 1 in
  exists w',
    sendto windows_build (always (failed 10051)) 1 [1; 2; 3] 3 false s w
    = Some (-1, s, w')
    /\ is_valid windows_build s = true
    /\ win_usage_count w' = 0
    /\ In SysWSACleanup (calls_since w w').
Proof.
  intros s w.
  pose (w' := osCleanup windows_build (always (failed 10051))
                (errormessage
                   (getLastError windows_build
                      (snd (sys (always (failed 10051))
                              (SysSendto (_sd s) [1; 2; 3] 3 (_sockaddr s)) w)))
                   "Socket::sendto"
                   (snd (sys (always (failed 10051))
                           (SysSendto (_sd s) [1; 2; 3] 3 (_sockaddr s)) w)))).
  assert (E : sendto windows_build (always (failed 10051)) 1 [1; 2; 3] 3 false s w
              = Some (-1, s, w')) by reflexivity.
  exists w'. split; [exact E|].
  destruct (sendto_failure_decrements_usage_count
              windows_build (always (failed 10051)) 1 [1; 2; 3] 3 false s w
              (-1) s w' eq_refl E ltac:(lia))
    as (_ & _ & Hu & _ & Hk).
  split; [reflexivity|]. split; [exact Hu|]. apply Hk. reflexivity.
Defined.

(** The same through the public entry point: one Socket is created on the
    Windows build, its broadcast fails, and the subsystem is torn down
    under the still valid handle. *)
Example broadcast_failure_tears_down_under_open_socket :
  let os := scripted [ok 0; ok 3; ok 4294967295; failed 10051] (ok 0) in
  exists s1 w1 s2 w2,
    create windows_build os (Socket_default windows_build) world0
    = (true, s1, w1)
    /\ win_usage_count w1 = 1
    /\ BroadcastSendTo windows_build os 1 16891 [1; 2; 3] 3 s1 w1
       = Some (-1, s2, w2)
    /\ is_valid windows_build s2 = true
    /\ win_usage_count w2 = 0
    /\ calls_since w1 w2
       = [SysWSACleanup;
          SysSendto 3 [1; 2; 3] 3 (_sockaddr s2);
          SysInetAddr "255.255.255.255"].
Proof.
  intros os. do 4 eexists.
  split; [vm_compute; reflexivity|].
  split; [reflexivity|].
  split; [vm_compute; reflexivity|].
  split; [reflexivity|]. split; reflexivity.
Qed.

(** A successful [create] on a closed Socket followed by [close] leaves the
    handle invalid and the counter where it was. *)
Lemma create_close_restores_usage_count (pf : build) (os : oracle)
  (s : Socket) (w : world) (s1 : Socket) (w1 : world) :
  is_valid pf s = false ->
  create pf os s w = (true, s1, w1) ->
  exists w2, close pf os s1 w1 = (true, set_sd s1 (INVALID_SOCKET pf), w2)
    /\ is_valid pf (set_sd s1 (INVALID_SOCKET pf)) = false
    /\ win_usage_count w2 = win_usage_count w.
Proof.
  intros Hs H. unfold create in H. rewrite Hs in H.
  assert (Hinv : is_valid pf (set_sd s1 (INVALID_SOCKET pf)) = false).
  { unfold is_valid. simpl. now rewrite Z.eqb_refl. }
  unfold osInit, sys in H. simpl in H.
  repeat (case_if_in H; simpl in H; try discriminate);
    injection H as <- <-;
    unfold close, is_valid, osCleanup; simpl;
    match goal with
    | Hsd : (_ =? INVALID_SOCKET pf) = false |- _ => rewrite Hsd
    end; simpl;
    eexists; (split; [reflexivity|]); (split; [exact Hinv|]);
    match goal with
    | Hw : TARGET_WINDOWS pf = _ |- _ => rewrite Hw
    end; simpl; repeat (case_if; simpl); lia.
Qed.

(** C3 (where the code departs from the specification).  On the build
    that starts the socket subsystem, a [create] that fails on a closed
    Socket has nevertheless raised the usage counter by one, and the
    [close] after it does nothing, so the counter stays one above its
    value before the [create]. *)
Theorem failed_create_keeps_usage_count_incremented :
  forall (pf : build) (os : oracle) (s : Socket) (w : world)
         (s1 : Socket) (w1 : world),
    TARGET_WINDOWS pf = true ->
    is_valid pf s = false ->
    create pf os s w = (false, s1, w1) ->
    win_usage_count w1 = win_usage_count w + 1
    /\ is_valid pf s1 = false
    /\ close pf os s1 w1 = (false, s1, w1).
Proof.
  intros pf os s w s1 w1 Hw Hs H.
  unfold create in H. rewrite Hs in H. unfold osInit, sys in H.
  rewrite Hw in H. simpl in H.
  assert (forall s1 w1, is_valid pf s1 = false ->
            close pf os s1 w1 = (false, s1, w1)) as Hclose.
  { intros s2 w2 H2. unfold close. now rewrite H2. }
  repeat (case_if_in H; simpl in H; try discriminate);
    injection H as <- <-; simpl;
    (split; [reflexivity|]);
    match goal with
    | |- ?v = false /\ _ =>
        assert (Hv : v = false);
        [|split; [exact Hv|now apply Hclose]]
    end;
    try assumption.
  unfold is_valid. simpl in *.
  match goal with
  | Hsd : (_ =? INVALID_SOCKET pf) = true |- _ => now rewrite Hsd
  end.
Qed.

Lemma failed_create_keeps_usage_count_incremented_witness :
  let os := scripted [ok 0; ok (2 ^ 64 - 1)] (ok 0) in
  exists s1 w1,
    create windows_build os (Socket_default windows_build) world0
    = (false, s1, w1)
    /\ win_usage_count w1 = 1
    /\ close windows_build os s1 w1 = (false, s1, w1).
Proof.
  intros os.
  destruct (create windows_build os (Socket_default windows_build) world0)
    as [[b s1] w1] eqn:E.
  assert (Eb : b = false) by (vm_compute in E; congruence).
  subst b. exists s1, w1. split; [reflexivity|].
  destruct (failed_create_keeps_usage_count_incremented
              windows_build os (Socket_default windows_build) world0 s1 w1
              eq_refl eq_refl E) as (Hu & _ & Hc).
  split; [exact Hu|exact Hc].
Defined.

(** ** Host names (setHostname) *)

(** C5.  [setHostname] looks at the first character of [host] only.  If it
    is alphabetic, the one call made is the name lookup; a host entry makes
    [sin_addr] the entry's first address, with the family, the port and
    the rest of the object as they were, and gives success; no entry gives
    failure and leaves the whole object, and so the peer address, as it
    was.  Otherwise the one call made is [inet_addr], whose result becomes
    [sin_addr] whatever it is, with the rest as it was, and the function
    succeeds. *)
Theorem setHostname_dispatches_on_first_character :
  forall (pf : build) (os : oracle) (host : string) (s : Socket) (w : world),
    (isalpha (c_str_0 host) = true ->
     calls_since w (snd (setHostname pf os host s w)) = [SysGethostbyname host]
     /\ (forall he,
           r_host (os (w_tick w) (SysGethostbyname host)) = Some he ->
           fst (setHostname pf os host s w)
           = (true,
              {| _sd := _sd s; _family := _family s; _domain := _domain s;
                 _type := _type s; _protocol := _protocol s;
                 _sockaddr :=
                   {| sin_family := sin_family (_sockaddr s);
                      sin_port := sin_port (_sockaddr s);
                      sin_addr := h_addr he |} |}))
     /\ (r_host (os (w_tick w) (SysGethostbyname host)) = None ->
         fst (setHostname pf os host s w) = (false, s)))
    /\ (isalpha (c_str_0 host) = false ->
        calls_since w (snd (setHostname pf os host s w)) = [SysInetAddr host]
        /\ fst (setHostname pf os host s w)
           = (true,
              {| _sd := _sd s; _family := _family s; _domain := _domain s;
                 _type := _type s; _protocol := _protocol s;
                 _sockaddr :=
                   {| sin_family := sin_family (_sockaddr s);
                      sin_port := sin_port (_sockaddr s);
                      sin_addr :=
                        r_status (os (w_tick w) (SysInetAddr host)) |} |})).
Proof.
  intros pf os host s w. unfold setHostname, sys. split; intros Ha; rewrite Ha.
  - split; [|split].
    + destruct (r_host (os (w_tick w) (SysGethostbyname host)));
        apply (calls_since_app _ _
                 [(SysGethostbyname host,
                   os (w_tick w) (SysGethostbyname host))]);
        reflexivity.
    + intros he Hhe. now rewrite Hhe.
    + intros Hnone. now rewrite Hnone.
  - split; [|reflexivity].
    apply (calls_since_app _ _
             [(SysInetAddr host, os (w_tick w) (SysInetAddr host))]).
    reflexivity.
Qed.

Lemma setHostname_dispatches_on_first_character_witness :
  let before := {| _sd := 3; _family := 2; _domain := 2; _type := 1;
                   _protocol := 6;
                   _sockaddr := {| sin_family := 2; sin_port := 41506;
                                   sin_addr := 1 |} |} in
  fst (setHostname posix_build (always (found 16777343)) "backend" before
         world0)
  = (true,
     {| _sd := 3; _family := 2; _domain := 2; _type := 1; _protocol := 6;
        _sockaddr := {| sin_family := 2; sin_port := 41506;
                        sin_addr := 16777343 |} |})
  /\ fst (setHostname posix_build (always (failed 1)) "backend" before world0)
     = (false,
        {| _sd := 3; _family := 2; _domain := 2; _type := 1; _protocol := 6;
           _sockaddr := {| sin_family := 2; sin_port := 41506;
                           sin_addr := 1 |} |})
  /\ fst (setHostname posix_build (always (ok 4294967295)) "300.1.2" before
            world0)
     = (true,
        {| _sd := 3; _family := 2; _domain := 2; _type := 1; _protocol := 6;
           _sockaddr := {| sin_family := 2; sin_port := 41506;
                           sin_addr := 4294967295 |} |}).
Proof.
  intros before.
  destruct (setHostname_dispatches_on_first_character
              posix_build (always (found 16777343)) "backend" before world0)
    as [Hname _].
  destruct (Hname eq_refl) as (_ & Hfound & _).
  destruct (setHostname_dispatches_on_first_character
              posix_build (always (failed 1)) "backend" before world0)
    as [Hname' _].
  destruct (Hname' eq_refl) as (_ & _ & Hnone).
  destruct (setHostname_dispatches_on_first_character
              posix_build (always (ok 4294967295)) "300.1.2" before world0)
    as [_ Hnum].
  destruct (Hnum eq_refl) as (_ & Hraw).
  split; [exact (Hfound _ eq_refl)|].
  split; [exact (Hnone eq_refl)|exact Hraw].
Defined.

(** ** What stores into the peer address *)

Section Frame.

Variable pf : build.
Variable os : oracle.

Ltac frame :=
  intros;
  repeat match goal with
         | H : (_, _) = (_, _) |- _ => injection H as ? ?; subst
         | H : Some _ = Some _ |- _ => injection H as ?; subst
         | H : None = Some _ |- _ => discriminate H
         | H : context [if ?b then _ else _] |- _ => destruct b eqn:?
         | H : context [match ?x with Some _ => _ | None => _ end] |- _ =>
             destruct x eqn:?
         | H : context [let '(_, _) := ?x in _] |- _ => destruct x eqn:?
         end;
  try reflexivity.

Lemma close_frame s w b s' w' :
  close pf os s w = (b, s', w') -> _sockaddr s' = _sockaddr s.
Proof. unfold close, sys. frame. Qed.

Lemma create_frame s w b s' w' :
  create pf os s w = (b, s', w') -> _sockaddr s' = _sockaddr s.
Proof.
  unfold create. intros H.
  destruct (is_valid pf s).
  - destruct (close pf os s w) as [[b0 s0] w0] eqn:E.
    apply close_frame in E. rewrite <- E.
    revert H. unfold osInit, sys. simpl. frame.
  - revert H. unfold osInit, sys. simpl. frame.
Qed.

Lemma reconnect_frame s w b s' w' :
  reconnect pf os s w = (b, s', w') -> _sockaddr s' = _sockaddr s.
Proof.
  unfold reconnect. intros H.
  destruct (negb (_sd s =? INVALID_SOCKET pf)); [now injection H as _ <- _|].
  destruct (create pf os s w) as [[b0 s0] w0] eqn:E.
  apply create_frame in E. rewrite <- E.
  revert H. unfold sys. simpl. frame.
Qed.

Lemma send_frame fuel data len s w st s' w' :
  send pf os fuel data len s w = Some (st, s', w') ->
  _sockaddr s' = _sockaddr s.
Proof.
  unfold send, sys. simpl. intros H.
  destruct (negb (is_valid pf s)); [now injection H as _ <- _|].
  destruct (_ <? 0); [now injection H as _ <- _|].
  destruct (send_loop _ _ _ _ _ _ _) as [[st0 w0]|]; [|discriminate].
  destruct (st0 =? SOCKET_ERROR pf); now injection H as _ <- _.
Qed.

Lemma send_string_loop_frame fuel inner data :
  forall s w st s' w',
    send_string_loop pf os fuel inner data s w = Some (st, s', w') ->
    _sockaddr s' = _sockaddr s.
Proof.
  induction fuel as [|f IH]; intros s w st s' w' H; [discriminate|].
  simpl in H.
  destruct (send pf os inner data _ s w) as [[[st0 s0] w0]|] eqn:E;
    [|discriminate].
  apply send_frame in E. rewrite <- E.
  destruct ((st0 =? SOCKET_ERROR pf) && (w_errno w0 =? EAGAIN pf)).
  - now apply IH in H.
  - now injection H as _ <- _.
Qed.

Lemma sendto_frame fuel data size c s w st s' w' :
  sendto pf os fuel data size c s w = Some (st, s', w') -> s' = s.
Proof.
  unfold sendto.
  destruct (sendto_loop _ _ _ _ _ _ _ _ _) as [[i w0]|]; [|discriminate].
  now intros [= _ <- _].
Qed.

(** The member functions other than [setHostname], [connect], [bind],
    [accept] and the two broadcast functions leave [_sockaddr] alone. *)
Lemma run_frame fuel o s w s' w' :
  writes_sockaddr o = false ->
  run pf os fuel o s w = Some (s', w') ->
  _sockaddr s' = _sockaddr s.
Proof.
  intros Hw H. destruct o; try discriminate Hw; simpl in H.
  - revert H. unfold drop, read_ready, sys. frame.
  - destruct (close pf os s w) as [[b s0] w0] eqn:E. injection H as <- <-.
    now apply close_frame in E.
  - destruct (create pf os s w) as [[b s0] w0] eqn:E. injection H as <- <-.
    now apply create_frame in E.
  - revert H. unfold drop, listen, sys. frame.
  - revert H. unfold accept, sys. simpl. frame.
  - unfold send_string in H.
    destruct (negb (is_valid pf s)); [now injection H as <- _|].
    destruct (send_string_loop _ _ _ _ _ _ _) as [[[st s0] w0]|] eqn:E;
      [|discriminate].
    injection H as <- <-. now apply send_string_loop_frame in E.
  - destruct (send _ _ _ _ _ _ _) as [[[st s0] w0]|] eqn:E; [|discriminate].
    injection H as <- <-. now apply send_frame in E.
  - destruct (sendto _ _ _ _ _ _ _ _) as [[[st s0] w0]|] eqn:E; [|discriminate].
    injection H as <- <-. apply sendto_frame in E. now subst.
  - unfold keep in H.
    destruct (receive_string_min _ _ _ _ _ _ _) as [[st w0]|]; [|discriminate].
    now injection H as <- _.
  - unfold keep in H.
    destruct (receive_string _ _ _ _ _ _) as [[st w0]|]; [|discriminate].
    now injection H as <- _.
  - unfold keep in H.
    destruct (receive _ _ _ _ _ _ _ _) as [[st w0]|]; [|discriminate].
    now injection H as <- _.
  - now injection H as <- _.
  - destruct (reconnect pf os s w) as [[b s0] w0] eqn:E. injection H as <- <-.
    now apply reconnect_frame in E.
  - now injection H as <- _.
  - revert H. unfold drop, SetSocketOption, sys. frame.
  - revert H. unfold drop, set_non_blocking, sys. simpl. frame.
  - unfold Socket_delete in H.
    destruct (close pf os s w) as [[b s0] w0] eqn:E. injection H as <- <-.
    now apply close_frame in E.
Qed.

End Frame.

(** ** Which calls a member function makes *)

Lemma only_calls_refl (P : os_call -> Prop) (w : world) : only_calls P w w.
Proof. exists []. split; [reflexivity|intros c []]. Qed.

Lemma only_calls_trans (P : os_call -> Prop) (w1 w2 w3 : world) :
  only_calls P w1 w2 -> only_calls P w2 w3 -> only_calls P w1 w3.
Proof.
  intros (e1 & H1 & P1) (e2 & H2 & P2). exists (e2 ++ e1). split.
  - now rewrite H2, H1, app_assoc.
  - intros c Hc. rewrite map_app in Hc. apply in_app_or in Hc.
    destruct Hc; auto.
Qed.

Lemma only_calls_same_trace (P : os_call -> Prop) (w1 w2 w3 : world) :
  only_calls P w1 w2 -> w_trace w3 = w_trace w2 -> only_calls P w1 w3.
Proof. intros (e & H & HP) E. exists e. now rewrite E. Qed.

Lemma only_calls_sys (P : os_call -> Prop) (os : oracle) (c : os_call)
  (w : world) :
  P c -> only_calls P w (snd (sys os c w)).
Proof.
  intros HP. exists [(c, os (w_tick w) c)]. split; [reflexivity|].
  intros c' [<-|[]]. exact HP.
Qed.

Lemma only_calls_since (P : os_call -> Prop) (w w' : world) :
  only_calls P w w' -> forall c, In c (calls_since w w') -> P c.
Proof.
  intros (e & H & HP) c Hc. rewrite (calls_since_app _ _ _ H) in Hc. auto.
Qed.

Lemma only_calls_weaken (P Q : os_call -> Prop) (w w' : world) :
  (forall c, P c -> Q c) -> only_calls P w w' -> only_calls Q w w'.
Proof. intros HPQ (e & H & HP). exists e. split; auto. Qed.

Section Lifecycle.

Variable pf : build.
Variable os : oracle.

Local Abbreviation L := (fun c : os_call => lifecycle c = true).

Lemma osCleanup_calls (w : world) : only_calls L w (osCleanup pf os w).
Proof.
  unfold osCleanup. destruct (TARGET_WINDOWS pf); [|apply only_calls_refl].
  destruct (_ =? 0).
  - eapply only_calls_same_trace;
      [apply only_calls_sys with (c := SysWSACleanup) (w := w); reflexivity|].
    reflexivity.
  - eapply only_calls_same_trace; [apply only_calls_refl|reflexivity].
Qed.

Lemma osInit_calls (w : world) : only_calls L w (snd (osInit pf os w)).
Proof.
  unfold osInit. destruct (TARGET_WINDOWS pf); [|apply only_calls_refl].
  eapply only_calls_same_trace;
    [apply only_calls_sys with (c := SysWSAStartup (MAKEWORD 2 2)) (w := w);
     reflexivity|].
  unfold sys. simpl. repeat case_if; reflexivity.
Qed.

Lemma close_calls (s : Socket) (w : world) :
  only_calls L w (snd (close pf os s w)).
Proof.
  unfold close. destruct (is_valid pf s); [|apply only_calls_refl]. simpl.
  eapply only_calls_trans; [|apply osCleanup_calls].
  destruct (negb _); [|apply only_calls_refl].
  now apply only_calls_sys.
Qed.

Lemma create_calls (s : Socket) (w : world) :
  only_calls L w (snd (create pf os s w)).
Proof.
  unfold create.
  assert (Hpre : only_calls L w
            (snd (if is_valid pf s
                  then let '(_, s', w') := close pf os s w in (s', w')
                  else (s, w)))).
  { destruct (is_valid pf s); [|apply only_calls_refl].
    pose proof (close_calls s w) as Hc.
    destruct (close pf os s w) as [[b s0] w0]. exact Hc. }
  destruct (if is_valid pf s
            then let '(_, s', w') := close pf os s w in (s', w')
            else (s, w)) as [s0 w0].
  simpl in Hpre. eapply only_calls_trans; [exact Hpre|].
  pose proof (osInit_calls w0) as Hi.
  destruct (osInit pf os w0) as [b w1]. simpl in Hi.
  eapply only_calls_trans; [exact Hi|].
  destruct (negb b); [apply only_calls_refl|].
  unfold sys. simpl. case_if; simpl;
    (eapply only_calls_same_trace;
     [apply only_calls_sys
        with (c := SysSocket (_family s0) (_type s0) (_protocol s0)) (w := w1);
      reflexivity|reflexivity]).
Qed.

End Lifecycle.

(** ** reconnect *)

(** C6.  On a valid handle [reconnect] returns success at once and changes
    neither the object nor the world.  On an invalid handle it runs
    [create]; if that fails it fails; if that succeeds its one further call
    is the connect, made on the new handle with the address the object held
    on entry, and it fails exactly when that call returns [SOCKET_ERROR].
    No name lookup and no address parsing takes place, and the stored
    address is left as it was. *)
Theorem reconnect_reuses_the_stored_address :
  forall (pf : build) (os : oracle) (s : Socket) (w : world),
    (is_valid pf s = true -> reconnect pf os s w = (true, s, w))
    /\ (is_valid pf s = false ->
        forall okc s1 w1, create pf os s w = (okc, s1, w1) ->
        forall res s' w', reconnect pf os s w = (res, s', w') ->
          _sockaddr s' = _sockaddr s
          /\ s' = s1
          /\ (forall c, In c (calls_since w w') -> resolves c = false)
          /\ (okc = false -> res = false /\ w' = w1)
          /\ (okc = true ->
              exists r,
                events_since w1 w' = [(SysConnect (_sd s1) (_sockaddr s), r)]
                /\ res = negb (r_status r =? SOCKET_ERROR pf))).
Proof.
  intros pf os s w. split.
  - unfold reconnect, is_valid. now intros ->.
  - intros Hs okc s1 w1 Hc res s' w' H.
    pose proof (create_frame _ _ _ _ _ _ _ Hc) as Hf.
    pose proof (create_calls pf os s w) as Hl. rewrite Hc in Hl. simpl in Hl.
    unfold reconnect in H. unfold is_valid in Hs. rewrite Hs, Hc in H.
    destruct okc; simpl in H.
    + set (c := SysConnect (_sd s1) (_sockaddr s1)) in *.
      assert (Ht : w_trace w' = [(c, os (w_tick w1) c)] ++ w_trace w1
                   /\ s' = s1
                   /\ res = negb (r_status (os (w_tick w1) c) =? SOCKET_ERROR pf)).
      { unfold sys in H. simpl in H.
        destruct (r_status (os (w_tick w1) c) =? SOCKET_ERROR pf);
          injection H as <- <- <-; auto. }
      destruct Ht as (Ht & -> & Hr).
      split; [exact Hf|]. split; [reflexivity|]. split.
      { apply only_calls_since.
        eapply only_calls_trans.
        - eapply only_calls_weaken; [|exact Hl].
          intros c0 Hc0. now destruct c0.
        - exists [(c, os (w_tick w1) c)]. split; [exact Ht|].
          intros c0 [<-|[]]. reflexivity. }
      split; [discriminate|]. intros _. exists (os (w_tick w1) c).
      split; [|exact Hr].
      rewrite (events_since_app _ _ _ Ht). unfold c. now rewrite Hf.
    + injection H as <- <- <-.
      split; [exact Hf|]. split; [reflexivity|]. split.
      { apply only_calls_since. eapply only_calls_weaken; [|exact Hl].
        intros c0 Hc0. now destruct c0. }
      split; [auto|discriminate].
Qed.

Lemma reconnect_reuses_the_stored_address_witness :
  let os := scripted [ok 5; ok 0] (ok 0) in
  let peer := {| sin_family := 2; sin_port := htons_le 8866;
                 sin_addr := 16777343 |} in
  let s := set_sockaddr (Socket_default posix_build) peer in
  reconnect posix_build os (open3 posix_build) world0
  = (true, open3 posix_build, world0)
  /\ fst (reconnect posix_build os s world0) = (true, set_sd s 5)
  /\ calls_since world0 (snd (reconnect posix_build os s world0))
     = [SysConnect 5 peer; SysSocket 2 1 6]
  /\ (forall c, In c (calls_since world0 (snd (reconnect posix_build os s world0)))
                -> resolves c = false).
Proof.
  intros os peer s.
  destruct (reconnect_reuses_the_stored_address
              posix_build os (open3 posix_build) world0) as [Hvalid _].
  destruct (reconnect_reuses_the_stored_address posix_build os s world0)
    as [_ Hinvalid].
  destruct (create posix_build os s world0) as [[okc s1] w1] eqn:Ec.
  destruct (reconnect posix_build os s world0) as [[res s'] w'] eqn:Er.
  destruct (Hinvalid eq_refl okc s1 w1 eq_refl res s' w' eq_refl)
    as (_ & _ & Hno & _ & _).
  split; [exact (Hvalid eq_refl)|].
  split; [vm_compute in Er; injection Er as <- <- <-; reflexivity|].
  split; [vm_compute in Er; injection Er as <- <- <-; reflexivity|].
  exact Hno.
Defined.

(** ** The peer address: who writes it *)

(** C7 (as the code has it).  Both constructors zero [_sockaddr].
    Afterwards it is stored into by [setHostname], [connect], [bind],
    [accept] and the two broadcast functions only: every other public
    member function, whatever the system answers, returns with
    [_sockaddr] as it found it. *)
Theorem sockaddr_is_zeroed_and_framed :
  forall (pf : build),
    (forall family domain type protocol,
        _sockaddr (Socket_new pf family domain type protocol) = sockaddr_zero)
    /\ _sockaddr (Socket_default pf) = sockaddr_zero
    /\ (forall (os : oracle) (fuel : nat) (o : op) (s : Socket) (w : world)
               (s' : Socket) (w' : world),
           writes_sockaddr o = false ->
           run pf os fuel o s w = Some (s', w') ->
           _sockaddr s' = _sockaddr s).
Proof.
  intros pf. split; [reflexivity|]. split; [reflexivity|].
  intros os fuel o s w s' w'. apply run_frame.
Qed.

Lemma sockaddr_is_zeroed_and_framed_witness :
  let os := scripted [ok 0; failed 104] (ok 0) in
  exists s' w',
    run posix_build os 3 (OpSend [71; 69; 84] 3) (open3 posix_build) world0
    = Some (s', w')
    /\ is_valid posix_build s' = false
    /\ _sockaddr s' = _sockaddr (open3 posix_build).
Proof.
  intros os.
  destruct (run posix_build os 3 (OpSend [71; 69; 84] 3) (open3 posix_build)
              world0) as [[s' w']|] eqn:E; [|vm_compute in E; discriminate].
  exists s', w'. split; [reflexivity|].
  destruct (sockaddr_is_zeroed_and_framed posix_build) as (_ & _ & Hframe).
  split; [|exact (Hframe os 3%nat (OpSend [71; 69; 84] 3) _ _ _ _ eq_refl E)].
  vm_compute in E. injection E as <- _. reflexivity.
Defined.

(** C7 as the specification states it does not hold: [connect] itself
    stores the family and the port before it asks [setHostname] for the
    address.  Here the name lookup fails, so [setHostname] stores nothing,
    and the peer address is no longer the zeroed one. *)
Lemma connect_stores_family_and_port :
  let s := open3 posix_build in
  let '(res, s', _) :=
    connect posix_build (always (failed 1)) "backend" 8866 s world0 in
  res = false
  /\ _sockaddr s = sockaddr_zero
  /\ _sockaddr s'
     = {| sin_family := 2; sin_port := htons_le 8866; sin_addr := 0 |}
  /\ _sockaddr s' <> _sockaddr s.
Proof.
  vm_compute. repeat split. discriminate.
Qed.

(** [accept] too: the system stores the peer's address through the pointer
    to [_sockaddr] it is given. *)
Example accept_stores_the_peer_address :
  let peer := {| sin_family := 2; sin_port := 4660; sin_addr := 16777343 |} in
  let r := {| r_status := 7; r_errno := 0; r_wsaerr := 0; r_bytes := [];
              r_addr := Some peer; r_host := None; r_version := 0 |} in
  let '(res, n, s', _) :=
    accept posix_build (always r) (Socket_default posix_build)
      (open3 posix_build) world0 in
  res = true /\ _sd n = 7 /\ _sockaddr s' = peer.
Proof. vm_compute. auto. Qed.

(** ** send *)

Section Send.

Variable pf : build.
Variable os : oracle.
Variables (sd : Z) (data : list Z) (len : Z).

Local Abbreviation c := (SysSend sd data len).

(** [n] writes answered "would block", then one answered otherwise: the
    loop makes exactly these [n + 1] calls and hands back the last status. *)
Lemma send_loop_ends (n : nat) :
  forall (fuel : nat) (w : world),
    (n < fuel)%nat ->
    (forall j, (j < n)%nat ->
               send_would_block pf (os (w_tick w + j)%nat c) = true) ->
    send_would_block pf (os (w_tick w + n)%nat c) = false ->
    exists w',
      send_loop pf os fuel sd data len w
      = Some (r_status (os (w_tick w + n)%nat c), w')
      /\ (exists evs, w_trace w' = evs ++ w_trace w
                      /\ map fst evs = repeat c (S n))
      /\ w_errno w' = r_errno (os (w_tick w + n)%nat c)
      /\ win_usage_count w' = win_usage_count w
      /\ w_slept w' = w_slept w.
Proof.
  induction n as [|n IH]; intros fuel w Hf Hblock Hlast.
  - destruct fuel as [|f]; [lia|]. simpl.
    rewrite Nat.add_0_r in *. unfold send_would_block in Hlast.
    rewrite Hlast. eexists. split; [reflexivity|]. simpl.
    split; [|auto].
    exists [(c, os (w_tick w) c)]. auto.
  - destruct fuel as [|f]; [lia|]. simpl.
    pose proof (Hblock 0%nat ltac:(lia)) as H0.
    rewrite Nat.add_0_r in H0. unfold send_would_block in H0. rewrite H0.
    set (w1 := {| w_tick := S (w_tick w) |}).
    destruct (IH f w1) as (w' & Hr & (evs & Ht & Hm) & He & Hu & Hs).
    + lia.
    + intros j Hj. simpl.
      replace (S (w_tick w + j)) with (w_tick w + S j)%nat by lia.
      apply Hblock. lia.
    + simpl. now replace (S (w_tick w + n)) with (w_tick w + S n)%nat by lia.
    + simpl in Hr, He.
      replace (S (w_tick w + n)) with (w_tick w + S n)%nat in Hr, He by lia.
      exists w'. split; [exact Hr|]. split; [|auto].
      exists (evs ++ [(c, os (w_tick w) c)]). split.
      * rewrite Ht. simpl. now rewrite <- app_assoc.
      * rewrite map_app, Hm. simpl.
        change (c :: repeat c n ++ [c]) with (repeat c (S n) ++ [c]).
        now rewrite <- repeat_cons.
Qed.

(** While every write is answered "would block" the loop does not end. *)
Lemma send_loop_blocked (fuel : nat) :
  (forall k, send_would_block pf (os k c) = true) ->
  forall w, send_loop pf os fuel sd data len w = None.
Proof.
  intros Hblock. induction fuel as [|f IH]; intros w; [reflexivity|].
  simpl. pose proof (Hblock (w_tick w)) as H0.
  unfold send_would_block in H0. rewrite H0. apply IH.
Qed.

End Send.

(** [send] on a valid handle whose poll did not fail, when [n] writes are
    answered "would block" and the next fails otherwise. *)
Lemma send_fails_after_blocks (pf : build) (os : oracle) (data : list Z)
  (len : Z) (s : Socket) (w : world) (n fuel : nat) :
  is_valid pf s = true ->
  0 <= r_status (os (w_tick w)
                    (SysSelect (FD_SETSIZE pf) [_sd s] [] [_sd s] 0 0)) ->
  (forall j, (j < n)%nat ->
     send_would_block pf
       (os (S (w_tick w) + j)%nat (SysSend (_sd s) data len)) = true) ->
  r_status (os (S (w_tick w) + n)%nat (SysSend (_sd s) data len))
  = SOCKET_ERROR pf ->
  r_errno (os (S (w_tick w) + n)%nat (SysSend (_sd s) data len))
  <> EAGAIN pf ->
  (n < fuel)%nat ->
  exists w',
    send pf os fuel data len s w
    = Some (SOCKET_ERROR pf, set_sd s (INVALID_SOCKET pf), w')
    /\ calls_since w w'
       = repeat (SysSend (_sd s) data len) (S n)
         ++ [SysSelect (FD_SETSIZE pf) [_sd s] [] [_sd s] 0 0]
    /\ win_usage_count w' = win_usage_count w
    /\ w_errno w'
       = r_errno (os (S (w_tick w) + n)%nat (SysSend (_sd s) data len)).
Proof.
  intros Hv Hsel Hblock Hst Herr Hf.
  set (sel := SysSelect (FD_SETSIZE pf) [_sd s] [] [_sd s] 0 0) in *.
  assert (Hpoll : (r_status (os (w_tick w) sel) <? 0) = false)
    by (apply Z.ltb_ge; exact Hsel).
  unfold send. rewrite Hv. simpl. fold sel. rewrite Hpoll.
  set (w1 := {| w_tick := S (w_tick w) |}).
  destruct (send_loop_ends pf os (_sd s) data len n fuel w1 Hf)
    as (w2 & Hr & (evs & Ht & Hm) & He & Hu & Hs).
  - exact Hblock.
  - change (w_tick w1) with (S (w_tick w)).
    unfold send_would_block. rewrite Hst, Z.eqb_refl. simpl.
    now apply Z.eqb_neq.
  - change (w_tick w1) with (S (w_tick w)) in Hr, He.
    rewrite Hr, Hst, Z.eqb_refl.
    eexists. split; [reflexivity|]. split; [|split; [exact Hu|exact He]].
    rewrite (calls_since_app _ _ (evs ++ [(sel, os (w_tick w) sel)])).
    + now rewrite map_app, Hm.
    + simpl. rewrite Ht. simpl. now rewrite <- app_assoc.
Qed.

(** [send] as it tests the transient condition, through [errno]: on a
    valid handle whose readiness poll did not fail, if the
    system answers [n] writes with "would block" and the next with
    [SOCKET_ERROR] and another code, then [send] (given fuel for [n + 1]
    writes) returns that status, [SOCKET_ERROR], with the handle set to
    [INVALID_SOCKET]; it has made the poll and the [n + 1] writes and no
    call that releases anything, and the usage counter is untouched.  If
    the system answers every write with "would block", [send] does not
    return, whatever the fuel. *)
Theorem send_poisons_the_handle_and_retries_while_blocked :
  forall (pf : build) (os : oracle) (data : list Z) (len : Z)
         (s : Socket) (w : world),
    is_valid pf s = true ->
    0 <= r_status (os (w_tick w)
                      (SysSelect (FD_SETSIZE pf) [_sd s] [] [_sd s] 0 0)) ->
    (forall n : nat,
        (forall j, (j < n)%nat ->
           send_would_block pf
             (os (S (w_tick w) + j)%nat (SysSend (_sd s) data len)) = true) ->
        r_status (os (S (w_tick w) + n)%nat (SysSend (_sd s) data len))
        = SOCKET_ERROR pf ->
        r_errno (os (S (w_tick w) + n)%nat (SysSend (_sd s) data len))
        <> EAGAIN pf ->
        forall fuel, (n < fuel)%nat ->
        exists w',
          send pf os fuel data len s w
          = Some (SOCKET_ERROR pf, set_sd s (INVALID_SOCKET pf), w')
          /\ is_valid pf (set_sd s (INVALID_SOCKET pf)) = false
          /\ calls_since w w'
             = repeat (SysSend (_sd s) data len) (S n)
               ++ [SysSelect (FD_SETSIZE pf) [_sd s] [] [_sd s] 0 0]
          /\ (forall c, In c (calls_since w w') -> releases c = false)
          /\ win_usage_count w' = win_usage_count w)
    /\ ((forall k, send_would_block pf (os k (SysSend (_sd s) data len)) = true) ->
        forall fuel, send pf os fuel data len s w = None).
Proof.
  intros pf os data len s w Hv Hsel. split.
  - intros n Hblock Hst Herr fuel Hf.
    destruct (send_fails_after_blocks pf os data len s w n fuel
                Hv Hsel Hblock Hst Herr Hf) as (w' & Hs & Hc & Hu & _).
    exists w'. split; [exact Hs|].
    split; [unfold is_valid; simpl; now rewrite Z.eqb_refl|].
    split; [exact Hc|]. split; [|exact Hu].
    intros c Hin. rewrite Hc in Hin. apply in_app_or in Hin.
    destruct Hin as [Hin|[<-|[]]]; [|reflexivity].
    apply repeat_spec in Hin. now subst.
  - intros Hblock fuel. unfold send. rewrite Hv. simpl.
    replace (r_status _ <? 0) with false by (symmetry; now apply Z.ltb_ge).
    now rewrite (send_loop_blocked pf os (_sd s) data len fuel Hblock).
Qed.

(** The overload that takes a string passes that failure on: its own loop
    sees a status that is [SOCKET_ERROR] with [errno] not "would block",
    and stops after the one call of [send]. *)
Lemma send_string_fails_after_blocks (pf : build) (os : oracle)
  (data : list Z) (s : Socket) (w : world) (n inner fuel : nat) :
  let len := to_uint (Z.of_nat (length data)) in
  is_valid pf s = true ->
  0 <= r_status (os (w_tick w)
                    (SysSelect (FD_SETSIZE pf) [_sd s] [] [_sd s] 0 0)) ->
  (forall j, (j < n)%nat ->
     send_would_block pf
       (os (S (w_tick w) + j)%nat (SysSend (_sd s) data len)) = true) ->
  r_status (os (S (w_tick w) + n)%nat (SysSend (_sd s) data len))
  = SOCKET_ERROR pf ->
  r_errno (os (S (w_tick w) + n)%nat (SysSend (_sd s) data len))
  <> EAGAIN pf ->
  (n < inner)%nat ->
  exists w',
    send_string pf os (S fuel) inner data s w
    = Some (SOCKET_ERROR pf, set_sd s (INVALID_SOCKET pf), w')
    /\ win_usage_count w' = win_usage_count w.
Proof.
  intros len Hv Hsel Hblock Hst Herr Hf.
  destruct (send_fails_after_blocks pf os data len s w n inner
              Hv Hsel Hblock Hst Herr Hf) as (w' & Hs & _ & Hu & He).
  exists w'. split; [|exact Hu].
  unfold send_string. rewrite Hv. simpl. fold len. rewrite Hs, Z.eqb_refl.
  rewrite He. apply Z.eqb_neq in Herr. rewrite Herr. reflexivity.
Qed.

Lemma send_poisons_the_handle_and_retries_while_blocked_witness :
  let s := open3 posix_build in
  let os1 := ready_then (scripted [ok 0; failed 11; failed 11; failed 104] (ok 0)) in
  let os2 := ready_then (always (failed 11)) in
  (exists w',
      send posix_build os1 3 [71; 69; 84] 3 s world0
      = Some (-1, set_sd s (-1), w')
      /\ calls_since world0 w'
         = [SysSend 3 [71; 69; 84] 3; SysSend 3 [71; 69; 84] 3;
            SysSend 3 [71; 69; 84] 3; SysSelect 1024 [3] [] [3] 0 0]
      /\ win_usage_count w' = 0)
  /\ (forall fuel, send posix_build os2 fuel [71; 69; 84] 3 s world0 = None).
Proof.
  intros s os1 os2. split.
  - destruct (send_poisons_the_handle_and_retries_while_blocked
                posix_build os1 [71; 69; 84] 3 s world0 eq_refl)
      as [Herr _]; [vm_compute; discriminate|].
    destruct (Herr 2%nat) with (fuel := 3%nat)
      as (w' & Hs & _ & Hc & _ & Hu).
    + intros [|[|j]] Hj; [reflexivity|reflexivity|lia].
    + reflexivity.
    + vm_compute. discriminate.
    + lia.
    + exists w'. split; [exact Hs|]. split; [exact Hc|exact Hu].
  - destruct (send_poisons_the_handle_and_retries_while_blocked
                posix_build os2 [71; 69; 84] 3 s world0 eq_refl)
      as [_ Hblock]; [vm_compute; discriminate|].
    apply Hblock. intros k. reflexivity.
Defined.

(** ** receive: the loop, turn by turn *)

Lemma to_uint_small (x : Z) : 0 <= x < 2 ^ 32 -> to_uint x = x.
Proof. intros H. unfold to_uint. now apply Z.mod_small. Qed.

Lemma to_int_small (x : Z) : 0 <= x < 2 ^ 31 -> to_int x = x.
Proof. intros H. unfold to_int. rewrite Z.mod_small; lia. Qed.

Lemma to_int_large (x : Z) : 2 ^ 31 <= x < 2 ^ 32 -> to_int x = x - 2 ^ 32.
Proof.
  intros H. unfold to_int.
  replace (x + 2 ^ 31) with (x - 2 ^ 31 + 1 * 2 ^ 32) by lia.
  rewrite Z.mod_add by lia. rewrite Z.mod_small; lia.
Qed.

Section Receive.

Variable pf : build.
Variable os : oracle.
Variables (sd buffersize minpacketsize : Z).

Local Abbreviation turn_of := (receive_turn pf os sd buffersize minpacketsize).
Local Abbreviation after := (receive_after pf os sd buffersize minpacketsize).
Local Abbreviation loop := (receive_loop pf os sd buffersize minpacketsize).

Lemma getLastError_sys (c : os_call) (w : world) :
  getLastError pf (snd (sys os c w)) = last_error pf (os (w_tick w) c).
Proof. unfold getLastError, last_error. now destruct (TARGET_WINDOWS pf). Qed.

Lemma turn_exit rs d w :
  (rs <=? minpacketsize) && (rs <? buffersize) = false ->
  turn_of rs d w = Return (to_int rs) d w.
Proof. intros H. unfold receive_turn. now rewrite H. Qed.

Lemma turn_blocked rs d w :
  (rs <=? minpacketsize) && (rs <? buffersize) = true ->
  would_block pf (os (w_tick w) (recv_at sd buffersize rs)) = true ->
  turn_of rs d w
  = Again rs d (sleep_for 50 (log (LogError "Socket::read EAGAIN")
                                  (snd (sys os (recv_at sd buffersize rs) w)))).
Proof.
  intros Ht Hb. unfold receive_turn. rewrite Ht.
  apply andb_prop in Hb. destruct Hb as [Hs He].
  pose proof (getLastError_sys (recv_at sd buffersize rs) w) as Hg.
  unfold sys, recv_at in *. simpl in *. rewrite Hs, Hg, He. reflexivity.
Qed.

Lemma turn_error rs d w :
  (rs <=? minpacketsize) && (rs <? buffersize) = true ->
  r_status (os (w_tick w) (recv_at sd buffersize rs)) = SOCKET_ERROR pf ->
  last_error pf (os (w_tick w) (recv_at sd buffersize rs)) <> EAGAIN pf ->
  turn_of rs d w
  = Return (SOCKET_ERROR pf) d
      (errormessage (last_error pf (os (w_tick w) (recv_at sd buffersize rs)))
         "Socket::receive" (snd (sys os (recv_at sd buffersize rs) w))).
Proof.
  intros Ht Hs He. unfold receive_turn. rewrite Ht.
  pose proof (getLastError_sys (recv_at sd buffersize rs) w) as Hg.
  apply Z.eqb_neq in He.
  unfold sys, recv_at in *. simpl in *.
  rewrite Hs, Z.eqb_refl, Hg, He. reflexivity.
Qed.

Lemma turn_data rs d w :
  (rs <=? minpacketsize) && (rs <? buffersize) = true ->
  r_status (os (w_tick w) (recv_at sd buffersize rs)) <> SOCKET_ERROR pf ->
  let r := os (w_tick w) (recv_at sd buffersize rs) in
  let rs1 := to_uint (rs + r_status r) in
  turn_of rs d w
  = if minpacketsize <=? rs1
    then Return (to_int rs1) (write_at d rs (r_bytes r))
                (snd (sys os (recv_at sd buffersize rs) w))
    else Again rs1 (write_at d rs (r_bytes r)) (snd (sys os (recv_at sd buffersize rs) w)).
Proof.
  intros Ht Hs. unfold receive_turn. rewrite Ht.
  apply Z.eqb_neq in Hs.
  unfold sys, recv_at in *. simpl in *. rewrite Hs. reflexivity.
Qed.

(** The loop with fuel and the loop turn by turn agree. *)
Lemma loop_returns_when_after_returns (n : nat) :
  forall rs d w st d' w',
    after n rs d w = Return st d' w' ->
    forall fuel, (n <= fuel)%nat -> loop fuel rs d w = Some (st, d', w').
Proof.
  induction n as [|n IH]; intros rs d w st d' w' H fuel Hf; [discriminate|].
  destruct fuel as [|f]; [lia|]. simpl in *.
  destruct (turn_of rs d w) as [rs1 d1 w1|st1 d1 w1].
  - apply (IH _ _ _ _ _ _ H). lia.
  - now injection H as -> -> ->.
Qed.

Lemma loop_starves_while_after_runs (n : nat) :
  forall rs d w rs' d' w',
    after n rs d w = Again rs' d' w' -> loop n rs d w = None.
Proof.
  induction n as [|n IH]; intros rs d w rs' d' w' H; [reflexivity|].
  simpl in *.
  destruct (turn_of rs d w) as [rs1 d1 w1|st1 d1 w1]; [|discriminate].
  now apply IH in H.
Qed.

Lemma after_unfold (n : nat) rs d w :
  after (S n) rs d w
  = match turn_of rs d w with
    | Return a b c => Return a b c
    | Again a b c => after n a b c
    end.
Proof. reflexivity. Qed.

Lemma after_then_turn (n : nat) :
  forall rs d w rs' d' w',
    after n rs d w = Again rs' d' w' ->
    after (S n) rs d w
    = match turn_of rs' d' w' with
      | Again a b c => Again a b c
      | Return a b c => Return a b c
      end.
Proof.
  induction n as [|n IH]; intros rs d w rs' d' w' H.
  - injection H as -> -> ->. simpl. now destruct (turn_of rs' d' w').
  - rewrite (after_unfold (S n)). rewrite after_unfold in H.
    destruct (turn_of rs d w) as [rs1 d1 w1|st1 d1 w1]; [|discriminate].
    now apply IH.
Qed.

(** [n] reads answered "would block": [n] turns, [n] naps of 50 ms, and
    the loop variables are where they were. *)
Lemma after_blocked (n : nat) :
  forall rs d w,
    (rs <=? minpacketsize) && (rs <? buffersize) = true ->
    (forall j, (j < n)%nat ->
               would_block pf (os (w_tick w + j)%nat (recv_at sd buffersize rs)) = true) ->
    exists w',
      after n rs d w = Again rs d w'
      /\ w_tick w' = (w_tick w + n)%nat
      /\ w_slept w' = w_slept w + 50 * Z.of_nat n
      /\ win_usage_count w' = win_usage_count w
      /\ exists evs, w_trace w' = evs ++ w_trace w
                     /\ map fst evs = repeat (recv_at sd buffersize rs) n.
Proof.
  induction n as [|n IH]; intros rs d w Ht Hb.
  - exists w. simpl. rewrite Nat.add_0_r, Z.add_0_r.
    repeat split; try reflexivity. now exists [].
  - pose proof (Hb 0%nat ltac:(lia)) as H0. rewrite Nat.add_0_r in H0.
    simpl. rewrite (turn_blocked rs d w Ht H0).
    set (w1 := sleep_for 50 _).
    destruct (IH rs d w1 Ht) as (w' & Ha & Hk & Hs & Hu & evs & He & Hm).
    + intros j Hj. change (w_tick w1) with (S (w_tick w)). simpl.
      replace (S (w_tick w + j)) with (w_tick w + S j)%nat by lia.
      apply Hb. lia.
    + exists w'. split; [exact Ha|].
      change (w_tick w1) with (S (w_tick w)) in Hk.
      change (w_slept w1) with (w_slept w + 50) in Hs.
      change (win_usage_count w1) with (win_usage_count w) in Hu.
      split; [lia|]. split; [lia|]. split; [exact Hu|].
      exists (evs ++ [(recv_at sd buffersize rs, os (w_tick w) (recv_at sd buffersize rs))]). split.
      * rewrite He. simpl. now rewrite <- app_assoc.
      * rewrite map_app, Hm. simpl. symmetry. apply repeat_cons.
Qed.

End Receive.

Lemma recv_at_start (sd buffersize : Z) :
  0 <= buffersize < 2 ^ 32 -> recv_at sd buffersize 0 = SysRecv sd buffersize.
Proof.
  intros H. unfold recv_at. now rewrite Z.sub_0_r, to_uint_small.
Qed.

(** The loop with [minpacketsize = 0]: [n] reads answered "would block",
    then one that is not a failure, and the loop is over. *)
Lemma loop_ends_at_first_read (pf : build) (os : oracle) (sd buffersize : Z)
  (data : list Z) (w : world) (n : nat) :
  0 < buffersize < 2 ^ 32 ->
  (forall j, (j < n)%nat ->
     would_block pf (os (w_tick w + j)%nat (SysRecv sd buffersize)) = true) ->
  r_status (os (w_tick w + n)%nat (SysRecv sd buffersize)) <> SOCKET_ERROR pf ->
  0 <= r_status (os (w_tick w + n)%nat (SysRecv sd buffersize)) < 2 ^ 31 ->
  forall fuel, (n < fuel)%nat ->
  exists w',
    receive_loop pf os sd buffersize 0 fuel 0 data w
    = Some (r_status (os (w_tick w + n)%nat (SysRecv sd buffersize)),
            write_at data 0
              (r_bytes (os (w_tick w + n)%nat (SysRecv sd buffersize))),
            w')
    /\ calls_since w w' = repeat (SysRecv sd buffersize) (S n)
    /\ w_slept w' = w_slept w + 50 * Z.of_nat n.
Proof.
  intros Hb Hblock.
  set (r := os (w_tick w + n)%nat (SysRecv sd buffersize)).
  intros Hst Hrange fuel Hf.
  assert (Ht : (0 <=? 0) && (0 <? buffersize) = true).
  { simpl. apply Z.ltb_lt. lia. }
  pose proof (recv_at_start sd buffersize ltac:(lia)) as Hc.
  destruct (after_blocked pf os sd buffersize 0 n 0 data w Ht)
    as (wn & Ha & Hk & Hs & _ & evs & He & Hm).
  { intros j Hj. rewrite Hc. now apply Hblock. }
  pose proof (after_then_turn pf os sd buffersize 0 n _ _ _ _ _ _ Ha)
    as Hlast.
  rewrite turn_data in Hlast;
    [|exact Ht|rewrite Hc, Hk; exact Hst].
  cbv zeta in Hlast. rewrite Hc, Hk in Hlast. fold r in Hlast.
  rewrite Z.add_0_l, to_uint_small in Hlast by lia.
  replace (0 <=? r_status r) with true in Hlast
    by (symmetry; apply Z.leb_le; lia).
  rewrite to_int_small in Hlast by lia.
  eexists. split.
  - apply (loop_returns_when_after_returns _ _ _ _ _ _ _ _ _ _ _ _ Hlast).
    lia.
  - split; [|exact Hs].
    rewrite (calls_since_app _ _ ((SysRecv sd buffersize, r) :: evs)).
    + simpl. rewrite Hm, Hc. reflexivity.
    + unfold sys. simpl. rewrite He, Hk. reflexivity.
Qed.

(** C8.  [receive] with [minpacketsize = 0] on a valid handle.  With an
    empty buffer it returns 0 without a read.  Otherwise, when the system
    answers [n] reads with "would block" and the next with a status that is
    not [SOCKET_ERROR] (a byte count, possibly 0), [receive] returns that
    count with the bytes of that read stored at the start of the buffer,
    after exactly these [n + 1] reads (and [n] naps of 50 ms): it does not
    go on reading to fill the buffer. *)
Theorem receive_without_minimum_returns_after_first_read :
  forall (pf : build) (os : oracle) (data : list Z) (buffersize : Z)
         (s : Socket) (w : world),
    is_valid pf s = true ->
    0 <= buffersize < 2 ^ 32 ->
    (buffersize = 0 ->
     forall fuel, receive pf os (S fuel) data buffersize 0 s w
                  = Some (0, data, w))
    /\ (0 < buffersize ->
        forall n : nat,
          (forall j, (j < n)%nat ->
             would_block pf
               (os (w_tick w + j)%nat (SysRecv (_sd s) buffersize)) = true) ->
          let r := os (w_tick w + n)%nat (SysRecv (_sd s) buffersize) in
          r_status r <> SOCKET_ERROR pf ->
          0 <= r_status r < 2 ^ 31 ->
          forall fuel, (n < fuel)%nat ->
          exists w',
            receive pf os fuel data buffersize 0 s w
            = Some (r_status r, write_at data 0 (r_bytes r), w')
            /\ calls_since w w' = repeat (SysRecv (_sd s) buffersize) (S n)
            /\ w_slept w' = w_slept w + 50 * Z.of_nat n).
Proof.
  intros pf os data buffersize s w Hv Hb. unfold receive. rewrite Hv.
  change (negb true) with false. cbv iota.
  split.
  - intros -> fuel. reflexivity.
  - intros Hpos n Hblock Hst Hrange fuel Hf.
    apply loop_ends_at_first_read; (lia || assumption).
Qed.

(** The same for the overload that fills a string: the first read that is
    not a failure ends it, and the string is what that read stored, up to
    its first zero byte. *)
Lemma receive_string_returns_after_first_read (pf : build) (os : oracle)
  (old : list Z) (s : Socket) (w : world) (n : nat) :
  is_valid pf s = true ->
  0 < MAXRECV pf < 2 ^ 32 ->
  (forall j, (j < n)%nat ->
     would_block pf (os (w_tick w + j)%nat (SysRecv (_sd s) (MAXRECV pf)))
     = true) ->
  r_status (os (w_tick w + n)%nat (SysRecv (_sd s) (MAXRECV pf)))
  <> SOCKET_ERROR pf ->
  0 <= r_status (os (w_tick w + n)%nat (SysRecv (_sd s) (MAXRECV pf)))
  < 2 ^ 31 ->
  forall fuel, (n < fuel)%nat ->
  exists w',
    receive_string pf os fuel old s w
    = Some (r_status (os (w_tick w + n)%nat (SysRecv (_sd s) (MAXRECV pf))),
            c_string
              (write_at (zeros (MAXRECV pf + 1)) 0
                 (r_bytes (os (w_tick w + n)%nat
                             (SysRecv (_sd s) (MAXRECV pf))))),
            w')
    /\ calls_since w w' = repeat (SysRecv (_sd s) (MAXRECV pf)) (S n).
Proof.
  intros Hv Hb Hblock Hst Hrange fuel Hf.
  destruct (loop_ends_at_first_read pf os (_sd s) (MAXRECV pf)
              (zeros (MAXRECV pf + 1)) w n Hb Hblock Hst Hrange fuel Hf)
    as (w' & Hl & Hc & _).
  exists w'. split; [|exact Hc].
  unfold receive_string, receive. rewrite Hv.
  change (negb true) with false. cbv iota. now rewrite Hl.
Qed.

Lemma receive_without_minimum_returns_after_first_read_witness :
  let os := scripted [failed 11; failed 11; delivers [1; 2; 3; 4; 5]] (ok 0) in
  let s := open3 posix_build in
  receive posix_build os 1 [] 0 0 s world0 = Some (0, [], world0)
  /\ (exists w',
         receive posix_build os 3 (zeros 8) 8 0 s world0
         = Some (5, [1; 2; 3; 4; 5; 0; 0; 0], w')
         /\ calls_since world0 w' = [SysRecv 3 8; SysRecv 3 8; SysRecv 3 8]
         /\ w_slept w' = 100)
  /\ (exists w',
         receive posix_build (always (delivers [])) 1 (zeros 8) 8 0 s world0
         = Some (0, zeros 8, w')).
Proof.
  intros os s.
  destruct (receive_without_minimum_returns_after_first_read
              posix_build os [] 0 s world0 eq_refl ltac:(lia)) as [Hempty _].
  destruct (receive_without_minimum_returns_after_first_read
              posix_build os (zeros 8) 8 s world0 eq_refl ltac:(lia))
    as [_ Hread].
  destruct (receive_without_minimum_returns_after_first_read
              posix_build (always (delivers [])) (zeros 8) 8 s world0
              eq_refl ltac:(lia)) as [_ Hzero].
  split; [exact (Hempty eq_refl 0%nat)|]. split.
  - destruct (Hread ltac:(lia) 2%nat) with (fuel := 3%nat)
      as (w' & Hr & Hc & Hs).
    + intros [|[|j]] Hj; [reflexivity|reflexivity|lia].
    + vm_compute. discriminate.
    + vm_compute. split; [discriminate|reflexivity].
    + lia.
    + exists w'. split; [exact Hr|]. split; [exact Hc|exact Hs].
  - destruct (Hzero ltac:(lia) 0%nat) with (fuel := 1%nat)
      as (w' & Hr & _).
    + intros j Hj. lia.
    + vm_compute. discriminate.
    + vm_compute. split; [discriminate|reflexivity].
    + lia.
    + exists w'. exact Hr.
Defined.

(** ** receive: the capacity bound *)

Section Capacity.

Variable pf : build.
Variable os : oracle.
Variables (sd buffersize minpacketsize : Z).

Hypothesis buffersize_fits : 0 <= buffersize < 2 ^ 32.

(** What the system promises of a read: failure, or at most [len] bytes. *)
Hypothesis recv_contract :
  forall k sd' len,
    0 <= len ->
    r_status (os k (SysRecv sd' len)) = SOCKET_ERROR pf
    \/ 0 <= r_status (os k (SysRecv sd' len)) <= len.

Local Abbreviation bounded :=
  (within_capacity pf buffersize minpacketsize).

Lemma turn_within_capacity rs d w :
  0 <= rs <= buffersize ->
  bounded (receive_turn pf os sd buffersize minpacketsize rs d w).
Proof.
  intros Hrs. unfold receive_turn.
  destruct ((rs <=? minpacketsize) && (rs <? buffersize)) eqn:Ht.
  - apply andb_prop in Ht. destruct Ht as [H1 H2].
    apply Z.leb_le in H1. apply Z.ltb_lt in H2.
    unfold sys. cbv zeta.
    rewrite (to_uint_small (buffersize - rs)) by lia.
    set (r := os (w_tick w) (SysRecv sd (buffersize - rs))).
    destruct (r_status r =? SOCKET_ERROR pf) eqn:Hs.
    + apply Z.eqb_eq in Hs. destruct (negb _); simpl; [now left|lia].
    + apply Z.eqb_neq in Hs.
      destruct (recv_contract (w_tick w) sd (buffersize - rs) ltac:(lia))
        as [Hc|Hc]; fold r in Hc; [contradiction|].
      rewrite (to_uint_small (rs + r_status r)) by lia.
      destruct (minpacketsize <=? rs + r_status r) eqn:Hm; simpl; [|lia].
      apply Z.leb_le in Hm. right. exists (rs + r_status r).
      split; [reflexivity|]. split; lia.
  - simpl. right. exists rs. split; [reflexivity|]. split; [lia|].
    intros Hle. apply andb_false_iff in Ht. destruct Ht as [Ht|Ht].
    + apply Z.leb_gt in Ht. lia.
    + apply Z.ltb_ge in Ht. lia.
Qed.

Lemma after_within_capacity (n : nat) :
  forall rs d w,
    0 <= rs <= buffersize ->
    bounded (receive_after pf os sd buffersize minpacketsize n rs d w).
Proof.
  induction n as [|n IH]; intros rs d w Hrs; [exact Hrs|].
  rewrite after_unfold.
  pose proof (turn_within_capacity rs d w Hrs) as Ht.
  destruct (receive_turn pf os sd buffersize minpacketsize rs d w)
    as [rs1 d1 w1|st d1 w1]; [now apply IH|exact Ht].
Qed.

Lemma loop_is_after (fuel : nat) :
  forall rs d w st d' w',
    receive_loop pf os sd buffersize minpacketsize fuel rs d w
    = Some (st, d', w') ->
    receive_after pf os sd buffersize minpacketsize fuel rs d w
    = Return st d' w'.
Proof.
  induction fuel as [|f IH]; intros rs d w st d' w' H; [discriminate|].
  simpl in *.
  destruct (receive_turn pf os sd buffersize minpacketsize rs d w)
    as [rs1 d1 w1|st1 d1 w1]; [now apply IH|].
  now injection H as -> -> ->.
Qed.

End Capacity.

(** C1.  Let the system keep the promise of a read (failure, or at most
    the [len >= 0] bytes asked for).  Then in [receive (data, buffersize,
    minpacketsize)] the count of bytes accumulated is at most [buffersize]
    after every number of turns of the loop; a return value that is not
    negative is at most [buffersize]; and when
    [minpacketsize >= buffersize], a loop that has accumulated
    [buffersize] bytes returns at its next test without another read, and
    [receive] returns nothing but [SOCKET_ERROR] or the full [buffersize]. *)
Theorem receive_never_accumulates_beyond_capacity :
  forall (pf : build) (os : oracle) (data : list Z)
         (buffersize minpacketsize : Z) (s : Socket) (w : world),
    SOCKET_ERROR pf < 0 ->
    0 <= buffersize < 2 ^ 32 ->
    (forall k sd len,
        0 <= len ->
        r_status (os k (SysRecv sd len)) = SOCKET_ERROR pf
        \/ 0 <= r_status (os k (SysRecv sd len)) <= len) ->
    (forall n rs d w',
        receive_after pf os (_sd s) buffersize minpacketsize n 0 data w
        = Again rs d w' ->
        0 <= rs <= buffersize)
    /\ (forall fuel st d w',
           receive pf os fuel data buffersize minpacketsize s w
           = Some (st, d, w') ->
           0 <= st -> st <= buffersize)
    /\ (buffersize <= minpacketsize ->
        (forall d w',
            receive_turn pf os (_sd s) buffersize minpacketsize buffersize d w'
            = Return (to_int buffersize) d w')
        /\ (forall fuel st d w',
               is_valid pf s = true ->
               receive pf os fuel data buffersize minpacketsize s w
               = Some (st, d, w') ->
               st = SOCKET_ERROR pf \/ st = to_int buffersize)).
Proof.
  intros pf os data buffersize minpacketsize s w Hse Hb Hc.
  assert (Hafter : forall n,
             within_capacity pf buffersize minpacketsize
               (receive_after pf os (_sd s) buffersize minpacketsize n 0 data w)).
  { intros n. apply after_within_capacity; [exact Hb|exact Hc|lia]. }
  split; [|split].
  - intros n rs d w' H. specialize (Hafter n). now rewrite H in Hafter.
  - intros fuel st d w' H Hst. unfold receive in H.
    destruct (negb (is_valid pf s)).
    + injection H as <- _ _. lia.
    + apply loop_is_after in H. specialize (Hafter fuel).
      rewrite H in Hafter. destruct Hafter as [->|(rs & -> & Hrs & _)]; [lia|].
      destruct (Z_lt_le_dec rs (2 ^ 31)) as [Hsmall|Hlarge].
      * rewrite to_int_small by lia. lia.
      * rewrite to_int_large in Hst by lia. lia.
  - intros Hmin. split.
    + intros d w'. apply turn_exit.
      apply andb_false_iff. right. apply Z.ltb_ge. lia.
    + intros fuel st d w' Hv H. unfold receive in H. rewrite Hv in H.
      simpl in H. apply loop_is_after in H. specialize (Hafter fuel).
      rewrite H in Hafter. destruct Hafter as [->|(rs & -> & _ & Hfull)];
        [now left|right].
      now rewrite (Hfull Hmin).
Qed.

Lemma clip_contract (len : Z) (r : reply) :
  0 <= len -> r_status r < 0 \/ 0 <= r_status (clip len r) <= len.
Proof.
  intros Hlen. unfold clip. destruct (r_status r <? 0) eqn:E.
  - left. now apply Z.ltb_lt.
  - right. simpl. rewrite length_firstn. lia.
Qed.

Lemma receive_never_accumulates_beyond_capacity_witness :
  let os := clipped (scripted [delivers [1; 2]; failed 11; delivers [3; 4]]
                              (failed 11)) in
  let s := open3 posix_build in
  (forall n rs d w',
      receive_after posix_build os 3 4 9 n 0 (zeros 4) world0 = Again rs d w' ->
      0 <= rs <= 4)
  /\ (exists w',
         receive posix_build os 4 (zeros 4) 4 9 s world0
         = Some (4, [1; 2; 3; 4], w'))
  /\ (forall fuel st d w',
         receive posix_build os fuel (zeros 4) 4 9 s world0 = Some (st, d, w') ->
         st = -1 \/ st = 4).
Proof.
  intros os s.
  destruct (receive_never_accumulates_beyond_capacity
              posix_build os (zeros 4) 4 9 s world0)
    as (Hall & _ & Hfull).
  - reflexivity.
  - lia.
  - intros k sd len Hlen. unfold os, clipped, scripted.
    destruct k as [|[|[|k]]].
    + destruct (clip_contract len (delivers [1; 2]) Hlen) as [H|H];
        [simpl in H; lia|right; exact H].
    + left. reflexivity.
    + destruct (clip_contract len (delivers [3; 4]) Hlen) as [H|H];
        [simpl in H; lia|right; exact H].
    + left. destruct k; reflexivity.
  - split; [exact Hall|]. split.
    + eexists. vm_compute. reflexivity.
    + destruct (Hfull ltac:(lia)) as [_ Hret].
      intros fuel st d w' H. exact (Hret fuel st d w' eq_refl H).
Defined.

(** ** receive: when it returns *)

Section Progress.

Variable pf : build.
Variable os : oracle.
Variables (sd buffersize minpacketsize : Z).
Variable T : nat.

Hypothesis buffersize_fits : 0 <= buffersize < 2 ^ 32.

(** Every read fails or stores at least one byte. *)
Hypothesis reads_progress :
  forall k sd' len,
    0 < len ->
    r_status (os k (SysRecv sd' len)) = SOCKET_ERROR pf
    \/ 1 <= r_status (os k (SysRecv sd' len)) <= len.

(** From the [T]-th call on, no read is answered "would block". *)
Hypothesis blocks_end :
  forall k sd' len,
    (T <= k)%nat -> would_block pf (os k (SysRecv sd' len)) = false.

Lemma loop_returns (fuel : nat) :
  forall rs d w,
    0 <= rs <= buffersize ->
    ((T - w_tick w) + Z.to_nat (buffersize - rs) < fuel)%nat ->
    exists res,
      receive_loop pf os sd buffersize minpacketsize fuel rs d w = Some res.
Proof.
  induction fuel as [|f IH]; intros rs d w Hrs Hm; [lia|].
  simpl.
  destruct ((rs <=? minpacketsize) && (rs <? buffersize)) eqn:Ht.
  - pose proof Ht as Ht'. apply andb_prop in Ht'. destruct Ht' as [_ H2].
    apply Z.ltb_lt in H2.
    destruct (Z.eq_dec (r_status (os (w_tick w) (recv_at sd buffersize rs)))
                (SOCKET_ERROR pf)) as [Hs|Hs].
    + destruct (Z.eq_dec (last_error pf (os (w_tick w) (recv_at sd buffersize rs)))
                  (EAGAIN pf)) as [He|He].
      * assert (Hb : would_block pf (os (w_tick w) (recv_at sd buffersize rs))
                     = true).
        { unfold would_block. rewrite Hs, He, !Z.eqb_refl. reflexivity. }
        rewrite (turn_blocked _ _ _ _ _ _ _ _ Ht Hb).
        assert (Hk : (w_tick w < T)%nat).
        { destruct (Nat.lt_ge_cases (w_tick w) T) as [Hlt|Hge]; [exact Hlt|].
          unfold recv_at in Hb. rewrite (blocks_end _ _ _ Hge) in Hb.
          discriminate. }
        apply IH; [exact Hrs|]. simpl. lia.
      * rewrite (turn_error _ _ _ _ _ _ _ _ Ht Hs He). eauto.
    + rewrite (turn_data _ _ _ _ _ _ _ _ Ht Hs). cbv zeta.
      destruct (reads_progress (w_tick w) sd (to_uint (buffersize - rs)))
        as [Hc|Hc];
        [rewrite to_uint_small; lia|contradiction|].
      fold (recv_at sd buffersize rs) in Hc.
      rewrite (to_uint_small (buffersize - rs)) in Hc by lia.
      rewrite (to_uint_small (rs + _)) by lia.
      destruct (minpacketsize <=? _); [eauto|].
      apply IH; [lia|]. simpl. lia.
  - rewrite (turn_exit _ _ _ _ _ _ _ _ Ht). eauto.
Qed.

End Progress.

(** While every read is answered "would block", the loop keeps its state
    and naps 50 ms a turn. *)
Lemma after_always_blocked (pf : build) (os : oracle)
  (sd buffersize minpacketsize : Z) (d : list Z) (w : world) :
  0 <= minpacketsize -> 0 < buffersize ->
  (forall k len, would_block pf (os k (SysRecv sd len)) = true) ->
  forall n, exists w',
    receive_after pf os sd buffersize minpacketsize n 0 d w = Again 0 d w'
    /\ w_slept w' = w_slept w + 50 * Z.of_nat n.
Proof.
  intros Hmin Hb Hblock n.
  destruct (after_blocked pf os sd buffersize minpacketsize n 0 d w)
    as (w' & Ha & _ & Hs & _).
  - apply andb_true_intro. split; [apply Z.leb_le|apply Z.ltb_lt]; lia.
  - intros j _. apply Hblock.
  - exists w'. auto.
Qed.

(** While every read returns 0 bytes and [minpacketsize > 0], the loop
    keeps its state as well, and does not nap. *)
Lemma after_always_empty (pf : build) (os : oracle)
  (sd buffersize minpacketsize : Z) (d : list Z) :
  SOCKET_ERROR pf <> 0 -> 0 < minpacketsize -> 0 < buffersize ->
  (forall k len, r_status (os k (SysRecv sd len)) = 0
                 /\ r_bytes (os k (SysRecv sd len)) = []) ->
  forall n w, exists w',
    receive_after pf os sd buffersize minpacketsize n 0 d w = Again 0 d w'
    /\ w_slept w' = w_slept w
    /\ w_tick w' = (w_tick w + n)%nat.
Proof.
  intros Hse Hmin Hb Hempty. induction n as [|n IH]; intros w.
  - exists w. rewrite Nat.add_0_r. auto.
  - rewrite after_unfold, turn_data.
    + cbv zeta. unfold recv_at.
      destruct (Hempty (w_tick w) (to_uint (buffersize - 0))) as [-> ->].
      replace (minpacketsize <=? to_uint (0 + 0)) with false
        by (symmetry; apply Z.leb_gt; exact Hmin).
      change (to_uint (0 + 0)) with 0.
      replace (write_at d 0 []) with d
        by (unfold write_at; simpl; reflexivity).
      destruct (IH (snd (sys os (SysRecv sd (to_uint (buffersize - 0))) w)))
        as (w' & Ha & Hs & Hk).
      exists w'. split; [exact Ha|]. simpl in Hs, Hk. split; [exact Hs|lia].
    + apply andb_true_intro. split; [apply Z.leb_le|apply Z.ltb_lt]; lia.
    + unfold recv_at.
      destruct (Hempty (w_tick w) (to_uint (buffersize - 0))) as [-> _].
      auto.
Qed.

(** When the reads make progress: [receive] with [minpacketsize > 0] returns,
    within [T + buffersize + 1] turns, whenever every read either fails or
    stores at least one byte and no read after the first [T] calls is
    answered "would block".  On a valid handle with a buffer that is not
    empty, while every read is answered "would block" it does not return:
    each turn naps 50 ms and tries again.  (Reads that return 0 bytes are
    covered by neither part.) *)
Theorem receive_returns_when_reads_progress :
  forall (pf : build) (os : oracle) (T : nat) (data : list Z)
         (buffersize minpacketsize : Z) (s : Socket) (w : world),
    0 <= buffersize < 2 ^ 32 ->
    0 < minpacketsize ->
    ((forall k sd len,
         0 < len ->
         r_status (os k (SysRecv sd len)) = SOCKET_ERROR pf
         \/ 1 <= r_status (os k (SysRecv sd len)) <= len) ->
     (forall k sd len,
         (T <= k)%nat -> would_block pf (os k (SysRecv sd len)) = false) ->
     exists res,
       receive pf os (T + Z.to_nat buffersize + 1) data buffersize
         minpacketsize s w = Some res)
    /\ (is_valid pf s = true ->
        0 < buffersize ->
        (forall k len, would_block pf (os k (SysRecv (_sd s) len)) = true) ->
        (forall fuel,
            receive pf os fuel data buffersize minpacketsize s w = None)
        /\ (forall n, exists w',
               receive_after pf os (_sd s) buffersize minpacketsize n 0 data w
               = Again 0 data w'
               /\ w_slept w' = w_slept w + 50 * Z.of_nat n)).
Proof.
  intros pf os T data buffersize minpacketsize s w Hb Hmin. split.
  - intros Hprog Hend. unfold receive.
    destruct (negb (is_valid pf s)); [eauto|].
    apply (loop_returns pf os (_sd s) buffersize minpacketsize T Hb Hprog Hend).
    + lia.
    + rewrite Z.sub_0_r. lia.
  - intros Hv Hpos Hblock.
    pose proof (after_always_blocked pf os (_sd s) buffersize minpacketsize
                  data w ltac:(lia) Hpos Hblock) as Hspin.
    split; [|exact Hspin].
    intros fuel. unfold receive. rewrite Hv. simpl.
    destruct (Hspin fuel) as (w' & Ha & _).
    exact (loop_starves_while_after_runs _ _ _ _ _ _ _ _ _ _ _ _ Ha).
Qed.

Lemma clip_delivers_progress (len : Z) (bytes : list Z) :
  bytes <> [] -> 0 < len ->
  1 <= r_status (clip len (delivers bytes)) <= len.
Proof.
  intros Hne Hlen. unfold clip.
  replace (r_status (delivers bytes) <? 0) with false
    by (symmetry; apply Z.ltb_ge; simpl; lia).
  simpl. rewrite length_firstn.
  destruct bytes as [|b rest]; [contradiction|]. simpl length. lia.
Qed.

Lemma receive_returns_when_reads_progress_witness :
  let os := clipped (scripted [failed 11; delivers [1; 2; 3]]
                              (delivers [7; 7; 7; 7])) in
  let s := open3 posix_build in
  (exists res, receive posix_build os 10 (zeros 8) 8 5 s world0 = Some res)
  /\ (forall fuel,
         receive posix_build (always (failed 11)) fuel (zeros 8) 8 5 s world0
         = None).
Proof.
  intros os s. split.
  - destruct (receive_returns_when_reads_progress
                posix_build os 1 (zeros 8) 8 5 s world0 ltac:(lia) ltac:(lia))
      as [Hret _].
    apply Hret.
    + intros k sd len Hlen. unfold os, clipped, scripted.
      destruct k as [|[|k]].
      * left. reflexivity.
      * right. apply clip_delivers_progress; [discriminate|exact Hlen].
      * right. replace (nth (S (S k)) _ _) with (delivers [7; 7; 7; 7])
          by (destruct k; reflexivity).
        apply clip_delivers_progress; [discriminate|exact Hlen].
    + intros k sd len Hk. unfold os, clipped, scripted, would_block.
      destruct k as [|[|k]]; [lia| |].
      * unfold clip. simpl. apply andb_false_r.
      * replace (nth (S (S k)) _ _) with (delivers [7; 7; 7; 7])
          by (destruct k; reflexivity).
        unfold clip. simpl. apply andb_false_r.
  - destruct (receive_returns_when_reads_progress
                posix_build (always (failed 11)) 0 (zeros 8) 8 5 s world0
                ltac:(lia) ltac:(lia)) as [_ Hblock].
    destruct (Hblock eq_refl ltac:(lia)) as [Hnone _].
    + intros k len. reflexivity.
    + exact Hnone.
Defined.

(** One such run: the peer has shut down, every read returns 0, five
    bytes are asked for, and no amount of fuel makes [receive] return. *)
Lemma receive_spins_on_empty_reads :
  ~ exists fuel res,
      receive posix_build (always (delivers [])) fuel (zeros 10) 10 5
        (open3 posix_build) world0 = Some res.
Proof.
  intros (fuel & res & H). unfold receive in H. simpl in H.
  destruct (after_always_empty posix_build (always (delivers [])) 3 10 5
              (zeros 10) ltac:(discriminate) ltac:(lia) ltac:(lia)
              ltac:(intros; split; reflexivity) fuel world0)
    as (w' & Ha & _).
  apply loop_starves_while_after_runs in Ha.
  change (_sd (open3 posix_build)) with 3 in H. congruence.
Qed.

(** In that run the loop does not nap either: after any number of turns
    it has made that many reads and slept 0 ms. *)
Example empty_reads_spin_without_sleep :
  forall n, exists w',
    receive_after posix_build (always (delivers [])) 3 10 5 n 0 (zeros 10)
      world0 = Again 0 (zeros 10) w'
    /\ w_slept w' = 0 /\ w_tick w' = n.
Proof.
  intros n.
  destruct (after_always_empty posix_build (always (delivers [])) 3 10 5
              (zeros 10) ltac:(discriminate) ltac:(lia) ltac:(lia)
              ltac:(intros; split; reflexivity) n world0)
    as (w' & Ha & Hs & Hk).
  exists w'. auto.
Qed.

(** ** Reads that return nothing *)

(** C9 (the code departs from the claim).  On a valid handle, with
    [minpacketsize > 0] and a buffer that is not empty, when the peer has
    shut down and every read returns 0 bytes, [receive] does not return,
    whatever the fuel: a read of 0 bytes is not taken as the end of the
    stream.  After any number [n] of turns the loop has made [n] reads,
    has not slept at all, and has the count and the buffer it started
    with. *)
Theorem receive_never_returns_when_every_read_is_empty :
  forall (pf : build) (os : oracle) (data : list Z)
         (buffersize minpacketsize : Z) (s : Socket) (w : world),
    is_valid pf s = true ->
    SOCKET_ERROR pf <> 0 ->
    0 < minpacketsize ->
    0 < buffersize ->
    (forall k len,
        r_status (os k (SysRecv (_sd s) len)) = 0
        /\ r_bytes (os k (SysRecv (_sd s) len)) = []) ->
    (forall fuel, receive pf os fuel data buffersize minpacketsize s w = None)
    /\ (forall n, exists w',
           receive_after pf os (_sd s) buffersize minpacketsize n 0 data w
           = Again 0 data w'
           /\ w_slept w' = w_slept w
           /\ w_tick w' = (w_tick w + n)%nat).
Proof.
  intros pf os data buffersize minpacketsize s w Hv Hse Hmin Hb Hempty.
  pose proof (fun n =>
                after_always_empty pf os (_sd s) buffersize minpacketsize
                  data Hse Hmin Hb Hempty n w) as Hspin.
  split; [|exact Hspin].
  intros fuel. unfold receive. rewrite Hv. simpl.
  destruct (Hspin fuel) as (w' & Ha & _).
  exact (loop_starves_while_after_runs _ _ _ _ _ _ _ _ _ _ _ _ Ha).
Qed.

Lemma receive_never_returns_when_every_read_is_empty_witness :
  (forall fuel,
      receive posix_build (always (delivers [])) fuel (zeros 10) 10 5
        (open3 posix_build) world0 = None)
  /\ (forall n, exists w',
         receive_after posix_build (always (delivers [])) 3 10 5 n 0
           (zeros 10) world0 = Again 0 (zeros 10) w'
         /\ w_slept w' = 0
         /\ w_tick w' = n).
Proof.
  apply (receive_never_returns_when_every_read_is_empty
           posix_build (always (delivers [])) (zeros 10) 10 5
           (open3 posix_build) world0).
  - reflexivity.
  - discriminate.
  - lia.
  - lia.
  - intros k len. split; reflexivity.
Defined.

(** ** send and receive on the Windows build *)

(** C2 (the code departs from the claim).  On the Windows build the
    system reports the transient condition through [WSAGetLastError()],
    which is what [receive] and [getLastError] read, while the loop of
    [send] reads [errno].  So when the first write is answered
    [SOCKET_ERROR] with [WSAGetLastError()] equal to [WSAEWOULDBLOCK] and
    [errno] something else, [send] does not retry: after the poll and
    that one write it returns [SOCKET_ERROR] with the handle set to
    [INVALID_SOCKET], and the code it hands to [errormessage] is the
    would-block code itself.  The same answer is one that [receive]
    counts as "would block". *)
Theorem send_gives_up_on_a_would_block_reported_by_WSAGetLastError :
  forall (pf : build) (os : oracle) (data : list Z) (len : Z)
         (s : Socket) (w : world) (fuel : nat),
    TARGET_WINDOWS pf = true ->
    is_valid pf s = true ->
    0 <= r_status (os (w_tick w)
                      (SysSelect (FD_SETSIZE pf) [_sd s] [] [_sd s] 0 0)) ->
    r_status (os (S (w_tick w)) (SysSend (_sd s) data len))
    = SOCKET_ERROR pf ->
    r_wsaerr (os (S (w_tick w)) (SysSend (_sd s) data len)) = EAGAIN pf ->
    r_errno (os (S (w_tick w)) (SysSend (_sd s) data len)) <> EAGAIN pf ->
    (0 < fuel)%nat ->
    exists w',
      send pf os fuel data len s w
      = Some (SOCKET_ERROR pf, set_sd s (INVALID_SOCKET pf), w')
      /\ is_valid pf (set_sd s (INVALID_SOCKET pf)) = false
      /\ calls_since w w'
         = [SysSend (_sd s) data len;
            SysSelect (FD_SETSIZE pf) [_sd s] [] [_sd s] 0 0]
      /\ w_log w'
         = LogError "Socket::send  - failed to send data"
           :: ErrorMessage (EAGAIN pf) "Socket::send" :: w_log w
      /\ would_block pf (os (S (w_tick w)) (SysSend (_sd s) data len)) = true.
Proof.
  intros pf os data len s w fuel Hwin Hv Hsel Hst Hwsa Herr Hf.
  set (sel := SysSelect (FD_SETSIZE pf) [_sd s] [] [_sd s] 0 0) in *.
  set (snd1 := SysSend (_sd s) data len) in *.
  destruct fuel as [|f]; [lia|].
  assert (Hpoll : (r_status (os (w_tick w) sel) <? 0) = false)
    by (apply Z.ltb_ge; exact Hsel).
  apply Z.eqb_neq in Herr.
  unfold send. rewrite Hv. unfold sys. simpl. fold sel snd1.
  rewrite Hpoll, Hst, Z.eqb_refl, Herr. simpl. rewrite Z.eqb_refl.
  unfold getLastError. rewrite Hwin. simpl. rewrite Hwsa.
  eexists. split; [reflexivity|].
  split; [unfold is_valid; simpl; now rewrite Z.eqb_refl|].
  split.
  - apply (calls_since_app _ _
             [(snd1, os (S (w_tick w)) snd1); (sel, os (w_tick w) sel)]).
    reflexivity.
  - split; [reflexivity|].
    unfold would_block, last_error.
    now rewrite Hwin, Hst, Hwsa, !Z.eqb_refl.
Qed.

Lemma send_gives_up_on_a_would_block_reported_by_WSAGetLastError_witness :
  let s := open3 windows_build in
  let os := ready_then (always (wsa_failed 10035)) in
  exists w',
    send windows_build os 5 [71; 69; 84] 3 s world0
    = Some (-1, set_sd s (2 ^ 64 - 1), w')
    /\ is_valid windows_build (set_sd s (2 ^ 64 - 1)) = false
    /\ calls_since world0 w'
       = [SysSend 3 [71; 69; 84] 3; SysSelect 64 [3] [] [3] 0 0]
    /\ w_log w'
       = [LogError "Socket::send  - failed to send data";
          ErrorMessage 10035 "Socket::send"]
    /\ would_block windows_build (wsa_failed 10035) = true.
Proof.
  intros s os.
  apply (send_gives_up_on_a_would_block_reported_by_WSAGetLastError
           windows_build os [71; 69; 84] 3 s world0 5).
  - reflexivity.
  - reflexivity.
  - vm_compute. discriminate.
  - reflexivity.
  - reflexivity.
  - vm_compute. discriminate.
  - lia.
Defined.

(** On that build and with that answer to every read, [receive] does what
    the claim asks of [send]: it naps and tries again, and never
    returns. *)
Example receive_retries_a_would_block_reported_by_WSAGetLastError :
  forall fuel,
    receive windows_build (always (wsa_failed 10035)) fuel (zeros 8) 8 5
      (open3 windows_build) world0 = None.
Proof.
  intros fuel. unfold receive.
  change (negb (is_valid windows_build (open3 windows_build))) with false.
  cbv iota.
  destruct (after_always_blocked windows_build (always (wsa_failed 10035))
              (_sd (open3 windows_build)) 8 5 (zeros 8) world0
              ltac:(lia) ltac:(lia) ltac:(intros; reflexivity) fuel)
    as (w' & Ha & _).
  exact (loop_starves_while_after_runs _ _ _ _ _ _ _ _ _ _ _ _ Ha).
Qed.

(** On the POSIX build the loop of [send] reads the channel the system
    writes, and the same situation is retried. *)
Example send_retries_a_would_block_on_posix :
  forall fuel,
    send posix_build (ready_then (always (failed 11))) fuel [71; 69; 84] 3
      (open3 posix_build) world0 = None.
Proof.
  intros fuel. unfold send.
  change (negb (is_valid posix_build (open3 posix_build))) with false.
  cbv iota. unfold sys. simpl.
  rewrite (send_loop_blocked posix_build
             (ready_then (always (failed 11))) 3 [71; 69; 84] 3 fuel);
    [reflexivity|].
  intros k. reflexivity.
Qed.

(** ** Round trip over a stream *)

Lemma wire_snoc (evs : list (os_call * reply)) (e : os_call * reply) :
  wire (evs ++ [e]) = accepted e ++ wire evs.
Proof. unfold wire. now rewrite rev_app_distr. Qed.

Lemma send_loop_wire (pf : build) (os : oracle) (sd : Z) (data : list Z)
  (len : Z) (fuel : nat) :
  SOCKET_ERROR pf < 0 ->
  forall w st w',
    send_loop pf os fuel sd data len w = Some (st, w') ->
    exists evs, w_trace w' = evs ++ w_trace w
                /\ wire evs = firstn (Z.to_nat st) data.
Proof.
  intros Hse. induction fuel as [|f IH]; intros w st w' H; [discriminate|].
  simpl in H.
  set (r := os (w_tick w) (SysSend sd data len)) in *.
  set (w1 := {| w_tick := S (w_tick w) |}) in *.
  destruct ((r_status r =? SOCKET_ERROR pf) && (r_errno r =? EAGAIN pf)) eqn:E.
  - apply IH in H. destruct H as (evs & Ht & Hw).
    exists (evs ++ [(SysSend sd data len, r)]). split.
    + rewrite Ht. simpl. now rewrite <- app_assoc.
    + rewrite wire_snoc, Hw. unfold accepted. simpl.
      apply andb_prop in E. destruct E as [E _]. apply Z.eqb_eq in E.
      rewrite E. replace (Z.to_nat (SOCKET_ERROR pf)) with 0%nat by lia.
      reflexivity.
  - injection H as <- <-. exists [(SysSend sd data len, r)].
    split; [reflexivity|]. unfold wire, accepted. simpl. apply app_nil_r.
Qed.

(** What a [send] that returned [st] has put on the stream: the first
    [st] bytes of its buffer. *)
Lemma send_wire (pf : build) (os : oracle) (fuel : nat) (data : list Z)
  (len : Z) (s : Socket) (w : world) (st : Z) (s' : Socket) (w' : world) :
  SOCKET_ERROR pf < 0 ->
  send pf os fuel data len s w = Some (st, s', w') ->
  wire (events_since w w') = firstn (Z.to_nat st) data.
Proof.
  intros Hse H. unfold send in H.
  destruct (negb (is_valid pf s)).
  { injection H as <- _ <-. now rewrite events_since_refl. }
  unfold sys in H. cbv zeta in H.
  set (sel := SysSelect (FD_SETSIZE pf) [_sd s] [] [_sd s] 0 0) in *.
  set (w1 := {| w_tick := S (w_tick w) |}) in *.
  destruct (r_status (os (w_tick w) sel) <? 0).
  { injection H as <- _ <-.
    now rewrite (events_since_app _ _ [(sel, os (w_tick w) sel)]). }
  destruct (send_loop pf os fuel (_sd s) data len w1) as [[st0 w2]|] eqn:E;
    [|discriminate].
  destruct (send_loop_wire pf os _ _ _ _ Hse _ _ _ E) as (evs & Ht & Hw).
  assert (Hev : forall w3, w_trace w3 = w_trace w2 ->
                           wire (events_since w w3) = firstn (Z.to_nat st0) data).
  { intros w3 H3.
    rewrite (events_since_app _ _ (evs ++ [(sel, os (w_tick w) sel)])).
    - now rewrite wire_snoc.
    - rewrite H3, Ht. simpl. now rewrite <- app_assoc. }
  destruct (st0 =? SOCKET_ERROR pf); injection H as <- _ <-;
    now apply Hev.
Qed.

Lemma c_string_before_zero (p rest : list Z) :
  c_string (p ++ 0 :: rest) = c_string p.
Proof.
  induction p as [|b p IH]; [reflexivity|].
  simpl. destruct (b =? 0); [reflexivity|now rewrite IH].
Qed.

Lemma c_string_without_zero (p : list Z) :
  Forall (fun b => b <> 0) p -> c_string p = p.
Proof.
  induction 1 as [|b p Hb _ IH]; [reflexivity|].
  simpl. apply Z.eqb_neq in Hb. now rewrite Hb, IH.
Qed.

Lemma skipn_repeat_zero (k m : nat) :
  skipn k (repeat 0 m) = repeat 0 (m - k).
Proof.
  revert k. induction m as [|m IH]; intros [|k]; try reflexivity.
  simpl. apply IH.
Qed.

(** Storing [bytes] right behind what has been received, in a buffer whose
    rest is still zero. *)
Lemma write_at_received (received bytes : list Z) (m : nat) :
  (length bytes <= m)%nat ->
  write_at (received ++ repeat 0 m) (Z.of_nat (length received)) bytes
  = (received ++ bytes) ++ repeat 0 (m - length bytes).
Proof.
  intros Hm. unfold write_at. rewrite Nat2Z.id.
  rewrite firstn_app, firstn_all, Nat.sub_diag, firstn_O, app_nil_r.
  rewrite skipn_app, skipn_all2 by lia.
  replace (length received + length bytes - length received)%nat
    with (length bytes) by lia.
  rewrite skipn_repeat_zero. simpl. now rewrite <- app_assoc.
Qed.

Lemma loop_unfold (pf : build) (os : oracle) (sd buffersize minpacketsize : Z)
  (f : nat) (rs : Z) (d : list Z) (w : world) :
  receive_loop pf os sd buffersize minpacketsize (S f) rs d w
  = match receive_turn pf os sd buffersize minpacketsize rs d w with
    | Return status data1 w1 => Some (status, data1, w1)
    | Again receivedsize1 data1 w1 =>
        receive_loop pf os sd buffersize minpacketsize f receivedsize1 data1 w1
    end.
Proof. reflexivity. Qed.

Lemma arrived_app (s1 s2 : list arrival) :
  arrived (s1 ++ s2) = arrived s1 ++ arrived s2.
Proof.
  induction s1 as [|[|bytes] s1 IH]; simpl; [reflexivity|exact IH|].
  now rewrite IH, app_assoc.
Qed.

Section Stream.

Variable pf : build.
Variable sd : Z.
Variable p : list Z.
Variable t0 : nat.
Variable all : list arrival.

Hypothesis socket_error_negative : SOCKET_ERROR pf < 0.
Hypothesis payload_fits : Z.of_nat (length p) < 2 ^ 31.

Local Abbreviation b := (Z.of_nat (length p)).
Local Abbreviation os :=
  (from_tick t0 (scripted (map (arrival_reply pf) all)
                          (arrival_reply pf Blocked))).

Lemma os_at (done : list arrival) (a : arrival) (rest : list arrival)
  (c : os_call) :
  all = done ++ a :: rest ->
  os (t0 + length done)%nat c = arrival_reply pf a.
Proof.
  intros H. unfold from_tick, scripted.
  replace (t0 + length done - t0)%nat with (length done) by lia.
  rewrite H, map_app. simpl.
  rewrite <- (length_map (arrival_reply pf) done). apply nth_middle.
Qed.

(** The receiving loop, fed the pieces of [p] in order, fills the buffer
    with [p] and returns its length. *)
Lemma loop_delivers (sched : list arrival) :
  forall (done : list arrival) (received : list Z) (w : world),
    all = done ++ sched ->
    p = received ++ arrived sched ->
    w_tick w = (t0 + length done)%nat ->
    exists w',
      receive_loop pf os sd b b (S (length sched))
        (Z.of_nat (length received))
        (received ++ repeat 0 (length p + 1 - length received)) w
      = Some (b, p ++ [0], w').
Proof.
  induction sched as [|a rest IH]; intros done received w Hall Hp Hk.
  - simpl in Hp. rewrite app_nil_r in Hp. subst received.
    rewrite loop_unfold, turn_exit.
    + rewrite to_int_small by lia.
      replace (length p + 1 - length p)%nat with 1%nat by lia. eauto.
    + apply andb_false_iff. right. apply Z.ltb_ge. lia.
  - assert (Hlen : (length p = length received + length (arrived (a :: rest)))%nat).
    { rewrite Hp at 1. apply length_app. }
    destruct (Nat.eq_dec (length received) (length p)) as [Hfull|Hmore].
    + assert (Hnil : arrived (a :: rest) = []).
      { apply length_zero_iff_nil. lia. }
      rewrite Hnil, app_nil_r in Hp. subst received.
      rewrite loop_unfold, turn_exit.
      * rewrite to_int_small by lia.
        replace (length p + 1 - length p)%nat with 1%nat by lia. eauto.
      * apply andb_false_iff. right. apply Z.ltb_ge. lia.
    + assert (Ht : (Z.of_nat (length received) <=? b)
                   && (Z.of_nat (length received) <? b) = true).
      { apply andb_true_intro. split; [apply Z.leb_le|apply Z.ltb_lt]; lia. }
      pose proof (os_at done a rest
                    (recv_at sd b (Z.of_nat (length received))) Hall) as Hos.
      rewrite <- Hk in Hos.
      rewrite loop_unfold.
      destruct a as [|bytes].
      * rewrite turn_blocked; [|exact Ht|].
        2:{ rewrite Hos. unfold would_block, last_error. simpl.
            destruct (TARGET_WINDOWS pf); now rewrite !Z.eqb_refl. }
        apply (IH (done ++ [Blocked])).
        -- now rewrite <- app_assoc.
        -- exact Hp.
        -- simpl. rewrite Hk, length_app. simpl. lia.
      * simpl in Hp, Hlen. rewrite length_app in Hlen.
        rewrite turn_data; [|exact Ht|].
        2:{ rewrite Hos. simpl. lia. }
        cbv zeta. rewrite Hos. simpl r_status. simpl r_bytes.
        rewrite to_uint_small by lia.
        rewrite write_at_received by lia.
        replace (Z.of_nat (length received) + Z.of_nat (length bytes))
          with (Z.of_nat (length (received ++ bytes)))
          by (rewrite length_app; lia).
        replace (length p + 1 - length received - length bytes)%nat
          with (length p + 1 - length (received ++ bytes))%nat
          by (rewrite length_app; lia).
        destruct (b <=? Z.of_nat (length (received ++ bytes))) eqn:Hdone.
        -- apply Z.leb_le in Hdone. rewrite length_app in Hdone.
           assert (Hnil : arrived rest = []).
           { apply length_zero_iff_nil. lia. }
           rewrite Hnil, app_nil_r in Hp. rewrite <- Hp.
           rewrite to_int_small by lia.
           replace (length p + 1 - length p)%nat with 1%nat by lia. eauto.
        -- apply (IH (done ++ [Chunk bytes])).
           ++ now rewrite <- app_assoc.
           ++ now rewrite <- app_assoc.
           ++ simpl. rewrite Hk, length_app. simpl. lia.
Qed.

End Stream.

(** C4 (as the code has it).  A payload [p] of fewer than [2^31] bytes is
    sent with [send], which returns its full length; the peer's system
    hands over what was put on the stream, in any pieces and with any
    "would block" answers in between; the peer calls
    [receive (string, minpacketsize)] with the payload's length.  Then that
    call returns the length, and the string it yields is [p] up to its
    first zero byte: [p] itself when no byte of [p] is zero. *)
Theorem stream_round_trip_up_to_first_zero_byte :
  forall (pf : build) (osA : oracle) (fuelA : nat) (p : list Z)
         (sA : Socket) (wA : world) (sA' : Socket) (wA' : world)
         (sched : list arrival) (sB : Socket) (wB : world) (old : list Z),
    SOCKET_ERROR pf < 0 ->
    Z.of_nat (length p) < 2 ^ 31 ->
    send pf osA fuelA p (Z.of_nat (length p)) sA wA
    = Some (Z.of_nat (length p), sA', wA') ->
    arrived sched = wire (events_since wA wA') ->
    is_valid pf sB = true ->
    exists received wB',
      receive_string_min pf
        (from_tick (w_tick wB)
           (scripted (map (arrival_reply pf) sched) (arrival_reply pf Blocked)))
        (S (length sched)) old (Z.of_nat (length p)) sB wB
      = Some (Z.of_nat (length p), received, wB')
      /\ received = c_string p
      /\ (Forall (fun b => b <> 0) p -> received = p).
Proof.
  intros pf osA fuelA p sA wA sA' wA' sched sB wB old Hse Hlen Hsend Hwire Hv.
  rewrite (send_wire pf osA fuelA p _ sA wA _ sA' wA' Hse Hsend) in Hwire.
  rewrite Nat2Z.id, firstn_all in Hwire.
  destruct (loop_delivers pf (_sd sB) p (w_tick wB) sched Hse Hlen sched [] []
              wB eq_refl (eq_sym Hwire)) as (wB' & Hloop).
  { simpl. lia. }
  exists (c_string p), wB'. split; [|split; [reflexivity|]].
  - unfold receive_string_min, receive. rewrite Hv. simpl negb. cbv iota.
    rewrite to_uint_small by lia. unfold zeros.
    replace (Z.to_nat (Z.of_nat (length p) + 1)) with (length p + 1)%nat by lia.
    cbn [length app Z.of_nat] in Hloop. rewrite Nat.sub_0_r in Hloop.
    rewrite Hloop.
    now rewrite c_string_before_zero.
  - apply c_string_without_zero.
Qed.

Lemma stream_round_trip_up_to_first_zero_byte_witness :
  let osA := ready_then (scripted [ok 0; failed 11] (ok 5)) in
  let sched := [Chunk [72; 69]; Blocked; Chunk [76; 76; 79]] in
  let osB := from_tick 0
               (scripted (map (arrival_reply posix_build) sched)
                         (arrival_reply posix_build Blocked)) in
  let s := open3 posix_build in
  exists wA' wB',
    send posix_build osA 2 [72; 69; 76; 76; 79] 5 s world0 = Some (5, s, wA')
    /\ receive_string_min posix_build osB 4 [] 5 s world0
       = Some (5, [72; 69; 76; 76; 79], wB').
Proof.
  intros osA sched osB s.
  destruct (send posix_build osA 2 [72; 69; 76; 76; 79] 5 s world0)
    as [[[st s'] wA']|] eqn:E; [|vm_compute in E; discriminate].
  assert (Est : st = 5 /\ s' = s).
  { vm_compute in E. injection E as <- <- _. split; reflexivity. }
  destruct Est as [-> ->].
  destruct (stream_round_trip_up_to_first_zero_byte
              posix_build osA 2 [72; 69; 76; 76; 79] s world0 s wA' sched
              s world0 [] ltac:(reflexivity) ltac:(reflexivity) E)
    as (received & wB' & Hr & _ & Hsame).
  - vm_compute in E. injection E as <-. reflexivity.
  - reflexivity.
  - exists wA', wB'. split; [reflexivity|].
    rewrite Hsame in Hr; [exact Hr|].
    repeat constructor; discriminate.
Defined.

(** C4 as the specification states it does not hold for a payload with a
    zero byte: the write takes all three bytes, the read stores all three,
    and the string the receiver gets is the first byte alone. *)
Lemma zero_byte_cuts_the_received_string :
  let p := [65; 0; 66] in
  let s := open3 posix_build in
  option_map (fun x => fst (fst x))
    (send posix_build (ready_then (always (ok 3))) 1 p 3 s world0) = Some 3
  /\ option_map (fun x => wire (w_trace (snd x)))
       (send posix_build (ready_then (always (ok 3))) 1 p 3 s world0) = Some p
  /\ option_map fst
       (receive_string_min posix_build (always (delivers p)) 1 [] 3 s world0)
     = Some (3, [65])
  /\ [65] <> p.
Proof.
  vm_compute. repeat split; discriminate.
Qed.

(** * Further properties of the member functions *)

(** ** The guard on the handle *)

(** X1.  On an invalid handle the member functions that test the handle
    first ([close], the destructor, [bind], [listen], [accept], both
    [send]s, the three [receive]s, [connect], [SetSocketOption]) make no
    call and change neither the object nor the world, whatever the fuel;
    the data functions return 0 and leave their buffer as it was. *)
Theorem guarded_functions_do_nothing_on_invalid_handle :
  forall (pf : build) (os : oracle) (fuel : nat) (s : Socket) (w : world),
    is_valid pf s = false ->
    (forall o, guarded o = true -> run pf os fuel o s w = Some (s, w))
    /\ (forall data len, send pf os fuel data len s w = Some (0, s, w))
    /\ (forall inner data,
           send_string pf os fuel inner data s w = Some (0, s, w))
    /\ (forall data b m, receive pf os fuel data b m s w = Some (0, data, w))
    /\ (forall data m,
           receive_string_min pf os fuel data m s w = Some (0, data, w))
    /\ (forall data, receive_string pf os fuel data s w = Some (0, data, w)).
Proof.
  intros pf os fuel s w Hv.
  assert (Hsd : (_sd s =? INVALID_SOCKET pf) = true).
  { unfold is_valid in Hv. now destruct (_sd s =? INVALID_SOCKET pf). }
  split.
  - intros o Hg. destruct o; try discriminate Hg; simpl;
      unfold Socket_delete, send_string, receive_string_min, receive_string;
      unfold close, bind, listen, accept, send, receive, connect,
        SetSocketOption;
      rewrite ?Hv, ?Hsd; simpl; reflexivity.
  - unfold send, send_string, receive, receive_string_min, receive_string.
    rewrite Hv. simpl. repeat split; reflexivity.
Qed.

Lemma guarded_functions_do_nothing_on_invalid_handle_witness :
  let s := Socket_default posix_build in
  run posix_build (always (ok 1)) 5 (OpConnect "backend" 8866) s world0
  = Some (s, world0)
  /\ send posix_build (always (ok 1)) 5 [1; 2] 2 s world0 = Some (0, s, world0).
Proof.
  intros s.
  destruct (guarded_functions_do_nothing_on_invalid_handle
              posix_build (always (ok 1)) 5 s world0 eq_refl)
    as (Hrun & Hsend & _).
  split; [apply Hrun; reflexivity|apply Hsend].
Defined.

(** ** close and create *)

Lemma In_calls_since_later (P Q : os_call -> Prop) (w w1 w2 : world)
  (c : os_call) :
  only_calls P w w1 -> only_calls Q w1 w2 ->
  In c (calls_since w w1) -> In c (calls_since w w2).
Proof.
  intros (e1 & H1 & _) (e2 & H2 & _) Hin.
  rewrite (calls_since_app _ _ _ H1) in Hin.
  rewrite (calls_since_app w w2 (e2 ++ e1)).
  - rewrite map_app. apply in_or_app. now right.
  - now rewrite H2, H1, app_assoc.
Qed.

Lemma close_calls_close (pf : build) (os : oracle) (s : Socket) (w : world) :
  is_valid pf s = true -> _sd s <> SOCKET_ERROR pf ->
  In (SysClose (_sd s)) (calls_since w (snd (close pf os s w))).
Proof.
  intros Hv Hsd. unfold close. rewrite Hv. apply Z.eqb_neq in Hsd.
  rewrite Hsd. simpl.
  apply (In_calls_since_later (fun _ => True) (fun c => lifecycle c = true)
           w (snd (sys os (SysClose (_sd s)) w))).
  - now apply only_calls_sys.
  - apply osCleanup_calls.
  - rewrite (calls_since_app _ _
               [(SysClose (_sd s), os (w_tick w) (SysClose (_sd s)))]);
      [now left|reflexivity].
Qed.

Lemma close_leaves_invalid (pf : build) (os : oracle) (s : Socket)
  (w : world) :
  is_valid pf (snd (fst (close pf os s w))) = false.
Proof.
  unfold close. destruct (is_valid pf s) eqn:Hv; simpl; [|exact Hv].
  unfold is_valid. simpl. now rewrite Z.eqb_refl.
Qed.

(** X2.  [close] returns whether the handle was valid, leaves it invalid,
    makes life-cycle calls only (the close of the descriptor among them
    when the handle was valid and not [SOCKET_ERROR]), and a second
    [close] right after it returns false and does nothing. *)
Theorem close_is_idempotent :
  forall (pf : build) (os : oracle) (s : Socket) (w : world),
    fst (fst (close pf os s w)) = is_valid pf s
    /\ is_valid pf (snd (fst (close pf os s w))) = false
    /\ close pf os (snd (fst (close pf os s w))) (snd (close pf os s w))
       = (false, snd (fst (close pf os s w)), snd (close pf os s w))
    /\ (forall c, In c (calls_since w (snd (close pf os s w))) ->
                  lifecycle c = true)
    /\ (is_valid pf s = true -> _sd s <> SOCKET_ERROR pf ->
        In (SysClose (_sd s)) (calls_since w (snd (close pf os s w)))).
Proof.
  intros pf os s w.
  pose proof (close_leaves_invalid pf os s w) as Hinv.
  split; [unfold close; now destruct (is_valid pf s)|].
  split; [exact Hinv|]. split.
  - unfold close at 1. now rewrite Hinv.
  - split; [|apply close_calls_close].
    apply only_calls_since. apply close_calls.
Qed.

Lemma close_is_idempotent_witness :
  let s := open3 posix_build in
  let os := always (ok 0) in
  fst (fst (close posix_build os s world0)) = true
  /\ In (SysClose 3) (calls_since world0 (snd (close posix_build os s world0)))
  /\ close posix_build os (snd (fst (close posix_build os s world0)))
       (snd (close posix_build os s world0))
     = (false, snd (fst (close posix_build os s world0)),
        snd (close posix_build os s world0)).
Proof.
  intros s os.
  destruct (close_is_idempotent posix_build os s world0)
    as (Hb & _ & Hagain & _ & Hin).
  split; [exact Hb|]. split; [|exact Hagain].
  apply Hin; [reflexivity|discriminate].
Defined.

(** X3.  [create] returns true exactly when it leaves a valid handle.  It
    keeps the configuration, makes life-cycle calls only, closes the
    descriptor of a handle that was valid first, and on success the handle
    is what its last call, [socket] with the configured family, type and
    protocol, returned. *)
Theorem create_succeeds_iff_handle_valid :
  forall (pf : build) (os : oracle) (s : Socket) (w : world),
    fst (fst (create pf os s w)) = is_valid pf (snd (fst (create pf os s w)))
    /\ (let s1 := snd (fst (create pf os s w)) in
        _family s1 = _family s /\ _domain s1 = _domain s
        /\ _type s1 = _type s /\ _protocol s1 = _protocol s)
    /\ (forall c, In c (calls_since w (snd (create pf os s w))) ->
                  lifecycle c = true)
    /\ (is_valid pf s = true -> _sd s <> SOCKET_ERROR pf ->
        In (SysClose (_sd s)) (calls_since w (snd (create pf os s w))))
    /\ (fst (fst (create pf os s w)) = true ->
        exists r rest,
          w_trace (snd (create pf os s w))
          = (SysSocket (_family s) (_type s) (_protocol s), r) :: rest
          /\ _sd (snd (fst (create pf os s w))) = r_status r).
Proof.
  intros pf os s w.
  split; [|split; [|split; [|split]]].
  - unfold create.
    destruct (is_valid pf s) eqn:Hv.
    + pose proof (close_leaves_invalid pf os s w) as Hinv.
      destruct (close pf os s w) as [[b0 s0] w0]. simpl in Hinv.
      destruct (osInit pf os w0) as [b1 w1].
      destruct b1; simpl; [|now rewrite Hinv].
      case_if; simpl; unfold is_valid; simpl;
        match goal with E : (_ =? _) = _ |- _ => now rewrite E end.
    + destruct (osInit pf os w) as [b1 w1].
      destruct b1; simpl; [|now rewrite Hv].
      case_if; simpl; unfold is_valid; simpl;
        match goal with E : (_ =? _) = _ |- _ => now rewrite E end.
  - unfold create.
    assert (Hc : let s0 := snd (fst (close pf os s w)) in
                 _family s0 = _family s /\ _domain s0 = _domain s
                 /\ _type s0 = _type s /\ _protocol s0 = _protocol s).
    { unfold close. destruct (is_valid pf s); simpl; auto. }
    destruct (is_valid pf s).
    + destruct (close pf os s w) as [[b0 s0] w0]. simpl in Hc.
      destruct (osInit pf os w0) as [b1 w1].
      destruct b1; simpl; [|exact Hc].
      destruct (_ =? INVALID_SOCKET pf); simpl; exact Hc.
    + destruct (osInit pf os w) as [b1 w1].
      destruct b1; simpl; [|auto].
      destruct (_ =? INVALID_SOCKET pf); simpl; auto.
  - apply only_calls_since. apply create_calls.
  - intros Hv Hsd.
    pose proof (close_calls_close pf os s w Hv Hsd) as Hin.
    pose proof (close_calls pf os s w) as Hcl.
    unfold create. rewrite Hv.
    destruct (close pf os s w) as [[b0 s0] w0]. simpl in Hin, Hcl.
    pose proof (osInit_calls pf os w0) as Hi.
    destruct (osInit pf os w0) as [b1 w1]. simpl in Hi.
    assert (Hin1 : In (SysClose (_sd s)) (calls_since w w1)).
    { exact (In_calls_since_later _ _ _ _ _ _ Hcl Hi Hin). }
    assert (Hw1 : only_calls (fun c => lifecycle c = true) w w1).
    { exact (only_calls_trans _ _ _ _ Hcl Hi). }
    destruct b1; simpl; [|exact Hin1].
    assert (Hlast : forall w2,
               w_trace w2
               = w_trace (snd (sys os (SysSocket (_family s0) (_type s0)
                                         (_protocol s0)) w1)) ->
               In (SysClose (_sd s)) (calls_since w w2)).
    { intros w2 H2.
      apply (In_calls_since_later _ (fun _ => True) w w1 w2 _ Hw1);
        [|exact Hin1].
      eapply only_calls_same_trace; [|exact H2].
      now apply only_calls_sys. }
    destruct (_ =? INVALID_SOCKET pf); simpl; now apply Hlast.
  - intros Hok.
    assert (Hc : let s0 := snd (fst (close pf os s w)) in
                 _family s0 = _family s /\ _type s0 = _type s
                 /\ _protocol s0 = _protocol s).
    { unfold close. destruct (is_valid pf s); simpl; auto. }
    revert Hok. unfold create.
    destruct (is_valid pf s).
    + destruct (close pf os s w) as [[b0 s0] w0]. simpl in Hc.
      destruct Hc as (-> & -> & ->).
      destruct (osInit pf os w0) as [b1 w1].
      destruct b1; simpl; [|discriminate].
      destruct (_ =? INVALID_SOCKET pf); simpl; [discriminate|].
      intros _. eauto.
    + destruct (osInit pf os w) as [b1 w1].
      destruct b1; simpl; [|discriminate].
      destruct (_ =? INVALID_SOCKET pf); simpl; [discriminate|].
      intros _. eauto.
Qed.

Lemma create_succeeds_iff_handle_valid_witness :
  let s := open3 posix_build in
  let os := scripted [ok 0; ok 5] (ok 0) in
  fst (create posix_build os s world0) = (true, set_sd s 5)
  /\ In (SysClose 3) (calls_since world0 (snd (create posix_build os s world0)))
  /\ is_valid posix_build (snd (fst (create posix_build os s world0))) = true.
Proof.
  intros s os.
  destruct (create_succeeds_iff_handle_valid posix_build os s world0)
    as (Hb & _ & _ & Hin & _).
  split; [reflexivity|]. split.
  - apply Hin; [reflexivity|discriminate].
  - rewrite <- Hb. reflexivity.
Defined.

(** X4.  A [create] that succeeds on a closed Socket, followed at once by
    [close]: the [close] returns true, the handle is invalid again, the
    usage counter is back at its value before the [create], and (unless
    the descriptor equals [SOCKET_ERROR]) the descriptor closed is the one
    the [create] obtained. *)
Theorem create_then_close_gives_everything_back :
  forall (pf : build) (os : oracle) (s : Socket) (w : world)
         (s1 : Socket) (w1 : world),
    is_valid pf s = false ->
    create pf os s w = (true, s1, w1) ->
    fst (fst (close pf os s1 w1)) = true
    /\ is_valid pf (snd (fst (close pf os s1 w1))) = false
    /\ win_usage_count (snd (close pf os s1 w1)) = win_usage_count w
    /\ (_sd s1 <> SOCKET_ERROR pf ->
        In (SysClose (_sd s1)) (calls_since w1 (snd (close pf os s1 w1)))).
Proof.
  intros pf os s w s1 w1 Hv Hc.
  destruct (create_close_restores_usage_count pf os s w s1 w1 Hv Hc)
    as (w2 & Hcl & Hinv & Hu).
  assert (Hv1 : is_valid pf s1 = true).
  { unfold close in Hcl. destruct (is_valid pf s1); [reflexivity|].
    discriminate. }
  split; [now rewrite Hcl|]. split; [now rewrite Hcl|].
  split; [now rewrite Hcl|].
  intros Hsd. now apply close_calls_close.
Qed.

Lemma create_then_close_gives_everything_back_witness :
  let os := scripted [ok 0; ok 7; ok 0] (ok 0) in
  exists s1 w1,
    create windows_build os (Socket_default windows_build) world0
    = (true, s1, w1)
    /\ win_usage_count w1 = 1
    /\ win_usage_count (snd (close windows_build os s1 w1)) = 0
    /\ In (SysClose 7) (calls_since w1 (snd (close windows_build os s1 w1))).
Proof.
  intros os.
  destruct (create windows_build os (Socket_default windows_build) world0)
    as [[b s1] w1] eqn:E.
  assert (Eb : b = true /\ win_usage_count w1 = 1 /\ _sd s1 = 7).
  { vm_compute in E. injection E as <- <- <-. repeat split. }
  destruct Eb as (-> & Hu & Hsd).
  destruct (create_then_close_gives_everything_back windows_build os
              (Socket_default windows_build) world0 s1 w1 eq_refl E)
    as (_ & _ & Hr & Hin).
  exists s1, w1. split; [reflexivity|]. split; [exact Hu|].
  split; [exact Hr|]. rewrite <- Hsd. apply Hin. rewrite Hsd. discriminate.
Defined.

(** ** The usage counter: who changes it *)

Section Usage.

Variable pf : build.
Variable os : oracle.

Ltac branches :=
  repeat (first
            [ case_if
            | match goal with
              | |- context [match ?x with Some _ => _ | None => _ end] =>
                  destruct x
              end ];
          simpl).

Lemma send_loop_usage (fuel : nat) :
  forall sd data len w st w',
    send_loop pf os fuel sd data len w = Some (st, w') ->
    win_usage_count w' = win_usage_count w.
Proof.
  induction fuel as [|f IH]; intros sd data len w st w' H; [discriminate|].
  simpl in H.
  destruct (_ && _); [now apply IH in H|now injection H as _ <-].
Qed.

Lemma send_usage fuel data len s w st s' w' :
  send pf os fuel data len s w = Some (st, s', w') ->
  win_usage_count w' = win_usage_count w.
Proof.
  unfold send, sys. simpl. intros H.
  destruct (negb (is_valid pf s)); [now injection H as _ _ <-|].
  destruct (_ <? 0); [now injection H as _ _ <-|].
  destruct (send_loop _ _ _ _ _ _ _) as [[st0 w0]|] eqn:E; [|discriminate].
  apply send_loop_usage in E. simpl in E.
  destruct (st0 =? SOCKET_ERROR pf); injection H as _ _ <-; exact E.
Qed.

Lemma send_string_loop_usage (fuel inner : nat) data :
  forall s w st s' w',
    send_string_loop pf os fuel inner data s w = Some (st, s', w') ->
    win_usage_count w' = win_usage_count w.
Proof.
  induction fuel as [|f IH]; intros s w st s' w' H; [discriminate|].
  simpl in H.
  destruct (send pf os inner data _ s w) as [[[st0 s0] w0]|] eqn:E;
    [|discriminate].
  apply send_usage in E. rewrite <- E.
  destruct (_ && _); [now apply IH in H|now injection H as _ _ <-].
Qed.

Lemma turn_usage sd b m rs d w :
  match receive_turn pf os sd b m rs d w with
  | Again _ _ w' | Return _ _ w' => win_usage_count w' = win_usage_count w
  end.
Proof. unfold receive_turn, sys. simpl. branches; reflexivity. Qed.

Lemma receive_loop_usage sd b m (fuel : nat) :
  forall rs d w st d' w',
    receive_loop pf os sd b m fuel rs d w = Some (st, d', w') ->
    win_usage_count w' = win_usage_count w.
Proof.
  induction fuel as [|f IH]; intros rs d w st d' w' H; [discriminate|].
  simpl in H. pose proof (turn_usage sd b m rs d w) as Ht.
  destruct (receive_turn pf os sd b m rs d w) as [rs1 d1 w1|st1 d1 w1].
  - apply IH in H. congruence.
  - injection H as _ _ <-. exact Ht.
Qed.

Lemma receive_usage fuel data b m s w st d' w' :
  receive pf os fuel data b m s w = Some (st, d', w') ->
  win_usage_count w' = win_usage_count w.
Proof.
  unfold receive. destruct (negb (is_valid pf s)).
  - now intros [= _ _ <-].
  - apply receive_loop_usage.
Qed.

Lemma sendto_loop_usage_posix (fuel : nat) :
  TARGET_WINDOWS pf = false ->
  forall sent data size c s w i w',
    sendto_loop pf os fuel sent data size c s w = Some (i, w') ->
    win_usage_count w' = win_usage_count w.
Proof.
  intros Hp. induction fuel as [|f IH]; intros sent data size c s w i w' H;
    [discriminate|].
  simpl in H. unfold osCleanup in H. rewrite Hp in H.
  destruct (_ <=? 0); [now injection H as _ <-|].
  destruct (_ && _); [now apply IH in H|now injection H as _ <-].
Qed.

Lemma close_usage_posix s w :
  TARGET_WINDOWS pf = false ->
  win_usage_count (snd (close pf os s w)) = win_usage_count w.
Proof.
  intros Hp. unfold close, osCleanup, sys. rewrite Hp. simpl.
  branches; reflexivity.
Qed.

Lemma create_usage_posix s w :
  TARGET_WINDOWS pf = false ->
  win_usage_count (snd (create pf os s w)) = win_usage_count w.
Proof.
  intros Hp. pose proof (close_usage_posix s w Hp) as Hc.
  unfold create, osInit. rewrite Hp.
  destruct (is_valid pf s).
  - destruct (close pf os s w) as [[b0 s0] w0]. simpl in Hc.
    unfold sys. simpl. branches; exact Hc.
  - unfold sys. simpl. branches; reflexivity.
Qed.

(** X5.  The usage counter is left alone by every public member function
    other than [create], [close], the destructor, [reconnect], [sendto]
    and [BroadcastSendTo]; on a build that does not start a socket
    subsystem it is left alone by all of them. *)
Theorem usage_counter_is_framed :
  forall (fuel : nat) (o : op) (s : Socket) (w : world)
         (s' : Socket) (w' : world),
    touches_usage o = false \/ TARGET_WINDOWS pf = false ->
    run pf os fuel o s w = Some (s', w') ->
    win_usage_count w' = win_usage_count w.
Proof.
  intros fuel o s w s' w' Hwhy H.
  destruct o; simpl in H.
  - revert H. unfold drop, setHostname, sys. simpl. branches;
      intros [= _ <-]; reflexivity.
  - revert H. unfold drop, read_ready, sys. simpl. now intros [= _ <-].
  - destruct Hwhy as [Hwhy|Hp]; [discriminate|].
    pose proof (close_usage_posix s w Hp) as Hc.
    destruct (close pf os s w) as [[b0 s0] w0]. now injection H as _ <-.
  - destruct Hwhy as [Hwhy|Hp]; [discriminate|].
    pose proof (create_usage_posix s w Hp) as Hc.
    destruct (create pf os s w) as [[b0 s0] w0]. now injection H as _ <-.
  - revert H. unfold drop, bind, sys. simpl. branches;
      intros [= _ <-]; reflexivity.
  - revert H. unfold drop, listen, sys. simpl. branches;
      intros [= _ <-]; reflexivity.
  - revert H. unfold accept, sys. simpl. branches;
      intros [= _ <-]; reflexivity.
  - revert H. unfold accept, sys. simpl. branches;
      intros [= _ <-]; reflexivity.
  - unfold send_string in H.
    destruct (negb (is_valid pf s)); [now injection H as _ <-|].
    destruct (send_string_loop _ _ _ _ _ _ _) as [[[st s0] w0]|] eqn:E;
      [|discriminate].
    injection H as _ <-. now apply send_string_loop_usage in E.
  - destruct (send _ _ _ _ _ _ _) as [[[st s0] w0]|] eqn:E; [|discriminate].
    injection H as _ <-. now apply send_usage in E.
  - destruct Hwhy as [Hwhy|Hp]; [discriminate|].
    unfold sendto in H.
    destruct (sendto_loop _ _ _ _ _ _ _ _ _) as [[i w0]|] eqn:E;
      [|discriminate].
    injection H as _ <-. now apply sendto_loop_usage_posix in E.
  - unfold keep, receive_string_min in H.
    destruct (negb (is_valid pf s)); [now injection H as _ <-|].
    destruct (receive _ _ _ _ _ _ _ _) as [[[st d0] w0]|] eqn:E;
      [|discriminate].
    injection H as _ <-. now apply receive_usage in E.
  - unfold keep, receive_string in H.
    destruct (negb (is_valid pf s)); [now injection H as _ <-|].
    destruct (receive _ _ _ _ _ _ _ _) as [[[st d0] w0]|] eqn:E;
      [|discriminate].
    injection H as _ <-. now apply receive_usage in E.
  - unfold keep in H.
    destruct (receive _ _ _ _ _ _ _ _) as [[[st d0] w0]|] eqn:E;
      [|discriminate].
    injection H as _ <-. now apply receive_usage in E.
  - now injection H as _ <-.
  - revert H. unfold drop, connect, setHostname, sys. simpl. branches;
      intros [= _ <-]; reflexivity.
  - destruct Hwhy as [Hwhy|Hp]; [discriminate|].
    revert H. unfold drop, reconnect.
    pose proof (create_usage_posix s w Hp) as Hc.
    destruct (negb (_sd s =? INVALID_SOCKET pf)); [now intros [= _ <-]|].
    destruct (create pf os s w) as [[b0 s0] w0]. simpl in Hc.
    unfold sys. simpl. branches; intros [= _ <-]; exact Hc.
  - now injection H as _ <-.
  - revert H. unfold drop, SetSocketOption, sys. simpl. branches;
      intros [= _ <-]; reflexivity.
  - destruct Hwhy as [Hwhy|Hp]; [discriminate|].
    unfold BroadcastSendTo, sendto, sys in H. simpl in H.
    destruct (sendto_loop _ _ _ _ _ _ _ _ _) as [[i w0]|] eqn:E;
      [|discriminate].
    injection H as _ <-. now apply sendto_loop_usage_posix in E.
  - now injection H as _ <-.
  - revert H. unfold drop, set_non_blocking, sys. simpl. branches;
      intros [= _ <-]; reflexivity.
  - destruct Hwhy as [Hwhy|Hp]; [discriminate|].
    pose proof (close_usage_posix s w Hp) as Hc.
    unfold Socket_delete in H.
    destruct (close pf os s w) as [[b0 s0] w0]. now injection H as _ <-.
Qed.

End Usage.

Lemma usage_counter_is_framed_witness :
  let os := scripted [ok 0; failed 104] (ok 0) in
  exists s' w',
    run windows_build os 3 (OpSend [71; 69; 84] 3) (open3 windows_build)
      (set_usage world0 1) = Some (s', w')
    /\ is_valid windows_build s' = false
    /\ win_usage_count w' = 1.
Proof.
  intros os.
  destruct (run windows_build os 3 (OpSend [71; 69; 84] 3)
              (open3 windows_build) (set_usage world0 1))
    as [[s' w']|] eqn:E; [|vm_compute in E; discriminate].
  exists s', w'. split; [reflexivity|]. split.
  - vm_compute in E. injection E as <- _. reflexivity.
  - exact (usage_counter_is_framed windows_build os 3%nat
             (OpSend [71; 69; 84] 3) _ _ _ _ (or_introl eq_refl) E).
Defined.

(** ** send and sendto: the other paths *)

(** X6.  When the readiness poll of [send] fails on a valid handle, [send]
    returns 0 (not an error status) with the handle set to
    [INVALID_SOCKET]; the poll is the only call it makes, so nothing is
    written and nothing is closed, whatever the fuel. *)
Theorem send_gives_up_when_the_poll_fails :
  forall (pf : build) (os : oracle) (fuel : nat) (data : list Z) (len : Z)
         (s : Socket) (w : world),
    is_valid pf s = true ->
    r_status (os (w_tick w)
                 (SysSelect (FD_SETSIZE pf) [_sd s] [] [_sd s] 0 0)) < 0 ->
    exists w',
      send pf os fuel data len s w
      = Some (0, set_sd s (INVALID_SOCKET pf), w')
      /\ is_valid pf (set_sd s (INVALID_SOCKET pf)) = false
      /\ calls_since w w'
         = [SysSelect (FD_SETSIZE pf) [_sd s] [] [_sd s] 0 0]
      /\ win_usage_count w' = win_usage_count w.
Proof.
  intros pf os fuel data len s w Hv Hsel.
  unfold send, sys. rewrite Hv. simpl.
  apply Z.ltb_lt in Hsel. rewrite Hsel.
  eexists. split; [reflexivity|].
  split; [unfold is_valid; simpl; now rewrite Z.eqb_refl|].
  split; [|reflexivity].
  now rewrite (calls_since_app _ _
                 [(SysSelect (FD_SETSIZE pf) [_sd s] [] [_sd s] 0 0,
                   os (w_tick w)
                     (SysSelect (FD_SETSIZE pf) [_sd s] [] [_sd s] 0 0))]).
Qed.

Lemma send_gives_up_when_the_poll_fails_witness :
  exists w',
    send posix_build (always (failed 9)) 0 [1; 2; 3] 3 (open3 posix_build)
      world0
    = Some (0, set_sd (open3 posix_build) (-1), w')
    /\ calls_since world0 w' = [SysSelect 1024 [3] [] [3] 0 0].
Proof.
  destruct (send_gives_up_when_the_poll_fails
              posix_build (always (failed 9)) 0 [1; 2; 3] 3
              (open3 posix_build) world0 eq_refl)
    as (w' & Hs & _ & Hc & _).
  - vm_compute. reflexivity.
  - exists w'. split; [exact Hs|exact Hc].
Defined.



Lemma osCleanup_only_cleanup (pf : build) (os : oracle) (w : world) :
  only_calls (fun x => x = SysWSACleanup) w (osCleanup pf os w).
Proof.
  unfold osCleanup. destruct (TARGET_WINDOWS pf); [|apply only_calls_refl].
  destruct (_ =? 0).
  - eapply only_calls_same_trace;
      [apply only_calls_sys with (c := SysWSACleanup) (w := w); reflexivity|].
    reflexivity.
  - eapply only_calls_same_trace; [apply only_calls_refl|reflexivity].
Qed.

Section Sendto.

Variable pf : build.
Variable os : oracle.
Variables (data : list Z) (size : Z) (s : Socket).

Local Abbreviation call := (SysSendto (_sd s) data size (_sockaddr s)).

Lemma sendto_loop_calls (fuel : nat) :
  forall sent c w i w',
    sendto_loop pf os fuel sent data size c s w = Some (i, w') ->
    only_calls (fun x => x = call \/ x = SysWSACleanup) w w'.
Proof.
  induction fuel as [|f IH]; intros sent c w i w' H; [discriminate|].
  simpl in H.
  assert (Hfirst : only_calls (fun x => x = call \/ x = SysWSACleanup) w
                     (snd (sys os call w))).
  { apply only_calls_sys. now left. }
  destruct (_ <=? 0).
  - injection H as _ <-.
    eapply only_calls_trans;
      [|eapply only_calls_weaken; [|apply osCleanup_only_cleanup];
        intros x Hx; now right].
    eapply only_calls_same_trace; [exact Hfirst|reflexivity].
  - destruct (_ && _).
    + apply IH in H. eapply only_calls_trans; [exact Hfirst|exact H].
    + injection H as _ <-. exact Hfirst.
Qed.

(** With [size] at most [2 ^ 30] and results between one byte and [size]
    the count never leaves the range of an [int], and the loop ends before
    the count passes [(int) size]. *)
Lemma sendto_loop_returns (fuel : nat) :
  0 <= size <= 2 ^ 30 ->
  (forall k, 1 <= r_status (os k call) <= size) ->
  forall sent c w,
    0 <= sent < size ->
    (Z.to_nat (size - sent) < fuel)%nat ->
    exists i w',
      sendto_loop pf os fuel sent data size c s w = Some (i, w')
      /\ 1 <= i <= size.
Proof.
  intros Hsize Hpos. induction fuel as [|f IH]; intros sent c w Hs Hm; [lia|].
  simpl. pose proof (Hpos (w_tick w)) as Hi.
  replace (r_status (os (w_tick w) call) <=? 0) with false
    by (symmetry; apply Z.leb_gt; lia).
  rewrite (to_int_small size) by lia.
  rewrite (to_int_small (sent + r_status (os (w_tick w) call))) by lia.
  destruct (sent + r_status (os (w_tick w) call) <? size) eqn:Hlt;
    simpl; [|eauto].
  destruct c; [|eauto].
  apply Z.ltb_lt in Hlt. apply IH; lia.
Qed.

End Sendto.

(** X8.  Every datagram call one [sendto] makes is the same call: the
    whole buffer from its start, the same size and the stored address,
    also when it loops to send a "complete buffer"; besides these it may
    only run the subsystem teardown.  The object is unchanged, and without
    [sendcompletebuffer] the result of the first call is returned, after
    that single call when it is positive. *)
Theorem sendto_repeats_the_same_call :
  forall (pf : build) (os : oracle) (fuel : nat) (data : list Z) (size : Z)
         (c : bool) (s : Socket) (w : world) (i : Z) (s' : Socket)
         (w' : world),
    sendto pf os fuel data size c s w = Some (i, s', w') ->
    s' = s
    /\ (forall x, In x (calls_since w w') ->
                  x = SysSendto (_sd s) data size (_sockaddr s)
                  \/ x = SysWSACleanup)
    /\ (c = false ->
        i = r_status (os (w_tick w)
                         (SysSendto (_sd s) data size (_sockaddr s)))
        /\ (0 < i ->
            calls_since w w'
            = [SysSendto (_sd s) data size (_sockaddr s)])).
Proof.
  intros pf os fuel data size c s w i s' w' H. unfold sendto in H.
  destruct (sendto_loop pf os fuel 0 data size c s w) as [[i0 w0]|] eqn:E;
    [|discriminate].
  injection H as <- <- <-.
  split; [reflexivity|]. split.
  - apply only_calls_since. exact (sendto_loop_calls _ _ _ _ _ _ _ _ _ _ _ E).
  - intros ->. destruct fuel as [|f]; [discriminate|]. simpl in E.
    destruct (_ <=? 0) eqn:Hi.
    + injection E as <- _. split; [reflexivity|].
      intros Hpos. apply Z.leb_le in Hi. lia.
    + rewrite andb_false_r in E. injection E as <- <-.
      split; [reflexivity|]. intros _.
      now rewrite (calls_since_app _ _
                     [(SysSendto (_sd s) data size (_sockaddr s),
                       os (w_tick w)
                         (SysSendto (_sd s) data size (_sockaddr s)))]).
Qed.

Lemma sendto_repeats_the_same_call_witness :
  let s := open3 posix_build in
  exists w',
    sendto posix_build (always (ok 2)) 3 [1; 2; 3; 4; 5] 5 true s world0
    = Some (2, s, w')
    /\ (forall x, In x (calls_since world0 w') ->
                  x = SysSendto 3 [1; 2; 3; 4; 5] 5 (_sockaddr s)
                  \/ x = SysWSACleanup).
Proof.
  intros s.
  destruct (sendto posix_build (always (ok 2)) 3 [1; 2; 3; 4; 5] 5 true s
              world0) as [[[i s'] w']|] eqn:E; [|vm_compute in E; discriminate].
  destruct (sendto_repeats_the_same_call _ _ _ _ _ _ _ _ _ _ _ E)
    as (-> & Hcalls & _).
  exists w'. split; [|exact Hcalls].
  vm_compute in E. injection E as <- _. reflexivity.
Defined.

(** X9.  When [size] is at most [2 ^ 30] and every datagram call sends
    between one byte and [size] bytes, the [int] count of [sendto] never
    overflows and [sendto] returns within [(int) size + 1] turns of its
    loop, with the positive result of its last call, also with
    [sendcompletebuffer] set. *)
Theorem sendto_returns_when_every_call_sends :
  forall (pf : build) (os : oracle) (data : list Z) (size : Z) (c : bool)
         (s : Socket) (w : world),
    0 <= size <= 2 ^ 30 ->
    (forall k,
        1 <= r_status (os k (SysSendto (_sd s) data size (_sockaddr s)))
          <= size) ->
    exists i w',
      sendto pf os (S (Z.to_nat (to_int size))) data size c s w
      = Some (i, s, w')
      /\ 1 <= i <= size.
Proof.
  intros pf os data size c s w Hsize Hpos. unfold sendto.
  pose proof (Hpos O) as H0.
  destruct (sendto_loop_returns pf os data size s
              (S (Z.to_nat (to_int size))) Hsize Hpos 0 c w)
    as (i & w' & Hl & Hi).
  - lia.
  - rewrite (to_int_small size) by lia. rewrite Z.sub_0_r. lia.
  - rewrite Hl. eauto.
Qed.

Lemma sendto_returns_when_every_call_sends_witness :
  exists i w',
    sendto posix_build (always (ok 2)) 6 [1; 2; 3; 4; 5] 5 true
      (open3 posix_build) world0 = Some (i, open3 posix_build, w')
    /\ 1 <= i <= 5.
Proof.
  apply (sendto_returns_when_every_call_sends
           posix_build (always (ok 2)) [1; 2; 3; 4; 5] 5 true
           (open3 posix_build) world0).
  - lia.
  - intros k. simpl. lia.
Defined.

(** Past that bound the count does wrap: with [size] the largest [int]
    and calls that each send one byte less, the count is negative after
    the second call and the loop is still running after sixty-four. *)
Example sendto_count_wraps_past_the_bound :
  to_int (2147483646 + 2147483646) = -4
  /\ sendto posix_build (always (ok 2147483646)) 64 [] 2147483647 true
       (open3 posix_build) world0 = None.
Proof. split; vm_compute; reflexivity. Qed.

(** ** receive: what a return value promises *)

Section Minimum.

Variable pf : build.
Variable os : oracle.
Variables (sd buffersize minpacketsize : Z).

Hypothesis buffersize_is_int : 0 <= buffersize < 2 ^ 31.

Hypothesis recv_contract :
  forall k sd' len,
    0 <= len ->
    r_status (os k (SysRecv sd' len)) = SOCKET_ERROR pf
    \/ 0 <= r_status (os k (SysRecv sd' len)) <= len.

Lemma turn_meets_minimum rs d w :
  0 <= rs <= buffersize ->
  meets_minimum pf buffersize minpacketsize
    (receive_turn pf os sd buffersize minpacketsize rs d w).
Proof.
  intros Hrs. unfold receive_turn.
  destruct ((rs <=? minpacketsize) && (rs <? buffersize)) eqn:Ht.
  - apply andb_prop in Ht. destruct Ht as [H1 H2].
    apply Z.leb_le in H1. apply Z.ltb_lt in H2.
    unfold sys. cbv zeta.
    rewrite (to_uint_small (buffersize - rs)) by lia.
    set (r := os (w_tick w) (SysRecv sd (buffersize - rs))).
    destruct (r_status r =? SOCKET_ERROR pf) eqn:Hs.
    + apply Z.eqb_eq in Hs. destruct (negb _); simpl; [now left|lia].
    + apply Z.eqb_neq in Hs.
      destruct (recv_contract (w_tick w) sd (buffersize - rs) ltac:(lia))
        as [Hc|Hc]; fold r in Hc; [contradiction|].
      rewrite (to_uint_small (rs + r_status r)) by lia.
      destruct (minpacketsize <=? rs + r_status r) eqn:Hm; simpl; [|lia].
      apply Z.leb_le in Hm. right. rewrite to_int_small by lia. lia.
  - simpl. right. rewrite to_int_small by lia.
    apply andb_false_iff in Ht. destruct Ht as [Ht|Ht].
    + apply Z.leb_gt in Ht. lia.
    + apply Z.ltb_ge in Ht. lia.
Qed.

Lemma after_meets_minimum (n : nat) :
  forall rs d w,
    0 <= rs <= buffersize ->
    meets_minimum pf buffersize minpacketsize
      (receive_after pf os sd buffersize minpacketsize n rs d w).
Proof.
  induction n as [|n IH]; intros rs d w Hrs; [exact Hrs|].
  rewrite after_unfold.
  pose proof (turn_meets_minimum rs d w Hrs) as Ht.
  destruct (receive_turn pf os sd buffersize minpacketsize rs d w)
    as [rs1 d1 w1|st d1 w1]; [now apply IH|exact Ht].
Qed.

End Minimum.

(** X10.  On a valid handle, with a buffer size that fits an [int] and a
    system that keeps the promise of a read, a [receive] that returns
    something other than [SOCKET_ERROR] returns a count between 0 and
    [buffersize] that is at least [minpacketsize] or is the full
    [buffersize]: it never gives up early with fewer bytes. *)
Theorem receive_returns_the_minimum_or_a_full_buffer :
  forall (pf : build) (os : oracle) (fuel : nat) (data : list Z)
         (buffersize minpacketsize : Z) (s : Socket) (w : world)
         (st : Z) (d : list Z) (w' : world),
    is_valid pf s = true ->
    0 <= buffersize < 2 ^ 31 ->
    (forall k sd len,
        0 <= len ->
        r_status (os k (SysRecv sd len)) = SOCKET_ERROR pf
        \/ 0 <= r_status (os k (SysRecv sd len)) <= len) ->
    receive pf os fuel data buffersize minpacketsize s w = Some (st, d, w') ->
    st = SOCKET_ERROR pf
    \/ (0 <= st <= buffersize /\ (minpacketsize <= st \/ st = buffersize)).
Proof.
  intros pf os fuel data buffersize minpacketsize s w st d w' Hv Hb Hc H.
  unfold receive in H. rewrite Hv in H. simpl in H.
  apply loop_is_after in H.
  pose proof (after_meets_minimum pf os (_sd s) buffersize minpacketsize
                Hb Hc fuel 0 data w ltac:(lia)) as Hm.
  now rewrite H in Hm.
Qed.

Lemma receive_returns_the_minimum_or_a_full_buffer_witness :
  let os := clipped (scripted [delivers [1; 2]; failed 11; delivers [3; 4; 5]]
                              (failed 11)) in
  exists w',
    receive posix_build os 3 (zeros 8) 8 4 (open3 posix_build) world0
    = Some (5, [1; 2; 3; 4; 5; 0; 0; 0], w')
    /\ (5 = -1 \/ (0 <= 5 <= 8 /\ (4 <= 5 \/ 5 = 8))).
Proof.
  intros os.
  destruct (receive posix_build os 3 (zeros 8) 8 4 (open3 posix_build) world0)
    as [[[st d] w']|] eqn:E; [|vm_compute in E; discriminate].
  assert (Hst : st = 5 /\ d = [1; 2; 3; 4; 5; 0; 0; 0]).
  { vm_compute in E. injection E as <- <- _. split; reflexivity. }
  destruct Hst as [-> ->]. exists w'. split; [reflexivity|].
  apply (receive_returns_the_minimum_or_a_full_buffer
           posix_build os 3 (zeros 8) 8 4 (open3 posix_build) world0
           5 [1; 2; 3; 4; 5; 0; 0; 0] w' eq_refl ltac:(lia)); [|exact E].
  intros k sd len Hlen. unfold os, clipped, scripted.
  destruct k as [|[|[|k]]].
  - destruct (clip_contract len (delivers [1; 2]) Hlen) as [H|H];
      [simpl in H; lia|right; exact H].
  - left. reflexivity.
  - destruct (clip_contract len (delivers [3; 4; 5]) Hlen) as [H|H];
      [simpl in H; lia|right; exact H].
  - left. destruct k; reflexivity.
Defined.

(** ** receive: what it writes *)

Lemma write_at_length (d bytes : list Z) (rs : Z) :
  0 <= rs ->
  (Z.to_nat rs + length bytes <= length d)%nat ->
  length (write_at d rs bytes) = length d.
Proof.
  intros Hrs Hfit. unfold write_at.
  rewrite !length_app, length_firstn, length_skipn. lia.
Qed.

Lemma write_at_rest (d bytes : list Z) (rs : Z) :
  0 <= rs ->
  (Z.to_nat rs + length bytes <= length d)%nat ->
  skipn (Z.to_nat rs + length bytes) (write_at d rs bytes)
  = skipn (Z.to_nat rs + length bytes) d.
Proof.
  intros Hrs Hfit. unfold write_at.
  rewrite skipn_app, length_firstn.
  replace (Init.Nat.min (Z.to_nat rs) (length d)) with (Z.to_nat rs) by lia.
  rewrite (skipn_all2 (firstn (Z.to_nat rs) d))
    by (rewrite length_firstn; lia).
  replace (Z.to_nat rs + length bytes - Z.to_nat rs)%nat
    with (length bytes) by lia.
  rewrite skipn_app, skipn_all, Nat.sub_diag. reflexivity.
Qed.

Lemma skipn_further (k n : nat) (d d0 : list Z) :
  skipn n d = skipn n d0 -> skipn (n + k) d = skipn (n + k) d0.
Proof.
  intros H. rewrite (Nat.add_comm n k), <- !skipn_skipn. now rewrite H.
Qed.

Section Buffer.

Variable pf : build.
Variable os : oracle.
Variables (sd buffersize minpacketsize : Z).
Variable data0 : list Z.

Hypothesis buffersize_fits : 0 <= buffersize < 2 ^ 32.
Hypothesis buffer_is_there : buffersize <= Z.of_nat (length data0).
Hypothesis honest : recv_honest pf os.

Lemma turn_filled rs d w :
  filled buffersize data0 rs d ->
  match receive_turn pf os sd buffersize minpacketsize rs d w with
  | Again rs1 d1 _ => filled buffersize data0 rs1 d1
  | Return st d1 _ =>
      exists rs1, filled buffersize data0 rs1 d1
                  /\ (st = SOCKET_ERROR pf \/ st = to_int rs1)
  end.
Proof.
  intros (Hrs & Hlen & Hrest). unfold receive_turn.
  destruct ((rs <=? minpacketsize) && (rs <? buffersize)) eqn:Ht.
  - apply andb_prop in Ht. destruct Ht as [_ H2]. apply Z.ltb_lt in H2.
    unfold sys. cbv zeta.
    rewrite (to_uint_small (buffersize - rs)) by lia.
    set (r := os (w_tick w) (SysRecv sd (buffersize - rs))).
    destruct (r_status r =? SOCKET_ERROR pf) eqn:Hs.
    + apply Z.eqb_eq in Hs.
      destruct (negb _); simpl.
      * exists rs. split; [now split|now left].
      * now split.
    + apply Z.eqb_neq in Hs.
      destruct (honest (w_tick w) sd (buffersize - rs) ltac:(lia))
        as [Hc|[Hc Hb]]; fold r in Hc; [contradiction|]. fold r in Hb.
      rewrite (to_uint_small (rs + r_status r)) by lia.
      assert (Hf : filled buffersize data0 (rs + r_status r)
                     (write_at d rs (r_bytes r))).
      { split; [lia|]. split.
        - rewrite write_at_length; [exact Hlen|lia|lia].
        - replace (Z.to_nat (rs + r_status r))
            with (Z.to_nat rs + length (r_bytes r))%nat by lia.
          rewrite write_at_rest by lia. now apply skipn_further. }
      destruct (minpacketsize <=? rs + r_status r); simpl; [|exact Hf].
      exists (rs + r_status r). split; [exact Hf|now right].
  - simpl. exists rs. split; [now split|now right].
Qed.

Lemma loop_filled (fuel : nat) :
  forall rs d w st d' w',
    filled buffersize data0 rs d ->
    receive_loop pf os sd buffersize minpacketsize fuel rs d w
    = Some (st, d', w') ->
    exists rs', filled buffersize data0 rs' d'
                /\ (st = SOCKET_ERROR pf \/ st = to_int rs').
Proof.
  induction fuel as [|f IH]; intros rs d w st d' w' Hf H; [discriminate|].
  simpl in H. pose proof (turn_filled rs d w Hf) as Ht.
  destruct (receive_turn pf os sd buffersize minpacketsize rs d w)
    as [rs1 d1 w1|st1 d1 w1].
  - exact (IH _ _ _ _ _ _ Ht H).
  - now injection H as <- <- _.
Qed.

End Buffer.

Lemma to_int_nonneg (rs : Z) :
  0 <= rs < 2 ^ 32 -> 0 <= to_int rs -> to_int rs = rs.
Proof.
  intros Hrs Hst. destruct (Z_lt_le_dec rs (2 ^ 31)).
  - apply to_int_small. lia.
  - rewrite to_int_large in Hst by lia. lia.
Qed.

Lemma receive_keeps_the_rest (pf : build) (os : oracle) (fuel : nat)
  (data : list Z) (buffersize minpacketsize : Z) (s : Socket) (w : world)
  (st : Z) (d : list Z) (w' : world) :
  SOCKET_ERROR pf < 0 ->
  0 <= buffersize < 2 ^ 32 ->
  buffersize <= Z.of_nat (length data) ->
  recv_honest pf os ->
  receive pf os fuel data buffersize minpacketsize s w = Some (st, d, w') ->
  length d = length data
  /\ skipn (Z.to_nat buffersize) d = skipn (Z.to_nat buffersize) data
  /\ (0 <= st -> st <= buffersize
                 /\ skipn (Z.to_nat st) d = skipn (Z.to_nat st) data).
Proof.
  intros Hse Hb Hlen Hh H.
  unfold receive in H. destruct (negb (is_valid pf s)).
  { injection H as <- <- _. repeat split. lia. }
  destruct (loop_filled pf os (_sd s) buffersize minpacketsize data Hb Hlen Hh
              fuel 0 data w st d w') as (rs & (Hrs & Hl & Hrest) & Hst).
  - split; [lia|]. now split.
  - exact H.
  - split; [exact Hl|]. split.
    + replace (Z.to_nat buffersize)
        with (Z.to_nat rs + (Z.to_nat buffersize - Z.to_nat rs))%nat by lia.
      now apply skipn_further.
    + intros Hpos. destruct Hst as [->| ->]; [lia|].
      rewrite to_int_nonneg by lia. split; [lia|exact Hrest].
Qed.

(** X11.  With a buffer of at least [buffersize] bytes and a system whose
    reads store exactly what they report, [receive] returns a buffer of
    the same length in which everything from index [buffersize] on is
    untouched; and when it returns a count that is not negative,
    everything from that index on is untouched as well. *)
Theorem receive_never_writes_past_the_buffer :
  forall (pf : build) (os : oracle) (fuel : nat) (data : list Z)
         (buffersize minpacketsize : Z) (s : Socket) (w : world)
         (st : Z) (d : list Z) (w' : world),
    SOCKET_ERROR pf < 0 ->
    0 <= buffersize < 2 ^ 32 ->
    buffersize <= Z.of_nat (length data) ->
    recv_honest pf os ->
    receive pf os fuel data buffersize minpacketsize s w = Some (st, d, w') ->
    length d = length data
    /\ skipn (Z.to_nat buffersize) d = skipn (Z.to_nat buffersize) data
    /\ (0 <= st -> st <= buffersize
                   /\ skipn (Z.to_nat st) d = skipn (Z.to_nat st) data).
Proof.
  intros pf os fuel data buffersize minpacketsize s w st d w'.
  apply receive_keeps_the_rest.
Qed.

Lemma clipped_is_honest (l : list (list Z)) :
  recv_honest posix_build
    (clipped (scripted (map delivers l) (failed 11))).
Proof.
  intros k sd len Hlen. unfold clipped, scripted.
  destruct (nth_in_or_default k (map delivers l) (failed 11)) as [Hin| ->].
  - apply in_map_iff in Hin. destruct Hin as (bytes & <- & _).
    right. unfold clip. simpl.
    replace (Z.of_nat (length bytes) <? 0) with false
      by (symmetry; apply Z.ltb_ge; lia).
    simpl. rewrite length_firstn. lia.
  - left. reflexivity.
Qed.

Lemma receive_never_writes_past_the_buffer_witness :
  let os := clipped (scripted (map delivers [[1; 2; 3; 4; 5; 6]; [7; 8]])
                              (failed 11)) in
  exists w',
    receive posix_build os 2 [0; 0; 0; 0; 9; 9] 4 4 (open3 posix_build) world0
    = Some (4, [1; 2; 3; 4; 9; 9], w').
Proof.
  intros os.
  destruct (receive posix_build os 2 [0; 0; 0; 0; 9; 9] 4 4
              (open3 posix_build) world0)
    as [[[st d] w']|] eqn:E; [|vm_compute in E; discriminate].
  destruct (receive_never_writes_past_the_buffer
              posix_build os 2 [0; 0; 0; 0; 9; 9] 4 4 (open3 posix_build)
              world0 st d w' ltac:(reflexivity) ltac:(lia)
              ltac:(simpl; lia) (clipped_is_honest _) E)
    as (_ & Hrest & _).
  exists w'. vm_compute in E. injection E as <- <- _. reflexivity.
Defined.

Lemma c_string_length (l : list Z) : (length (c_string l) <= length l)%nat.
Proof.
  induction l as [|b l IH]; simpl; [lia|].
  destruct (b =? 0); simpl; lia.
Qed.

(** A buffer that is zero from index [n] on holds a string of at most [n]
    bytes. *)
Lemma c_string_cut (n m : nat) (d : list Z) :
  skipn n d = repeat 0 (S m) -> (length (c_string d) <= n)%nat.
Proof.
  intros H. rewrite <- (firstn_skipn n d), H. simpl.
  rewrite c_string_before_zero.
  pose proof (c_string_length (firstn n d)) as Hl.
  rewrite length_firstn in Hl. lia.
Qed.

Lemma skipn_zeros (n : nat) (m : Z) :
  skipn n (zeros m) = repeat 0 (Z.to_nat m - n).
Proof. unfold zeros. apply skipn_repeat_zero. Qed.

(** X12.  With a system whose reads store exactly what they report, the
    string a string-filling [receive] yields on a valid handle, when its
    status is not negative, is no longer than that status, which in turn
    is at most [minpacketsize] (for the overload with a minimum) or
    [MAXRECV] (for the one without). *)
Theorem received_string_is_no_longer_than_the_count :
  forall (pf : build) (os : oracle) (fuel : nat) (old : list Z)
         (s : Socket) (w : world) (st : Z) (str : list Z) (w' : world),
    is_valid pf s = true ->
    SOCKET_ERROR pf < 0 ->
    recv_honest pf os ->
    0 <= st ->
    (forall minpacketsize,
        0 <= minpacketsize < 2 ^ 32 - 1 ->
        receive_string_min pf os fuel old minpacketsize s w
        = Some (st, str, w') ->
        Z.of_nat (length str) <= st <= minpacketsize)
    /\ (0 <= MAXRECV pf < 2 ^ 32 ->
        receive_string pf os fuel old s w = Some (st, str, w') ->
        Z.of_nat (length str) <= st <= MAXRECV pf).
Proof.
  intros pf os fuel old s w st str w' Hv Hse Hh Hst.
  assert (Hgen : forall b m d,
             0 <= b < 2 ^ 32 ->
             receive pf os fuel (zeros (b + 1)) b m s w = Some (st, d, w') ->
             Z.of_nat (length (c_string d)) <= st <= b).
  { intros b m d Hb Hm.
    destruct (receive_keeps_the_rest
                pf os fuel (zeros (b + 1)) b m s w st d w' Hse Hb)
      as (_ & _ & Hpos); [|exact Hh|exact Hm|].
    - unfold zeros. rewrite repeat_length. lia.
    - destruct (Hpos Hst) as [Hle Hrest].
      rewrite skipn_zeros in Hrest.
      replace (Z.to_nat (b + 1) - Z.to_nat st)%nat
        with (S (Z.to_nat (b - st))) in Hrest by lia.
      apply c_string_cut in Hrest. lia. }
  split.
  - intros minpacketsize Hm H. unfold receive_string_min in H.
    rewrite Hv in H. simpl in H. rewrite to_uint_small in H by lia.
    destruct (receive pf os fuel (zeros (minpacketsize + 1)) minpacketsize
                minpacketsize s w) as [[[st0 d0] w0]|] eqn:E; [|discriminate].
    injection H as -> <- ->.
    apply (Hgen minpacketsize minpacketsize d0); [lia|exact E].
  - intros Hm H. unfold receive_string in H.
    rewrite Hv in H. simpl in H.
    destruct (receive pf os fuel (zeros (MAXRECV pf + 1)) (MAXRECV pf) 0 s w)
      as [[[st0 d0] w0]|] eqn:E; [|discriminate].
    injection H as -> <- ->.
    apply (Hgen (MAXRECV pf) 0 d0); [lia|exact E].
Qed.

Lemma received_string_is_no_longer_than_the_count_witness :
  let os := clipped (scripted (map delivers [[72; 73; 0; 74]]) (failed 11)) in
  exists w',
    receive_string_min posix_build os 1 [] 4 (open3 posix_build) world0
    = Some (4, [72; 73], w')
    /\ Z.of_nat (length [72; 73]) <= 4 <= 4.
Proof.
  intros os.
  destruct (receive_string_min posix_build os 1 [] 4 (open3 posix_build)
              world0) as [[[st str] w']|] eqn:E;
    [|vm_compute in E; discriminate].
  assert (Hst : st = 4 /\ str = [72; 73]).
  { vm_compute in E. injection E as <- <- _. split; reflexivity. }
  destruct Hst as [-> ->]. exists w'. split; [reflexivity|].
  destruct (received_string_is_no_longer_than_the_count
              posix_build os 1 [] (open3 posix_build) world0 4 [72; 73] w'
              eq_refl ltac:(reflexivity) (clipped_is_honest _) ltac:(lia))
    as [Hmin _].
  apply (Hmin 4); [lia|exact E].
Defined.

(** ** receive: a failure after some bytes *)

(** X13.  When a read fails with a code other than "would block" after the
    loop has already stored [rs] bytes, [receive] returns [SOCKET_ERROR]:
    the count of the bytes stored is not reported, the buffer keeps them,
    one diagnostic line is logged and the loop does not nap. *)
Theorem receive_reports_only_the_error_after_partial_data :
  forall (pf : build) (os : oracle) (data : list Z)
         (buffersize minpacketsize : Z) (s : Socket) (w : world)
         (n : nat) (rs : Z) (d : list Z) (w1 : world),
    is_valid pf s = true ->
    receive_after pf os (_sd s) buffersize minpacketsize n 0 data w
    = Again rs d w1 ->
    (rs <=? minpacketsize) && (rs <? buffersize) = true ->
    r_status (os (w_tick w1) (recv_at (_sd s) buffersize rs))
    = SOCKET_ERROR pf ->
    last_error pf (os (w_tick w1) (recv_at (_sd s) buffersize rs))
    <> EAGAIN pf ->
    forall fuel, (n < fuel)%nat ->
    exists w',
      receive pf os fuel data buffersize minpacketsize s w
      = Some (SOCKET_ERROR pf, d, w')
      /\ w_slept w' = w_slept w1
      /\ w_log w'
         = ErrorMessage
             (last_error pf (os (w_tick w1) (recv_at (_sd s) buffersize rs)))
             "Socket::receive" :: w_log w1.
Proof.
  intros pf os data buffersize minpacketsize s w n rs d w1
         Hv Ha Ht Hs He fuel Hf.
  pose proof (after_then_turn pf os (_sd s) buffersize minpacketsize n
                _ _ _ _ _ _ Ha) as Hlast.
  rewrite (turn_error pf os (_sd s) buffersize minpacketsize rs d w1 Ht Hs He)
    in Hlast.
  eexists. split.
  - unfold receive. rewrite Hv. simpl.
    apply (loop_returns_when_after_returns _ _ _ _ _ _ _ _ _ _ _ _ Hlast).
    lia.
  - split; reflexivity.
Qed.

Lemma receive_reports_only_the_error_after_partial_data_witness :
  let os := scripted [delivers [1; 2]; failed 104] (ok 0) in
  exists w',
    receive posix_build os 2 (zeros 8) 8 5 (open3 posix_build) world0
    = Some (-1, [1; 2; 0; 0; 0; 0; 0; 0], w').
Proof.
  intros os.
  destruct (receive_after posix_build os 3 8 5 1 0 (zeros 8) world0)
    as [rs d w1|st d w1] eqn:Ea; [|vm_compute in Ea; discriminate].
  assert (Hrs : rs = 2 /\ d = [1; 2; 0; 0; 0; 0; 0; 0] /\ w_tick w1 = 1%nat).
  { vm_compute in Ea. injection Ea as <- <- <-. repeat split. }
  destruct Hrs as (-> & -> & Hk).
  destruct (receive_reports_only_the_error_after_partial_data
              posix_build os (zeros 8) 8 5 (open3 posix_build) world0
              1%nat 2 [1; 2; 0; 0; 0; 0; 0; 0] w1 eq_refl Ea eq_refl)
    with (fuel := 2%nat) as (w' & Hr & _).
  - rewrite Hk. reflexivity.
  - rewrite Hk. vm_compute. discriminate.
  - lia.
  - exists w'. exact Hr.
Defined.

(** ** Blocking mode *)

Lemma land_lor_same (a m : Z) : Z.land (Z.lor a m) m = m.
Proof.
  apply Z.bits_inj'. intros n Hn. rewrite Z.land_spec, Z.lor_spec.
  destruct (Z.testbit a n), (Z.testbit m n); reflexivity.
Qed.

Lemma land_lnot_same (a m : Z) : Z.land (Z.land a (Z.lnot m)) m = 0.
Proof.
  apply Z.bits_inj'. intros n Hn.
  rewrite !Z.land_spec, Z.lnot_spec, Z.bits_0 by exact Hn.
  destruct (Z.testbit a n), (Z.testbit m n); reflexivity.
Qed.

Lemma land_lor_others (a m : Z) :
  Z.land (Z.lor a m) (Z.lnot m) = Z.land a (Z.lnot m).
Proof.
  apply Z.bits_inj'. intros n Hn.
  rewrite !Z.land_spec, Z.lor_spec, Z.lnot_spec by exact Hn.
  destruct (Z.testbit a n), (Z.testbit m n); reflexivity.
Qed.

Lemma land_lnot_others (a m : Z) :
  Z.land (Z.land a (Z.lnot m)) (Z.lnot m) = Z.land a (Z.lnot m).
Proof.
  apply Z.bits_inj'. intros n Hn.
  rewrite !Z.land_spec, Z.lnot_spec by exact Hn.
  destruct (Z.testbit a n), (Z.testbit m n); reflexivity.
Qed.

(** X14.  [set_non_blocking] on a build with [fcntl].  If reading the
    flags fails (a negative result) it returns false after that one call.
    Otherwise it writes flags in which the [O_NONBLOCK] bits are all set
    (for [true]) or all clear (for [false]) and every other bit is as
    read, and it returns false exactly when that write returns -1.  The
    object is never changed. *)
Theorem set_non_blocking_changes_only_the_flag :
  forall (pf : build) (os : oracle) (b : bool) (s : Socket) (w : world),
    TARGET_WINDOWS pf = false ->
    let opts := r_status (os (w_tick w) (SysFcntlGet (_sd s))) in
    snd (fst (set_non_blocking pf os b s w)) = s
    /\ (opts < 0 ->
        fst (fst (set_non_blocking pf os b s w)) = false
        /\ calls_since w (snd (set_non_blocking pf os b s w))
           = [SysFcntlGet (_sd s)])
    /\ (0 <= opts ->
        exists opts1,
          calls_since w (snd (set_non_blocking pf os b s w))
          = [SysFcntlSet (_sd s) opts1; SysFcntlGet (_sd s)]
          /\ Z.land opts1 (O_NONBLOCK pf) = (if b then O_NONBLOCK pf else 0)
          /\ Z.land opts1 (Z.lnot (O_NONBLOCK pf))
             = Z.land opts (Z.lnot (O_NONBLOCK pf))
          /\ fst (fst (set_non_blocking pf os b s w))
             = negb (r_status (os (S (w_tick w)) (SysFcntlSet (_sd s) opts1))
                     =? -1)).
Proof.
  intros pf os b s w Hp opts. unfold set_non_blocking, sys. rewrite Hp.
  cbv zeta. fold opts. simpl w_tick.
  split; [|split].
  - destruct (opts <? 0); [reflexivity|].
    destruct (_ =? -1); reflexivity.
  - intros Hneg. apply Z.ltb_lt in Hneg. rewrite Hneg. simpl.
    split; [reflexivity|].
    now rewrite (calls_since_app _ _
                   [(SysFcntlGet (_sd s),
                     os (w_tick w) (SysFcntlGet (_sd s)))]).
  - intros Hpos. apply Z.ltb_ge in Hpos. rewrite Hpos.
    set (opts1 := if b then Z.lor opts (O_NONBLOCK pf)
                  else Z.land opts (Z.lnot (O_NONBLOCK pf))).
    exists opts1. split; [|split; [|split]].
    + destruct (_ =? -1); simpl;
        now rewrite (calls_since_app _ _
                       [(SysFcntlSet (_sd s) opts1,
                         os (S (w_tick w)) (SysFcntlSet (_sd s) opts1));
                        (SysFcntlGet (_sd s),
                         os (w_tick w) (SysFcntlGet (_sd s)))]).
    + unfold opts1. destruct b; [apply land_lor_same|apply land_lnot_same].
    + unfold opts1. destruct b; [apply land_lor_others|apply land_lnot_others].
    + destruct (_ =? -1); reflexivity.
Qed.

Lemma set_non_blocking_changes_only_the_flag_witness :
  let os := scripted [ok 2050; ok 0] (ok 0) in
  fst (fst (set_non_blocking posix_build os false (open3 posix_build) world0))
  = true
  /\ calls_since world0
       (snd (set_non_blocking posix_build os false (open3 posix_build) world0))
     = [SysFcntlSet 3 2; SysFcntlGet 3]
  /\ fst (fst (set_non_blocking posix_build (always (failed 9)) true
                 (open3 posix_build) world0)) = false.
Proof.
  intros os.
  destruct (set_non_blocking_changes_only_the_flag
              posix_build os false (open3 posix_build) world0 eq_refl)
    as (_ & _ & Hset).
  destruct (set_non_blocking_changes_only_the_flag
              posix_build (always (failed 9)) true (open3 posix_build) world0
              eq_refl) as (_ & Hget & _).
  destruct Hset as (opts1 & Hc & _ & _ & Hr); [vm_compute; discriminate|].
  destruct Hget as (Hf & _); [reflexivity|].
  split; [reflexivity|]. split; [reflexivity|exact Hf].
Defined.

(** ** A poisoned handle and its recovery *)

Section Recovery.

Variable pf : build.
Variable os : oracle.

Local Abbreviation keeps_open := (fun c : os_call => releases c = false).

Lemma only_calls_step (P : os_call -> Prop) (w w1 w2 : world) (c : os_call)
  (r : reply) :
  only_calls P w w1 -> P c -> w_trace w2 = (c, r) :: w_trace w1 ->
  only_calls P w w2.
Proof.
  intros (evs & Ht & HP) Hc H2. exists ((c, r) :: evs). split.
  - now rewrite H2, Ht.
  - intros x [<-|Hx]; auto.
Qed.

Lemma send_loop_keeps_open (fuel : nat) :
  forall sd data len w st w',
    send_loop pf os fuel sd data len w = Some (st, w') ->
    only_calls keeps_open w w'.
Proof.
  induction fuel as [|f IH]; intros sd data len w st w' H; [discriminate|].
  simpl in H.
  assert (H1 : only_calls keeps_open w (snd (sys os (SysSend sd data len) w)))
    by now apply only_calls_sys.
  destruct (_ && _).
  - apply IH in H. exact (only_calls_trans _ _ _ _ H1 H).
  - now injection H as _ <-.
Qed.

Lemma send_keeps_open fuel data len s w st s' w' :
  send pf os fuel data len s w = Some (st, s', w') ->
  only_calls keeps_open w w'.
Proof.
  unfold send. intros H.
  destruct (negb (is_valid pf s));
    [injection H as _ _ <-; apply only_calls_refl|].
  set (sel := SysSelect (FD_SETSIZE pf) [_sd s] [] [_sd s] 0 0) in *.
  assert (H1 : only_calls keeps_open w (snd (sys os sel w)))
    by now apply only_calls_sys.
  unfold sys in H. cbv zeta in H.
  destruct (_ <? 0).
  - injection H as _ _ <-.
    eapply only_calls_same_trace; [exact H1|reflexivity].
  - destruct (send_loop _ _ _ _ _ _ _) as [[st0 w0]|] eqn:E; [|discriminate].
    apply send_loop_keeps_open in E.
    pose proof (only_calls_trans _ _ _ _ H1 E) as H2.
    destruct (st0 =? SOCKET_ERROR pf); injection H as _ _ <-;
      [eapply only_calls_same_trace; [exact H2|reflexivity]|exact H2].
Qed.

Lemma create_on_invalid_keeps_open s w :
  is_valid pf s = false ->
  only_calls keeps_open w (snd (create pf os s w))
  /\ (TARGET_WINDOWS pf = true ->
      win_usage_count (snd (create pf os s w)) = win_usage_count w + 1).
Proof.
  intros Hv. unfold create, osInit. rewrite Hv.
  destruct (TARGET_WINDOWS pf).
  - unfold sys. simpl.
    set (w1 := {| w_tick := S (w_tick w) |}).
    assert (H1 : only_calls keeps_open w w1).
    { eapply only_calls_step; [apply only_calls_refl| |reflexivity].
      reflexivity. }
    repeat (case_if; simpl); (split; [|reflexivity]); try exact H1;
      (eapply only_calls_step; [exact H1| |reflexivity]); reflexivity.
  - unfold sys. simpl. split; [|discriminate].
    case_if; simpl;
      (eapply only_calls_step; [apply only_calls_refl| |reflexivity]);
      reflexivity.
Qed.

Lemma reconnect_on_invalid_keeps_open s w :
  is_valid pf s = false ->
  only_calls keeps_open w (snd (reconnect pf os s w))
  /\ (TARGET_WINDOWS pf = true ->
      win_usage_count (snd (reconnect pf os s w)) = win_usage_count w + 1).
Proof.
  intros Hv. destruct (create_on_invalid_keeps_open s w Hv) as [Hc Hu].
  unfold reconnect. unfold is_valid in Hv. rewrite Hv.
  destruct (create pf os s w) as [[b s1] w1]. simpl in Hc, Hu.
  destruct b; simpl; [|now split].
  unfold sys. simpl. case_if; simpl; (split; [|exact Hu]);
    (eapply only_calls_step; [exact Hc| |reflexivity]); reflexivity.
Qed.

End Recovery.

(** X15.  After a [send] has left the handle invalid, [reconnect] opens a
    new descriptor without the old one ever being closed: from before the
    [send] to after the [reconnect] no descriptor is closed and no
    subsystem teardown runs.  On the build that starts the socket
    subsystem the usage counter is one higher than before the [send],
    whether the [reconnect] succeeds or not. *)
Theorem reconnect_after_send_failure_never_closes_the_old_descriptor :
  forall (pf : build) (os : oracle) (fuel : nat) (data : list Z) (len : Z)
         (s : Socket) (w : world) (st : Z) (s1 : Socket) (w1 : world),
    send pf os fuel data len s w = Some (st, s1, w1) ->
    is_valid pf s1 = false ->
    (forall c, In c (calls_since w (snd (reconnect pf os s1 w1))) ->
               releases c = false)
    /\ (TARGET_WINDOWS pf = true ->
        win_usage_count (snd (reconnect pf os s1 w1))
        = win_usage_count w + 1).
Proof.
  intros pf os fuel data len s w st s1 w1 Hs Hv.
  destruct (reconnect_on_invalid_keeps_open pf os s1 w1 Hv) as [Hr Hu].
  pose proof (send_keeps_open pf os _ _ _ _ _ _ _ _ Hs) as Hk.
  split.
  - apply only_calls_since. exact (only_calls_trans _ _ _ _ Hk Hr).
  - intros Hw. rewrite (Hu Hw). f_equal.
    exact (send_usage pf os _ _ _ _ _ _ _ _ Hs).
Qed.

Lemma reconnect_after_send_failure_never_closes_the_old_descriptor_witness :
  let os := scripted [ok 1; failed 104; ok 0; ok 9; ok 0] (ok 0) in
  let s := open3 windows_build in
  let w := set_usage world0 1 in
  exists s1 w1,
    send windows_build os 1 [71] 1 s w = Some (-1, s1, w1)
    /\ fst (reconnect windows_build os s1 w1) = (true, set_sd s 9)
    /\ calls_since w (snd (reconnect windows_build os s1 w1))
       = [SysConnect 9 (_sockaddr s); SysSocket 2 1 6; SysWSAStartup 514;
          SysSend 3 [71] 1; SysSelect 64 [3] [] [3] 0 0]
    /\ win_usage_count (snd (reconnect windows_build os s1 w1)) = 2.
Proof.
  intros os s w.
  destruct (send windows_build os 1 [71] 1 s w) as [[[st s1] w1]|] eqn:E;
    [|vm_compute in E; discriminate].
  assert (Hst : st = -1 /\ is_valid windows_build s1 = false).
  { vm_compute in E. injection E as <- <- _. split; reflexivity. }
  destruct Hst as [-> Hv].
  destruct (reconnect_after_send_failure_never_closes_the_old_descriptor
              windows_build os 1 [71] 1 s w (-1) s1 w1 E Hv) as [_ Hu].
  exists s1, w1. split; [reflexivity|].
  vm_compute in E. injection E as <- <-.
  split; [reflexivity|]. split; [reflexivity|exact (Hu eq_refl)].
Defined.

(** ** accept, connect, bind and the rest *)

Lemma accept_on_valid (pf : build) (os : oracle) (new_socket s : Socket)
  (w : world) :
  is_valid pf s = true ->
  let r := os (w_tick w) (SysAccept (_sd s)) in
  exists w1,
    accept pf os new_socket s w
    = (0 <? r_status r, set_sd new_socket (r_status r),
       match r_addr r with Some a => set_sockaddr s a | None => s end, w1)
    /\ w_trace w1 = [(SysAccept (_sd s), r)] ++ w_trace w.
Proof.
  intros Hv r. unfold accept, sys. rewrite Hv. cbv zeta. fold r. simpl.
  destruct (r_status r <=? 0) eqn:E.
  - replace (0 <? r_status r) with false
      by (symmetry; apply Z.ltb_ge; now apply Z.leb_le).
    eexists. split; reflexivity.
  - replace (0 <? r_status r) with true
      by (symmetry; apply Z.ltb_lt; now apply Z.leb_gt).
    eexists. split; reflexivity.
Qed.

(** X16.  [accept] on a valid handle makes one call, leaves the listener's
    handle alone, and stores what the call returned in [new_socket._sd]
    whether it succeeded or not; it reports success exactly when that
    value is positive, and nothing else of [new_socket] changes (the
    peer's address goes to the listener).  So where [INVALID_SOCKET] is
    not positive a reported success comes with a valid handle, and where
    it is positive a call that returned [INVALID_SOCKET] is reported as
    success with an invalid handle. *)
Theorem accept_reports_success_on_a_positive_descriptor :
  forall (pf : build) (os : oracle) (new_socket s : Socket) (w : world),
    is_valid pf s = true ->
    let r := os (w_tick w) (SysAccept (_sd s)) in
    let res := fst (fst (fst (accept pf os new_socket s w))) in
    let n := snd (fst (fst (accept pf os new_socket s w))) in
    let s1 := snd (fst (accept pf os new_socket s w)) in
    res = (0 <? r_status r)
    /\ n = set_sd new_socket (r_status r)
    /\ _sd s1 = _sd s
    /\ calls_since w (snd (accept pf os new_socket s w)) = [SysAccept (_sd s)]
    /\ (INVALID_SOCKET pf <= 0 -> res = true -> is_valid pf n = true)
    /\ (0 < INVALID_SOCKET pf -> r_status r = INVALID_SOCKET pf ->
        res = true /\ is_valid pf n = false).
Proof.
  intros pf os new_socket s w Hv r res n s1.
  destruct (accept_on_valid pf os new_socket s w Hv) as (w1 & He & Ht).
  fold r in He, Ht. unfold res, n, s1. rewrite He. simpl.
  split; [reflexivity|]. split; [reflexivity|].
  split; [now destruct (r_addr r)|].
  split; [exact (calls_since_app _ _ _ Ht)|].
  unfold is_valid. simpl. split.
  - intros Hinv Hpos. apply Z.ltb_lt in Hpos.
    apply negb_true_iff. apply Z.eqb_neq. lia.
  - intros Hinv Heq. rewrite Heq, Z.eqb_refl. split; [|reflexivity].
    apply Z.ltb_lt. exact Hinv.
Qed.

Lemma accept_reports_success_on_a_positive_descriptor_witness :
  let failing := always (ok (2 ^ 64 - 1)) in
  fst (fst (fst (accept posix_build (always (ok 7))
                   (Socket_default posix_build) (open3 posix_build) world0)))
  = true
  /\ fst (fst (fst (accept windows_build failing
                      (Socket_default windows_build) (open3 windows_build)
                      world0))) = true
  /\ is_valid windows_build
       (snd (fst (fst (accept windows_build failing
                         (Socket_default windows_build) (open3 windows_build)
                         world0)))) = false.
Proof.
  intros failing.
  destruct (accept_reports_success_on_a_positive_descriptor
              posix_build (always (ok 7)) (Socket_default posix_build)
              (open3 posix_build) world0 eq_refl) as (Hres & _).
  destruct (accept_reports_success_on_a_positive_descriptor
              windows_build failing (Socket_default windows_build)
              (open3 windows_build) world0 eq_refl)
    as (_ & _ & _ & _ & _ & Hwin).
  destruct (Hwin ltac:(reflexivity) eq_refl) as [Ht Hi].
  split; [exact Hres|]. split; [exact Ht|exact Hi].
Defined.

(** X17.  [connect] on a valid handle first stores the family and the
    port.  If the host name is alphabetic and its lookup finds nothing,
    [connect] fails after that one call: no connection is attempted, and
    the address part is as it was.  Otherwise the address found (or
    parsed) completes the peer address, the one further call is the
    connect on the unchanged handle with exactly that address, and
    [connect] fails exactly when it returns [SOCKET_ERROR]. *)
Theorem connect_resolves_before_it_connects :
  forall (pf : build) (os : oracle) (host : string) (port : Z)
         (s : Socket) (w : world),
    is_valid pf s = true ->
    let res := connect pf os host port s w in
    _sd (snd (fst res)) = _sd s
    /\ (isalpha (c_str_0 host) = true ->
        r_host (os (w_tick w) (SysGethostbyname host)) = None ->
        fst (fst res) = false
        /\ calls_since w (snd res) = [SysGethostbyname host]
        /\ _sockaddr (snd (fst res))
           = {| sin_family := _family s; sin_port := htons pf port;
                sin_addr := sin_addr (_sockaddr s) |})
    /\ (forall addr lookup,
           (isalpha (c_str_0 host) = true
            /\ lookup = SysGethostbyname host
            /\ exists he, r_host (os (w_tick w) lookup) = Some he
                          /\ addr = h_addr he)
           \/ (isalpha (c_str_0 host) = false
               /\ lookup = SysInetAddr host
               /\ addr = r_status (os (w_tick w) lookup)) ->
           let a := {| sin_family := _family s; sin_port := htons pf port;
                       sin_addr := addr |} in
           _sockaddr (snd (fst res)) = a
           /\ calls_since w (snd res) = [SysConnect (_sd s) a; lookup]
           /\ fst (fst res)
              = negb (r_status (os (S (w_tick w)) (SysConnect (_sd s) a))
                      =? SOCKET_ERROR pf)).
Proof.
  intros pf os host port s w Hv res. unfold res, connect, setHostname, sys.
  rewrite Hv. cbv zeta. simpl negb. cbv iota.
  split; [|split].
  - destruct (isalpha (c_str_0 host)); simpl.
    + destruct (r_host _); simpl; [|reflexivity].
      destruct (_ =? SOCKET_ERROR pf); reflexivity.
    + destruct (_ =? SOCKET_ERROR pf); reflexivity.
  - intros Ha Hnone. rewrite Ha, Hnone. simpl.
    split; [reflexivity|]. split; [|reflexivity].
    now rewrite (calls_since_app _ _
                   [(SysGethostbyname host,
                     os (w_tick w) (SysGethostbyname host))]).
  - intros addr lookup Hcase.
    assert (Hcalls : forall w2 r,
               w_trace w2
               = [(SysConnect (_sd s)
                     {| sin_family := _family s; sin_port := htons pf port;
                        sin_addr := addr |}, r);
                  (lookup, os (w_tick w) lookup)] ++ w_trace w ->
               calls_since w w2
               = [SysConnect (_sd s)
                    {| sin_family := _family s; sin_port := htons pf port;
                       sin_addr := addr |}; lookup]).
    { intros w2 r H2. now rewrite (calls_since_app _ _ _ H2). }
    destruct Hcase as [(Ha & -> & he & Hhe & ->)|(Ha & -> & ->)];
      rewrite Ha; [rewrite Hhe|];
      unfold with_addr, with_port, with_family, set_sockaddr; simpl;
      case_if; simpl; (split; [reflexivity|]); (split; [|reflexivity]);
      eapply Hcalls; reflexivity.
Qed.

Lemma connect_resolves_before_it_connects_witness :
  let s := open3 posix_build in
  fst (fst (connect posix_build (always (failed 1)) "backend" 8866 s world0))
  = false
  /\ calls_since world0
       (snd (connect posix_build (always (failed 1)) "backend" 8866 s world0))
     = [SysGethostbyname "backend"]
  /\ calls_since world0
       (snd (connect posix_build (always (ok 16777343)) "127.0.0.1" 8866 s
               world0))
     = [SysConnect 3 {| sin_family := 2; sin_port := htons_le 8866;
                        sin_addr := 16777343 |};
        SysInetAddr "127.0.0.1"].
Proof.
  intros s.
  destruct (connect_resolves_before_it_connects
              posix_build (always (failed 1)) "backend" 8866 s world0 eq_refl)
    as (_ & Hfail & _).
  destruct (Hfail eq_refl eq_refl) as (Hf & Hc & _).
  destruct (connect_resolves_before_it_connects
              posix_build (always (ok 16777343)) "127.0.0.1" 8866 s world0
              eq_refl) as (_ & _ & Hok).
  destruct (Hok 16777343 (SysInetAddr "127.0.0.1")) as (_ & Hc2 & _).
  { right. repeat split. }
  split; [exact Hf|]. split; [exact Hc|exact Hc2].
Defined.

(** X18.  [SetSocketOption] on a valid handle makes the one [setsockopt]
    call and returns its integer result as a [bool]: false when the call
    returned 0 (its success), true when it returned anything else (such
    as -1, its failure).  The object is unchanged. *)
Theorem SetSocketOption_returns_the_raw_result :
  forall (pf : build) (os : oracle) (level option : Z) (setting : list Z)
         (value : Z) (s : Socket) (w : world),
    is_valid pf s = true ->
    let c := SysSetsockopt (_sd s) level option setting value in
    let res := SetSocketOption pf os level option setting value s w in
    snd (fst res) = s
    /\ calls_since w (snd res) = [c]
    /\ (r_status (os (w_tick w) c) = 0 -> fst (fst res) = false)
    /\ (r_status (os (w_tick w) c) <> 0 -> fst (fst res) = true).
Proof.
  intros pf os level option setting value s w Hv c res.
  unfold res, SetSocketOption, sys. unfold is_valid in Hv.
  apply negb_true_iff in Hv. rewrite Hv. cbv zeta. fold c. simpl.
  split; [reflexivity|]. split.
  - now rewrite (calls_since_app _ _ [(c, os (w_tick w) c)]).
  - split.
    + now intros ->.
    + intros Hne. apply Z.eqb_neq in Hne. now rewrite Hne.
Qed.

Lemma SetSocketOption_returns_the_raw_result_witness :
  fst (fst (SetSocketOption posix_build (always (ok 0)) 1 2 [1; 0; 0; 0] 4
              (open3 posix_build) world0)) = false
  /\ fst (fst (SetSocketOption posix_build (always (failed 22)) 1 2
                 [1; 0; 0; 0] 4 (open3 posix_build) world0)) = true.
Proof.
  destruct (SetSocketOption_returns_the_raw_result
              posix_build (always (ok 0)) 1 2 [1; 0; 0; 0] 4
              (open3 posix_build) world0 eq_refl) as (_ & _ & Hzero & _).
  destruct (SetSocketOption_returns_the_raw_result
              posix_build (always (failed 22)) 1 2 [1; 0; 0; 0] 4
              (open3 posix_build) world0 eq_refl) as (_ & _ & _ & Hfail).
  split; [apply Hzero; reflexivity|apply Hfail; discriminate].
Defined.

Lemma sendto_makes_a_call (pf : build) (os : oracle) (fuel : nat)
  (data : list Z) (size : Z) (c : bool) (s : Socket) (w : world)
  (i : Z) (s' : Socket) (w' : world) :
  sendto pf os fuel data size c s w = Some (i, s', w') ->
  In (SysSendto (_sd s) data size (_sockaddr s)) (calls_since w w').
Proof.
  unfold sendto. intros H.
  destruct (sendto_loop pf os fuel 0 data size c s w) as [[i0 w0]|] eqn:E;
    [|discriminate].
  injection H as _ _ <-.
  destruct fuel as [|f]; [discriminate|]. simpl in E.
  set (call := SysSendto (_sd s) data size (_sockaddr s)) in *.
  assert (H1 : only_calls (fun _ => True) w (snd (sys os call w)))
    by now apply only_calls_sys.
  assert (Hin : In call (calls_since w (snd (sys os call w)))).
  { rewrite (calls_since_app _ _ [(call, os (w_tick w) call)]);
      [now left|reflexivity]. }
  assert (Hrest : only_calls (fun _ => True) (snd (sys os call w)) w0).
  { destruct (_ <=? 0).
    - injection E as _ <-.
      apply only_calls_trans
        with (w2 := errormessage (getLastError pf (snd (sys os call w)))
                      "Socket::sendto" (snd (sys os call w))).
      + exists []. split; [reflexivity|intros x []].
      + eapply only_calls_weaken; [|apply osCleanup_only_cleanup]. auto.
    - destruct (_ && _).
      + apply sendto_loop_calls in E.
        eapply only_calls_weaken; [|exact E]. auto.
      + injection E as _ <-. apply only_calls_refl. }
  exact (In_calls_since_later _ _ _ _ _ _ H1 Hrest Hin).
Qed.

Lemma In_calls_since_earlier (P Q : os_call -> Prop) (w w1 w2 : world)
  (c : os_call) :
  only_calls P w w1 -> only_calls Q w1 w2 ->
  In c (calls_since w1 w2) -> In c (calls_since w w2).
Proof.
  intros (e1 & H1 & _) (e2 & H2 & _) Hin.
  rewrite (calls_since_app _ _ _ H2) in Hin.
  rewrite (calls_since_app w w2 (e2 ++ e1)).
  - rewrite map_app. apply in_or_app. now left.
  - now rewrite H2, H1, app_assoc.
Qed.

(** X19.  [BroadcastSendTo] does not test the handle.  It stores the
    family, the port and the parsed broadcast address in the peer address
    (they stay there whatever the send returns), and every datagram call
    of the run, of which there is at least one, goes to exactly that
    address on the descriptor the object holds. *)
Theorem BroadcastSendTo_stores_and_uses_the_broadcast_address :
  forall (pf : build) (os : oracle) (fuel : nat) (port : Z) (msg : list Z)
         (len : Z) (s : Socket) (w : world) (i : Z) (s' : Socket)
         (w' : world),
    BroadcastSendTo pf os fuel port msg len s w = Some (i, s', w') ->
    let a := {| sin_family := _family s; sin_port := htons pf port;
                sin_addr :=
                  r_status (os (w_tick w) (SysInetAddr "255.255.255.255")) |} in
    s' = set_sockaddr s a
    /\ In (SysSendto (_sd s) msg (to_uint len) a) (calls_since w w')
    /\ (forall x, In x (calls_since w w') ->
                  x = SysInetAddr "255.255.255.255"
                  \/ x = SysSendto (_sd s) msg (to_uint len) a
                  \/ x = SysWSACleanup).
Proof.
  intros pf os fuel port msg len s w i s' w' H a.
  unfold BroadcastSendTo, sys in H. cbv zeta in H. fold a in H.
  set (w1 := {| w_tick := S (w_tick w) |}) in *.
  set (s1 := set_sockaddr s (with_addr _ _)) in *.
  assert (Hs1 : s1 = set_sockaddr s a) by reflexivity.
  assert (H1 : only_calls (fun x => x = SysInetAddr "255.255.255.255") w w1).
  { eapply only_calls_step; [apply only_calls_refl|reflexivity|reflexivity]. }
  pose proof (sendto_frame _ _ _ _ _ _ _ _ _ _ _ H) as Hf.
  pose proof (sendto_makes_a_call _ _ _ _ _ _ _ _ _ _ _ H) as Hin.
  assert (Hcalls : only_calls
                     (fun x => x = SysSendto (_sd s) msg (to_uint len) a
                               \/ x = SysWSACleanup) w1 w').
  { unfold sendto in H.
    destruct (sendto_loop _ _ _ _ _ _ _ _ _) as [[i0 w0]|] eqn:E;
      [|discriminate].
    injection H as _ _ <-.
    exact (sendto_loop_calls _ _ _ _ _ _ _ _ _ _ _ E). }
  split; [now rewrite Hf|]. split.
  - exact (In_calls_since_earlier _ _ _ _ _ _ H1 Hcalls Hin).
  - apply only_calls_since. eapply only_calls_trans.
    + eapply only_calls_weaken; [|exact H1]. intros x Hx. now left.
    + eapply only_calls_weaken; [|exact Hcalls]. intros x Hx. now right.
Qed.

Lemma BroadcastSendTo_stores_and_uses_the_broadcast_address_witness :
  let s := Socket_default posix_build in
  let a := {| sin_family := 2; sin_port := htons_le 16891;
              sin_addr := 4294967295 |} in
  exists w',
    BroadcastSendTo posix_build (always (ok 4294967295)) 1 16891 [1; 2] 2 s
      world0 = Some (4294967295, set_sockaddr s a, w')
    /\ In (SysSendto (-1) [1; 2] 2 a) (calls_since world0 w').
Proof.
  intros s a.
  destruct (BroadcastSendTo posix_build (always (ok 4294967295)) 1 16891
              [1; 2] 2 s world0) as [[[i s'] w']|] eqn:E;
    [|vm_compute in E; discriminate].
  destruct (BroadcastSendTo_stores_and_uses_the_broadcast_address
              _ _ _ _ _ _ _ _ _ _ _ E) as (-> & Hin & _).
  exists w'. split; [|exact Hin].
  vm_compute in E. injection E as <- _. reflexivity.
Defined.

(** [bind] on a valid handle overwrites the peer address with the
    family, the wildcard address and the port in network order before it
    calls the system, so they are stored whatever the call returns; the
    call carries that address, the handle is unchanged, and [bind] fails
    exactly when the call returns -1. *)
Lemma bind_stores_the_wildcard_address_first :
  forall (pf : build) (os : oracle) (port : Z) (s : Socket) (w : world),
    is_valid pf s = true ->
    let a := {| sin_family := _family s; sin_port := htons pf port;
                sin_addr := INADDR_ANY pf |} in
    let res := bind pf os port s w in
    snd (fst res) = set_sockaddr s a
    /\ calls_since w (snd res) = [SysBind (_sd s) a]
    /\ fst (fst res)
       = negb (r_status (os (w_tick w) (SysBind (_sd s) a)) =? -1).
Proof.
  intros pf os port s w Hv a res. unfold res, bind, sys. rewrite Hv.
  cbv zeta. unfold with_addr, with_port, with_family, set_sockaddr. simpl.
  fold a.
  destruct (r_status (os (w_tick w) (SysBind (_sd s) a)) =? -1); simpl;
    (split; [reflexivity|]); (split; [|reflexivity]);
    now rewrite (calls_since_app _ _
                   [(SysBind (_sd s) a, os (w_tick w) (SysBind (_sd s) a))]).
Qed.

Lemma bind_stores_the_wildcard_address_first_witness :
  let s := open3 posix_build in
  bind posix_build (always (failed 98)) 8866 s world0
  = (false,
     set_sockaddr s {| sin_family := 2; sin_port := htons_le 8866;
                       sin_addr := 0 |},
     snd (bind posix_build (always (failed 98)) 8866 s world0)).
Proof.
  intros s.
  destruct (bind_stores_the_wildcard_address_first
              posix_build (always (failed 98)) 8866 s world0 eq_refl)
    as (Hs & _ & Hr).
  destruct (bind posix_build (always (failed 98)) 8866 s world0)
    as [[b s1] w1]. simpl in *. now rewrite Hs, Hr.
Defined.
